(** * mpi_avanzado: collective-communication programs, embedded and verified

    A shallow embedding of the MPI teaching programs of the repository
    ([src/main.cpp], [src/test.cpp], [src/analysis.cpp]).

    Every process of the group runs the same C++ [main]; its code is embedded
    as a value of the free monad [Proc], whose operations are the calls the
    sources make: MPI collectives, [MPI_Wtime], [std::cin], [std::cout].
    A group of [P] such processes is executed by [run], which lets each process
    go on until its next collective call and completes a collective once every
    process of the group has entered it.

    The programs are parametric in the arithmetic of [double], in the random
    number library and in the order in which the MPI library combines the
    contributions to a reduction.  The arithmetic the programs run with is
    IEEE 754 binary64 ([Binary64], the primitive floats of Rocq), with
    [std::mt19937] and the [uniform_real_distribution] of libstdc++; what
    depends on rounding is proved for it. *)

From Stdlib Require Import String ZArith List Bool Lia Permutation.
From Stdlib Require Import QArith Qcanon PrimFloat Uint63 Floats.
Import ListNotations.

Set Implicit Arguments.
Open Scope Z_scope.

(** ** C++ [int] *)

Module CInt.

Definition INT_MAX : Z := 2147483647.
Definition INT_MIN : Z := -2147483648.

Definition in_range (z : Z) : Prop := INT_MIN <= z <= INT_MAX.

(** Two's-complement wrap-around of a 32-bit [int]. *)
Definition wrap (z : Z) : Z := (z + 2147483648) mod 4294967296 - 2147483648.

(** What reading a number into an [int] stores when the number does not
    fit: the nearest [int]. *)
Definition clamp (z : Z) : Z := Z.max INT_MIN (Z.min INT_MAX z).

Definition add (a b : Z) : Z := wrap (a + b).
Definition mul (a b : Z) : Z := wrap (a * b).
(** [/] and [%] truncate towards zero. *)
Definition div (a b : Z) : Z := wrap (Z.quot a b).
Definition rem (a b : Z) : Z := Z.rem a b.

End CInt.

(** ** C++ [double]

    The programs only add, subtract, multiply, divide and compare doubles.
    They are embedded over any carrier with these operations; [binary64]
    below is IEEE 754 double precision, [exact] is arithmetic without
    rounding. *)

Class DoubleOps (D : Type) : Type := {
  dlit : Q -> D;            (* a literal such as [100.0] or [1e-10] *)
  dofint : Z -> D;          (* conversion from [int] or [long] *)
  dadd : D -> D -> D;
  dsub : D -> D -> D;
  dmul : D -> D -> D;
  ddiv : D -> D -> D;
  dabs : D -> D;            (* [std::abs] *)
  dltb : D -> D -> bool;    (* [<] *)
  dleb : D -> D -> bool     (* [<=] *)
}.

(** ** [<random>]

    [std::mt19937] seeded from an [int], and one draw of
    [std::uniform_real_distribution<double>(a, b)] from an engine, which
    advances the engine. *)

Class RandomLib (D : Type) : Type := {
  Engine : Type;
  mt19937 : Z -> Engine;
  uniform_real_distribution : D -> D -> Engine -> D * Engine
}.

(** ** The order in which [MPI_Reduce] combines contributions

    The MPI library chooses how the contributions of the ranks are combined;
    a choice is a binary tree whose leaves are ranks. *)

Inductive RTree : Type :=
| Leaf (rank : nat)
| Node (l r : RTree).

Fixpoint leaves (t : RTree) : list nat :=
  match t with
  | Leaf r => [r]
  | Node l r => leaves l ++ leaves r
  end.

Fixpoint reduce_tree {V : Type} (op : V -> V -> V) (dflt : V) (t : RTree)
         (contrib : list V) : V :=
  match t with
  | Leaf r => nth r contrib dflt
  | Node l r => op (reduce_tree op dflt l contrib) (reduce_tree op dflt r contrib)
  end.

Class MPILib : Type := {
  schedule : nat -> RTree   (* the combination order for a group of the given size *)
}.

(** Every rank of the group contributes exactly once. *)
Definition schedule_valid {mpi : MPILib} : Prop :=
  forall P : nat, (1 <= P)%nat -> Permutation (leaves (schedule P)) (seq 0 P).

Section Model.

Context {D : Type} {dops : DoubleOps D} {rnd : RandomLib D} {mpi : MPILib}.

(** *** Console output *)

Inductive Item : Type :=
| Str (s : string)
| Int (z : Z)
| Dbl (d : D)
| Fixed                       (* [std::fixed] *)
| SetPrecision (n : Z)        (* [std::setprecision(n)] *)
| Endl.

(** *** Completed collective calls, as one process sees them *)

Inductive Call : Type :=
| CBarrier
| CBcastInt (root : Z) (buf : Z)             (* [buf]: the buffer after the call *)
| CBcastDouble (root : Z) (buf : D)
| CReduceDouble (root : Z) (send recv : D)   (* [recv]: the receive buffer after the call *)
| CReduceInt (root : Z) (send recv : Z).

(** *** What one process sees of the outside world *)

(** What the operating system answers: [getrusage(RUSAGE_SELF, ...)] ([None]
    when it fails, else [ru_maxrss]) and the two [sysconf] values. *)
Record Sys : Type := mkSys {
  ru_maxrss : option Z;
  nprocessors_onln : Z;
  pagesize : Z
}.

Record Env : Type := mkEnv {
  my_rank : Z;             (* answer of [MPI_Comm_rank] *)
  group_size : Z;          (* answer of [MPI_Comm_size] *)
  clock : nat -> D;        (* successive readings of [MPI_Wtime] *)
  ticks : nat;             (* readings taken so far *)
  sys : Sys;
  stdin : list Z;          (* integers waiting on standard input *)
  stdout : list Item;
  stderr : list Item;
  trace : list Call        (* collectives completed so far, oldest first *)
}.

Definition tick (e : Env) : Env :=
  mkEnv (my_rank e) (group_size e) (clock e) (S (ticks e)) (sys e)
        (stdin e) (stdout e) (stderr e) (trace e).

Definition consume (e : Env) : Env :=
  mkEnv (my_rank e) (group_size e) (clock e) (ticks e) (sys e)
        (tl (stdin e)) (stdout e) (stderr e) (trace e).

Definition print (l : list Item) (e : Env) : Env :=
  mkEnv (my_rank e) (group_size e) (clock e) (ticks e) (sys e)
        (stdin e) (stdout e ++ l) (stderr e) (trace e).

Definition eprint (l : list Item) (e : Env) : Env :=
  mkEnv (my_rank e) (group_size e) (clock e) (ticks e) (sys e)
        (stdin e) (stdout e) (stderr e ++ l) (trace e).

Definition record (c : Call) (e : Env) : Env :=
  mkEnv (my_rank e) (group_size e) (clock e) (ticks e) (sys e)
        (stdin e) (stdout e) (stderr e) (trace e ++ [c]).

(** *** Calls that one process completes on its own *)

Inductive localE : Type -> Type :=
| MPI_Init : localE unit
| MPI_Comm_rank : localE Z
| MPI_Comm_size : localE Z
| MPI_Wtime : localE D
| MPI_Finalize : localE unit
| getrusage : localE (option Z)
| sysconf_NPROCESSORS_ONLN : localE Z
| sysconf_PAGESIZE : localE Z
| cin_int : localE Z                  (* [std::cin >> N] *)
| cout (l : list Item) : localE unit
| cerr (l : list Item) : localE unit.

(** [std::cin >> N] stores 0 when no integer can be read, and [INT_MAX] or
    [INT_MIN] when the number read does not fit an [int]. *)
Definition handle {X : Type} (ev : localE X) (e : Env) : X * Env :=
  match ev in localE X return X * Env with
  | MPI_Init => (tt, e)
  | MPI_Comm_rank => (my_rank e, e)
  | MPI_Comm_size => (group_size e, e)
  | MPI_Wtime => (clock e (ticks e), tick e)
  | MPI_Finalize => (tt, e)
  | getrusage => (ru_maxrss (sys e), e)
  | sysconf_NPROCESSORS_ONLN => (nprocessors_onln (sys e), e)
  | sysconf_PAGESIZE => (pagesize (sys e), e)
  | cin_int => (CInt.clamp (hd 0 (stdin e)), consume e)
  | cout l => (tt, print l e)
  | cerr l => (tt, eprint l e)
  end.

(** *** One process *)

Inductive Proc (A : Type) : Type :=
| Ret (a : A)
| Abort (code : Z)                       (* [MPI_Abort]: does not return *)
| Local (X : Type) (ev : localE X) (k : X -> Proc A)
| Barrier (k : Proc A)
| BcastInt (buf : Z) (root : Z) (k : Z -> Proc A)
| BcastDouble (buf : D) (root : Z) (k : D -> Proc A)
| ReduceDouble (send recv : D) (root : Z) (k : D -> Proc A)   (* [MPI_SUM] *)
| ReduceInt (send recv : Z) (root : Z) (k : Z -> Proc A).

Arguments Ret {A} a.
Arguments Abort {A} code.
Arguments Local {A X} ev k.
Arguments Barrier {A} k.
Arguments BcastInt {A} buf root k.
Arguments BcastDouble {A} buf root k.
Arguments ReduceDouble {A} send recv root k.
Arguments ReduceInt {A} send recv root k.

Fixpoint bind {A B : Type} (p : Proc A) (f : A -> Proc B) : Proc B :=
  match p with
  | Ret a => f a
  | Abort c => Abort c
  | Local ev k => Local ev (fun x => bind (k x) f)
  | Barrier k => Barrier (bind k f)
  | BcastInt b r k => BcastInt b r (fun x => bind (k x) f)
  | BcastDouble b r k => BcastDouble b r (fun x => bind (k x) f)
  | ReduceDouble s v r k => ReduceDouble s v r (fun x => bind (k x) f)
  | ReduceInt s v r k => ReduceInt s v r (fun x => bind (k x) f)
  end.

(** The calls as the sources write them. *)
Definition call {X : Type} (ev : localE X) : Proc X := Local ev Ret.
Definition MPI_Abort {A : Type} (code : Z) : Proc A := Abort code.
Definition MPI_Barrier : Proc unit := Barrier (Ret tt).
Definition MPI_Bcast_int (buf root : Z) : Proc Z := BcastInt buf root Ret.
Definition MPI_Bcast_double (buf : D) (root : Z) : Proc D := BcastDouble buf root Ret.
Definition MPI_Reduce_sum_double (send recv : D) (root : Z) : Proc D :=
  ReduceDouble send recv root Ret.
Definition MPI_Reduce_sum_int (send recv : Z) (root : Z) : Proc Z :=
  ReduceInt send recv root Ret.

(** [for (int i = lo; i < lo + n; ++i) body(i)] *)
Fixpoint for_loop (n : nat) (i : Z) (body : Z -> Proc unit) : Proc unit :=
  match n with
  | O => Ret tt
  | S n' => bind (body i) (fun _ => for_loop n' (i + 1) body)
  end.

(** [for (int x : l) body(x)] *)
Fixpoint for_each (l : list Z) (body : Z -> Proc unit) : Proc unit :=
  match l with
  | [] => Ret tt
  | x :: l' => bind (body x) (fun _ => for_each l' body)
  end.

Definition when (b : bool) (p : Proc unit) : Proc unit := if b then p else Ret tt.

(** *** A group of processes *)

Definition Group (A : Type) : Type := list (Proc A * Env).

Inductive Outcome (A : Type) : Type :=
| Finished (results : list (A * Env))    (* every process returned *)
| Aborted (code : Z) (g : Group A)       (* some process called [MPI_Abort] *)
| Deadlock (g : Group A)                 (* the processes do not agree on the next collective *)
| OutOfFuel (g : Group A).

Inductive Step (A : Type) : Type :=
| Continue (g : Group A)
| Halt (o : Outcome A).

Arguments Finished {A} results.
Arguments Aborted {A} code g.
Arguments Deadlock {A} g.
Arguments OutOfFuel {A} g.
Arguments Continue {A} g.
Arguments Halt {A} o.

(** A process goes on by itself until it returns, aborts or enters a collective. *)
Fixpoint advance {A : Type} (p : Proc A) (e : Env) : Proc A * Env :=
  match p with
  | Local ev k => let (x, e') := handle ev e in advance (k x) e'
  | _ => (p, e)
  end.

Fixpoint find_abort {A : Type} (g : Group A) : option Z :=
  match g with
  | [] => None
  | (Abort c, _) :: _ => Some c
  | _ :: g' => find_abort g'
  end.

Fixpoint traverse {X Y : Type} (f : X -> option Y) (l : list X) : option (list Y) :=
  match l with
  | [] => Some []
  | x :: l' =>
      match f x, traverse f l' with
      | Some y, Some ys => Some (y :: ys)
      | _, _ => None
      end
  end.

Definition ranked {A : Type} (g : Group A) : list (nat * (Proc A * Env)) :=
  combine (seq 0 (length g)) g.

Definition valid_root {A : Type} (g : Group A) (root : Z) : bool :=
  (0 <=? root) && (root <? Z.of_nat (length g)).

Definition at_ret {A : Type} (pe : Proc A * Env) : option (A * Env) :=
  match pe with
  | (Ret a, e) => Some (a, e)
  | _ => None
  end.

Definition at_barrier {A : Type} (pe : Proc A * Env) : option (Proc A * Env) :=
  match pe with
  | (Barrier k, e) => Some (k, record CBarrier e)
  | _ => None
  end.

Definition bcast_int_buf {A : Type} (pe : Proc A * Env) : option Z :=
  match pe with
  | (BcastInt buf _ _, _) => Some buf
  | _ => None
  end.

Definition at_bcast_int {A : Type} (root v : Z) (pe : Proc A * Env)
  : option (Proc A * Env) :=
  match pe with
  | (BcastInt _ root' k, e) =>
      if root' =? root then Some (k v, record (CBcastInt root v) e) else None
  | _ => None
  end.

Definition bcast_double_buf {A : Type} (pe : Proc A * Env) : option D :=
  match pe with
  | (BcastDouble buf _ _, _) => Some buf
  | _ => None
  end.

Definition at_bcast_double {A : Type} (root : Z) (v : D) (pe : Proc A * Env)
  : option (Proc A * Env) :=
  match pe with
  | (BcastDouble _ root' k, e) =>
      if root' =? root then Some (k v, record (CBcastDouble root v) e) else None
  | _ => None
  end.

Definition reduce_double_send {A : Type} (pe : Proc A * Env) : option D :=
  match pe with
  | (ReduceDouble send _ _ _, _) => Some send
  | _ => None
  end.

(** Only the root's receive buffer is written. *)
Definition at_reduce_double {A : Type} (root : Z) (total : D)
           (rpe : nat * (Proc A * Env)) : option (Proc A * Env) :=
  match rpe with
  | (rank, (ReduceDouble send recv root' k, e)) =>
      if root' =? root then
        let recv' := if Z.of_nat rank =? root then total else recv in
        Some (k recv', record (CReduceDouble root send recv') e)
      else None
  | _ => None
  end.

Definition reduce_int_send {A : Type} (pe : Proc A * Env) : option Z :=
  match pe with
  | (ReduceInt send _ _ _, _) => Some send
  | _ => None
  end.

Definition at_reduce_int {A : Type} (root : Z) (total : Z)
           (rpe : nat * (Proc A * Env)) : option (Proc A * Env) :=
  match rpe with
  | (rank, (ReduceInt send recv root' k, e)) =>
      if root' =? root then
        let recv' := if Z.of_nat rank =? root then total else recv in
        Some (k recv', record (CReduceInt root send recv') e)
      else None
  | _ => None
  end.

Definition continue_with {A : Type} (stuck : Group A) (o : option (Group A)) : Step A :=
  match o with
  | Some g' => Continue g'
  | None => Halt (Deadlock stuck)
  end.

Definition option_bind {X Y : Type} (o : option X) (f : X -> option Y) : option Y :=
  match o with
  | Some x => f x
  | None => None
  end.

(** The collective that rank 0 has entered completes when all the others are
    at the same call with the same root. *)
Definition collective {A : Type} (g : Group A) (p0 : Proc A) : Step A :=
  match p0 with
  | Ret _ =>
      match traverse at_ret g with
      | Some res => Halt (Finished res)
      | None => Halt (Deadlock g)
      end
  | Abort c => Halt (Aborted c g)
  | Local _ _ => Halt (Deadlock g)
  | Barrier _ => continue_with g (traverse at_barrier g)
  | BcastInt _ root _ =>
      if valid_root g root then
        continue_with g
          (option_bind (option_bind (nth_error g (Z.to_nat root)) bcast_int_buf)
             (fun v => traverse (at_bcast_int root v) g))
      else Halt (Deadlock g)
  | BcastDouble _ root _ =>
      if valid_root g root then
        continue_with g
          (option_bind (option_bind (nth_error g (Z.to_nat root)) bcast_double_buf)
             (fun v => traverse (at_bcast_double root v) g))
      else Halt (Deadlock g)
  | ReduceDouble _ _ root _ =>
      if valid_root g root then
        continue_with g
          (option_bind (traverse reduce_double_send g)
             (fun sends =>
                let total := reduce_tree dadd (dlit 0) (schedule (length g)) sends in
                traverse (at_reduce_double root total) (ranked g)))
      else Halt (Deadlock g)
  | ReduceInt _ _ root _ =>
      if valid_root g root then
        continue_with g
          (option_bind (traverse reduce_int_send g)
             (fun sends =>
                let total := reduce_tree CInt.add 0 (schedule (length g)) sends in
                traverse (at_reduce_int root total) (ranked g)))
      else Halt (Deadlock g)
  end.

Definition advanced {A : Type} (pe : Proc A * Env) : Proc A * Env :=
  advance (fst pe) (snd pe).

(** One round: every process is brought to its next collective call; an
    [MPI_Abort] anywhere ends the run, otherwise the collective takes place. *)
Definition round {A : Type} (g0 : Group A) : Step A :=
  let g := map advanced g0 in
  match find_abort g with
  | Some c => Halt (Aborted c g)
  | None =>
      match g with
      | [] => Halt (Finished [])
      | (p0, _) :: _ => collective g p0
      end
  end.

Fixpoint run {A : Type} (fuel : nat) (g : Group A) : Outcome A :=
  match fuel with
  | O => OutOfFuel g
  | S n =>
      match round g with
      | Continue g' => run n g'
      | Halt o => o
      end
  end.

(** [mpirun -np P prog]: [P] processes run the same program. *)
Definition mpirun {A : Type} (P : nat) (prog : Proc A) (env : nat -> Env) : Group A :=
  map (fun r => (prog, env r)) (seq 0 P).

(** [P] processes that call the same function with their rank and [P]. *)
Definition spmd {A : Type} (P : nat) (f : Z -> Z -> Proc A) (env : nat -> Env) : Group A :=
  map (fun r => (f (Z.of_nat r) (Z.of_nat P), env r)) (seq 0 P).

(** The world a run starts in: standard input reaches rank 0 only. *)
Definition world (P : nat) (clk : nat -> nat -> D) (os : nat -> Sys)
           (input : list Z) (r : nat) : Env :=
  mkEnv (Z.of_nat r) (Z.of_nat P) (clk r) 0 (os r)
        (if Nat.eqb r 0 then input else []) [] [] [].

(** *** What a run shows *)

Definition settled {A : Type} (o : Outcome A) : Prop :=
  match o with
  | OutOfFuel _ => False
  | _ => True
  end.

Definition not_abort {A : Type} (pe : Proc A * Env) : Prop :=
  match fst pe with
  | Abort _ => False
  | _ => True
  end.

(** The values the processes returned, by rank. *)
Definition returned {A : Type} (o : Outcome A) : option (list A) :=
  match o with
  | Finished results => Some (map fst results)
  | _ => None
  end.

(** The collectives each process completed, by rank. *)
Definition traces {A : Type} (o : Outcome A) : list (list Call) :=
  match o with
  | Finished results => map (fun x => trace (snd x)) results
  | Aborted _ g => map (fun x => trace (snd x)) g
  | Deadlock g => map (fun x => trace (snd x)) g
  | OutOfFuel g => map (fun x => trace (snd x)) g
  end.

(** What each process wrote to [std::cout], by rank. *)
Definition outputs {A : Type} (o : Outcome A) : list (list Item) :=
  match o with
  | Finished results => map (fun x => stdout (snd x)) results
  | Aborted _ g => map (fun x => stdout (snd x)) g
  | Deadlock g => map (fun x => stdout (snd x)) g
  | OutOfFuel g => map (fun x => stdout (snd x)) g
  end.

(** *** Processes that only print *)

Definition blank : Env :=
  mkEnv 0 0 (fun _ => dlit 0) 0 (mkSys None 0 0) [] [] [] [].

(** What a process that only prints writes to [std::cout]. *)
Definition output_of (q : Proc unit) : list Item := stdout (snd (advance q blank)).

Definition prints_only (q : Proc unit) : Prop :=
  forall e, advance q e = (Ret tt, print (output_of q) e).

(** What [m] rounds of [q i; MPI_Barrier] print, from [i] on. *)
Fixpoint loop_out (m : nat) (i : Z) (q : Z -> Proc unit) : list Item :=
  match m with
  | O => []
  | S m' => output_of (q i) ++ loop_out m' (i + 1) q
  end.

(** The environment after these [m] rounds. *)
Definition after_loop (m : nat) (out : list Item) (e : Env) : Env :=
  mkEnv (my_rank e) (group_size e) (clock e) (ticks e) (sys e) (stdin e)
        (stdout e ++ out) (stderr e) (trace e ++ repeat CBarrier m).

End Model.

Arguments Item D : clear implicits.
Arguments Call D : clear implicits.
Arguments Env D : clear implicits.
Arguments localE D X : clear implicits.
Arguments Proc D A : clear implicits.
Arguments Group D A : clear implicits.
Arguments Outcome D A : clear implicits.
Arguments Step D A : clear implicits.

Arguments Ret {D A} a.
Arguments Abort {D A} code.
Arguments Local {D A X} ev k.
Arguments Barrier {D A} k.
Arguments BcastInt {D A} buf root k.
Arguments BcastDouble {D A} buf root k.
Arguments ReduceDouble {D A} send recv root k.
Arguments ReduceInt {D A} send recv root k.
Arguments Finished {D A} results.
Arguments Aborted {D A} code g.
Arguments Deadlock {D A} g.
Arguments OutOfFuel {D A} g.
Arguments Continue {D A} g.
Arguments Halt {D A} o.

Arguments tick {D} !e /.
Arguments consume {D} !e /.
Arguments print {D} l !e /.
Arguments eprint {D} l !e /.
Arguments record {D} c !e /.
Arguments after_loop {D} m out !e /.
Arguments world {D} P clk os input r /.

Coercion call : localE >-> Proc.

Notation "x <- p ;; q" := (bind p (fun x => q))
  (at level 61, p at next level, right associativity).
Notation "p ;; q" := (bind p (fun _ => q))
  (at level 61, right associativity).

(** ** Loops the three programs share *)

Section Loops.

Context {D : Type} {dops : DoubleOps D} {rnd : RandomLib D}.

(** [for (int i = 0; i < n; ++i) v[i] = dist(gen)], with
    [dist = std::uniform_real_distribution<double>(0.0, 100.0)]. *)
Fixpoint generar (n : nat) (generador : Engine) : list D :=
  match n with
  | O => []
  | S n' =>
      let (x, generador') :=
        uniform_real_distribution (dlit 0) (dlit 100) generador in
      x :: generar n' generador'
  end.

(** [double s = 0.0; for (double v : l) s += v] *)
Definition sumar (l : list D) : D := fold_left dadd l (dlit 0).

End Loops.

(** ** [src/main.cpp] *)

Module main_cpp.
Section Program.

Context {D : Type} {dops : DoubleOps D} {rnd : RandomLib D}.

Definition generarValoresAleatorios (N rank : Z) : list D :=
  generar (Z.to_nat N) (mt19937 (CInt.add rank 42)).

Definition calcularSumaParcial (valores : list D) : D :=
  fold_left dadd valores (dlit 0).

Definition imprimirInfoProceso (rank : Z) (valores : list D) (sumaParcial : D)
  : Proc D unit :=
  cout [Str "Proceso "; Int rank; Str ":"; Endl] ;;
  cout [Str "  - Valores generados: "] ;;
  let size := Z.of_nat (length valores) in
  let maxMostrar := Z.min 5 size in
  for_loop (Z.to_nat maxMostrar) 0 (fun i =>
    cout [Fixed; SetPrecision 2; Dbl (nth (Z.to_nat i) valores (dlit 0))] ;;
    when (i <? maxMostrar - 1) (cout [Str ", "])) ;;
  when (maxMostrar <? size)
    (cout [Str ", ... (y "; Int (size - maxMostrar); Str " más)"]) ;;
  cout [Endl] ;;
  cout [Str "  - Suma parcial: "; Fixed; SetPrecision 2; Dbl sumaParcial; Endl] ;;
  cout [Endl].

(** The variables of [main] when it returns. *)
Record MainVars : Type := mkMainVars {
  mv_N : Z;
  mv_valores : list D;
  mv_sumaParcial : D;
  mv_sumaTotal : D;
  mv_promedioFinal : D
}.

Definition main : Proc D (Z * MainVars) :=
  MPI_Init ;;
  rank <- MPI_Comm_rank ;;
  numProcs <- MPI_Comm_size ;;
  MPI_Barrier ;;
  N <- (if rank =? 0 then
          cout [Str "=== PROGRAMA MPI: CÁLCULO DE PROMEDIO CON COMUNICACIONES COLECTIVAS ===";
                Endl] ;;
          cout [Str "Número total de procesos: "; Int numProcs; Endl] ;;
          cout [Str "Ingrese el número de valores por proceso (N): "] ;;
          N <- cin_int ;;
          when (N <=? 0)
            (cerr [Str "Error: N debe ser un número positivo."; Endl] ;;
             MPI_Abort 1) ;;
          cout [Str "Proceso raíz (rank 0) distribuyendo N = "; Int N;
                Str " a todos los procesos..."; Endl] ;;
          Ret N
        else Ret 0) ;;
  N <- MPI_Bcast_int N 0 ;;
  inicioGeneracion <- MPI_Wtime ;;
  let valores := generarValoresAleatorios N rank in
  let sumaParcial := calcularSumaParcial valores in
  finGeneracion <- MPI_Wtime ;;
  let duracionGeneracion := dmul (dsub finGeneracion inicioGeneracion) (dlit 1e6) in
  for_loop (Z.to_nat numProcs) 0 (fun i =>
    when (rank =? i) (imprimirInfoProceso rank valores sumaParcial) ;;
    MPI_Barrier) ;;
  MPI_Barrier ;;
  inicioReduccion <- MPI_Wtime ;;
  sumaTotal <- MPI_Reduce_sum_double sumaParcial (dlit 0) 0 ;;
  finReduccion <- MPI_Wtime ;;
  let duracionReduccion := dmul (dsub finReduccion inicioReduccion) (dlit 1e6) in
  promedioFinal <- (if rank =? 0 then
                      let promedioFinal := ddiv sumaTotal (dofint (CInt.mul N numProcs)) in
                      cout [Str "=== RESULTADOS EN EL PROCESO RAÍZ ==="; Endl] ;;
                      cout [Str "Suma total de todos los procesos: "; Fixed; SetPrecision 2;
                            Dbl sumaTotal; Endl] ;;
                      cout [Str "Número total de valores: "; Int (CInt.mul N numProcs); Endl] ;;
                      cout [Str "Promedio calculado: "; Fixed; SetPrecision 4;
                            Dbl promedioFinal; Endl] ;;
                      cout [Str "Tiempo de reducción: "; Fixed; SetPrecision 2;
                            Dbl duracionReduccion; Str " microsegundos"; Endl] ;;
                      cout [Endl] ;;
                      Ret promedioFinal
                    else Ret (dlit 0)) ;;
  inicioBroadcast <- MPI_Wtime ;;
  promedioFinal <- MPI_Bcast_double promedioFinal 0 ;;
  finBroadcast <- MPI_Wtime ;;
  let duracionBroadcast := dmul (dsub finBroadcast inicioBroadcast) (dlit 1e6) in
  for_loop (Z.to_nat numProcs) 0 (fun i =>
    when (rank =? i)
      (cout [Str "Proceso "; Int rank; Str " recibió el promedio final: "; Fixed;
             SetPrecision 4; Dbl promedioFinal; Endl] ;;
       cout [Str "Tiempo de broadcast: "; Fixed; SetPrecision 2; Dbl duracionBroadcast;
             Str " microsegundos"; Endl]) ;;
    MPI_Barrier) ;;
  MPI_Barrier ;;
  when (rank =? 0)
    (cout [Endl] ;;
     cout [Str "=== RESUMEN DE TIEMPOS ==="; Endl] ;;
     cout [Str "Tiempo de generación de datos: "; Fixed; SetPrecision 2;
           Dbl duracionGeneracion; Str " microsegundos"; Endl] ;;
     cout [Str "Tiempo de reducción: "; Fixed; SetPrecision 2; Dbl duracionReduccion;
           Str " microsegundos"; Endl] ;;
     cout [Str "Tiempo de broadcast final: "; Fixed; SetPrecision 2; Dbl duracionBroadcast;
           Str " microsegundos"; Endl] ;;
     cout [Endl] ;;
     cout [Str "=== PROGRAMA COMPLETADO EXITOSAMENTE ==="; Endl]) ;;
  MPI_Finalize ;;
  Ret (0, mkMainVars N valores sumaParcial sumaTotal promedioFinal).

End Program.

Arguments MainVars D : clear implicits.

End main_cpp.

(** ** [src/test.cpp] *)

Module test_cpp.
Section Program.

Context {D : Type} {dops : DoubleOps D} {rnd : RandomLib D}.

Definition testBroadcast (rank numProcs : Z) : Proc D bool :=
  cout [Str "Proceso "; Int rank; Str ": Ejecutando prueba de MPI_Bcast..."; Endl] ;;
  let valorOriginal := 42 in
  let valorRecibido := if rank =? 0 then valorOriginal else 0 in
  valorRecibido <- MPI_Bcast_int valorRecibido 0 ;;
  let resultado := valorRecibido =? valorOriginal in
  cout [Str "Proceso "; Int rank; Str ": Valor recibido = "; Int valorRecibido;
        Str " (esperado = "; Int valorOriginal; Str ")"; Endl] ;;
  Ret resultado.

(** [for (int i = 0; i < numProcs; ++i) sumaEsperada += (i + 1)] *)
Fixpoint sumaEsperada_desde (n : nat) (i : Z) (sumaEsperada : D) : D :=
  match n with
  | O => sumaEsperada
  | S n' => sumaEsperada_desde n' (i + 1) (dadd sumaEsperada (dofint (CInt.add i 1)))
  end.

Definition testReduce (rank numProcs : Z) : Proc D bool :=
  cout [Str "Proceso "; Int rank; Str ": Ejecutando prueba de MPI_Reduce..."; Endl] ;;
  let valorLocal := dofint (CInt.add rank 1) in
  let sumaEsperada := sumaEsperada_desde (Z.to_nat numProcs) 0 (dlit 0) in
  sumaTotal <- MPI_Reduce_sum_double valorLocal (dlit 0) 0 ;;
  if rank =? 0 then
    let resultado := dltb (dabs (dsub sumaTotal sumaEsperada)) (dlit 1e-10) in
    cout [Str "Proceso "; Int rank; Str ": Suma total = "; Dbl sumaTotal;
          Str " (esperada = "; Dbl sumaEsperada; Str ")"; Endl] ;;
    Ret resultado
  else Ret true.

(** The loop over [i] of [testPromedio] that accumulates [sumaEsperada]. *)
Fixpoint promedio_sumaEsperada (n : nat) (i : Z) (valores : list D) (N : Z)
         (sumaEsperada : D) : D :=
  match n with
  | O => sumaEsperada
  | S n' =>
      let sumaLocal := sumar valores in
      let sumaLocal := dadd sumaLocal (dmul (dofint (CInt.mul i N)) (dlit 10)) in
      promedio_sumaEsperada n' (i + 1) valores N (dadd sumaEsperada sumaLocal)
  end.

Definition testPromedio (rank numProcs : Z) : Proc D bool :=
  cout [Str "Proceso "; Int rank; Str ": Ejecutando prueba de cálculo de promedio...";
        Endl] ;;
  let valores := [dlit 1; dlit 2; dlit 3; dlit 4; dlit 5] in
  let N := Z.of_nat (length valores) in
  let sumaParcial := sumar valores in
  let sumaParcial := dadd sumaParcial (dmul (dofint (CInt.mul rank N)) (dlit 10)) in
  sumaTotal <- MPI_Reduce_sum_double sumaParcial (dlit 0) 0 ;;
  if rank =? 0 then
    let promedioFinal := ddiv sumaTotal (dofint (CInt.mul N numProcs)) in
    let sumaEsperada := promedio_sumaEsperada (Z.to_nat numProcs) 0 valores N (dlit 0) in
    let promedioEsperado := ddiv sumaEsperada (dofint (CInt.mul N numProcs)) in
    let resultado := dltb (dabs (dsub promedioFinal promedioEsperado)) (dlit 1e-10) in
    cout [Str "Proceso "; Int rank; Str ": Promedio calculado = "; Dbl promedioFinal;
          Str " (esperado = "; Dbl promedioEsperado; Str ")"; Endl] ;;
    Ret resultado
  else Ret true.

(** The loop that simulates work writes a [volatile] local and nothing else. *)
Definition testSincronizacion (rank numProcs : Z) : Proc D bool :=
  cout [Str "Proceso "; Int rank; Str ": Ejecutando prueba de sincronización..."; Endl] ;;
  MPI_Barrier ;;
  cout [Str "Proceso "; Int rank; Str ": Sincronización completada exitosamente"; Endl] ;;
  Ret true.

Definition testProgramaCompleto (rank numProcs : Z) : Proc D bool :=
  cout [Str "Proceso "; Int rank; Str ": Ejecutando prueba completa del programa...";
        Endl] ;;
  let N := 100 in
  let valores := generar (Z.to_nat N) (mt19937 (CInt.add rank 42)) in
  let sumaParcial := sumar valores in
  sumaTotal <- MPI_Reduce_sum_double sumaParcial (dlit 0) 0 ;;
  if rank =? 0 then
    let promedioFinal := ddiv sumaTotal (dofint (CInt.mul N numProcs)) in
    let resultado := dleb (dlit 0) promedioFinal && dleb promedioFinal (dlit 100) in
    cout [Str "Proceso "; Int rank; Str ": Promedio final = "; Dbl promedioFinal;
          Str " (rango válido: 0-100)"; Endl] ;;
    Ret resultado
  else Ret true.

(** Lines 218-234 of [main]: the five tests, a barrier after each. *)
Definition ejecutarPruebas (rank numProcs : Z) : Proc D bool :=
  let todasLasPruebasPasan := true in
  b <- testBroadcast rank numProcs ;;
  let todasLasPruebasPasan := todasLasPruebasPasan && b in
  MPI_Barrier ;;
  b <- testReduce rank numProcs ;;
  let todasLasPruebasPasan := todasLasPruebasPasan && b in
  MPI_Barrier ;;
  b <- testPromedio rank numProcs ;;
  let todasLasPruebasPasan := todasLasPruebasPasan && b in
  MPI_Barrier ;;
  b <- testSincronizacion rank numProcs ;;
  let todasLasPruebasPasan := todasLasPruebasPasan && b in
  MPI_Barrier ;;
  b <- testProgramaCompleto rank numProcs ;;
  let todasLasPruebasPasan := todasLasPruebasPasan && b in
  MPI_Barrier ;;
  Ret todasLasPruebasPasan.

(** Lines 236-261 of [main]: the verdicts are summed at rank 0 and every
    process returns its exit code. *)
Definition resultadosGlobales (rank numProcs : Z) (todasLasPruebasPasan : bool)
  : Proc D Z :=
  let resultadoGlobal := if todasLasPruebasPasan then 1 else 0 in
  resultadoTotal <- MPI_Reduce_sum_int resultadoGlobal 0 0 ;;
  MPI_Barrier ;;
  when (rank =? 0)
    (cout [Endl; Str "=== RESULTADOS DE LAS PRUEBAS ==="; Endl] ;;
     (if resultadoTotal =? numProcs then
        cout [Str "✅ TODAS LAS PRUEBAS PASARON EXITOSAMENTE"; Endl]
      else
        cout [Str "❌ ALGUNAS PRUEBAS FALLARON"; Endl] ;;
        cout [Str "Procesos que pasaron las pruebas: "; Int resultadoTotal; Str "/";
              Int numProcs; Endl]) ;;
     cout [Endl]) ;;
  MPI_Barrier ;;
  MPI_Finalize ;;
  Ret (if resultadoTotal =? numProcs then 0 else 1).

Definition main : Proc D Z :=
  MPI_Init ;;
  rank <- MPI_Comm_rank ;;
  numProcs <- MPI_Comm_size ;;
  when (rank =? 0)
    (cout [Str "=== PRUEBAS DE COMUNICACIONES COLECTIVAS MPI ==="; Endl] ;;
     cout [Str "Número de procesos: "; Int numProcs; Endl] ;;
     cout [Endl]) ;;
  MPI_Barrier ;;
  todasLasPruebasPasan <- ejecutarPruebas rank numProcs ;;
  resultadosGlobales rank numProcs todasLasPruebasPasan.

End Program.
End test_cpp.

(** ** [src/analysis.cpp] *)

Module analysis_cpp.
Section Program.

Context {D : Type} {dops : DoubleOps D} {rnd : RandomLib D}.

Definition getMemoryUsage : Proc D Z :=
  rusage <- getrusage ;;
  match rusage with
  | Some ru_maxrss => Ret ru_maxrss
  | None => Ret (-1)
  end.

Definition printSystemInfo (rank numProcs : Z) : Proc D unit :=
  when (rank =? 0)
    (cout [Str "=== INFORMACIÓN DEL SISTEMA ==="; Endl] ;;
     cout [Str "Número de procesos: "; Int numProcs; Endl] ;;
     n <- sysconf_NPROCESSORS_ONLN ;;
     cout [Str "Número de núcleos: "; Int n; Endl] ;;
     n <- sysconf_PAGESIZE ;;
     cout [Str "Tamaño de página: "; Int n; Str " bytes"; Endl] ;;
     cout [Endl]).

(** Lines 66-70 of [strongScalingAnalysis]. *)
Definition elementsPerProc (N numProcs : Z) : Z :=
  let elementsPerProc := CInt.div N numProcs in
  if negb (CInt.rem N numProcs =? 0) then CInt.add elementsPerProc 1
  else elementsPerProc.

Definition strongScalingAnalysis (N maxProcs rank numProcs : Z) : Proc D unit :=
  when (rank =? 0)
    (cout [Str "=== ANÁLISIS DE ESCALABILIDAD FUERTE ==="; Endl] ;;
     cout [Str "Tamaño total del problema: "; Int N; Str " elementos"; Endl] ;;
     cout [Endl]) ;;
  let elementsPerProc := elementsPerProc N numProcs in
  let data := generar (Z.to_nat elementsPerProc) (mt19937 (CInt.add rank 42)) in
  startTime <- MPI_Wtime ;;
  let localSum := sumar data in
  globalSum <- MPI_Reduce_sum_double localSum (dlit 0) 0 ;;
  endTime <- MPI_Wtime ;;
  let elapsed := dmul (dsub endTime startTime) (dlit 1e6) in
  memoryUsage <- getMemoryUsage ;;
  when (rank =? 0)
    (let avg := ddiv globalSum (dofint N) in
     cout [Str "Procesos: "; Int numProcs; Str " | "] ;;
     cout [Str "Tiempo: "; Fixed; SetPrecision 2; Dbl elapsed; Str " μs | "] ;;
     cout [Str "Memoria: "; Int memoryUsage; Str " KB | "] ;;
     cout [Str "Promedio: "; Fixed; SetPrecision 4; Dbl avg; Endl]).

Definition weakScalingAnalysis (NPerProc rank numProcs : Z) : Proc D unit :=
  when (rank =? 0)
    (cout [Str "=== ANÁLISIS DE ESCALABILIDAD DÉBIL ==="; Endl] ;;
     cout [Str "Elementos por proceso: "; Int NPerProc; Endl] ;;
     cout [Endl]) ;;
  let data := generar (Z.to_nat NPerProc) (mt19937 (CInt.add rank 42)) in
  startTime <- MPI_Wtime ;;
  let localSum := sumar data in
  globalSum <- MPI_Reduce_sum_double localSum (dlit 0) 0 ;;
  endTime <- MPI_Wtime ;;
  let elapsed := dmul (dsub endTime startTime) (dlit 1e6) in
  memoryUsage <- getMemoryUsage ;;
  when (rank =? 0)
    (let totalElements := CInt.mul NPerProc numProcs in
     let avg := ddiv globalSum (dofint totalElements) in
     cout [Str "Procesos: "; Int numProcs; Str " | "] ;;
     cout [Str "Total elementos: "; Int totalElements; Str " | "] ;;
     cout [Str "Tiempo: "; Fixed; SetPrecision 2; Dbl elapsed; Str " μs | "] ;;
     cout [Str "Memoria: "; Int memoryUsage; Str " KB | "] ;;
     cout [Str "Promedio: "; Fixed; SetPrecision 4; Dbl avg; Endl]).

(** Test 1 of [robustnessTest] (lines 167-196); the allocation is taken to
    succeed, so the [catch] branch is not entered. *)
Definition robustnessTest_1 (rank numProcs : Z) : Proc D unit :=
  when (rank =? 0) (cout [Str "Test 1: Datos grandes (1M elementos)..."; Endl]) ;;
  let largeData := generar (Z.to_nat 1000000) (mt19937 (CInt.add rank 42)) in
  let localSum := sumar largeData in
  globalSum <- MPI_Reduce_sum_double localSum (dlit 0) 0 ;;
  when (rank =? 0) (cout [Str "  ✅ Test 1 completado exitosamente"; Endl]).

(** Test 2 of [robustnessTest] (lines 198-225). *)
Definition robustnessTest_2 (rank numProcs : Z) : Proc D unit :=
  when (rank =? 0) (cout [Str "Test 2: Múltiples operaciones colectivas..."; Endl]) ;;
  let data := generar (Z.to_nat 1000) (mt19937 (CInt.add rank 42)) in
  for_loop 10 0 (fun iter =>
    let localSum := sumar data in
    globalSum <- MPI_Reduce_sum_double localSum (dlit 0) 0 ;;
    globalSum <- MPI_Bcast_double globalSum 0 ;;
    Ret tt) ;;
  when (rank =? 0) (cout [Str "  ✅ Test 2 completado exitosamente"; Endl]).

(** Test 3 of [robustnessTest] (lines 227-245). *)
Definition robustnessTest_3 (rank numProcs : Z) : Proc D unit :=
  when (rank =? 0) (cout [Str "Test 3: Verificación de sincronización..."; Endl]) ;;
  let localValue := CInt.add rank 1 in
  globalSum <- MPI_Reduce_sum_int localValue 0 0 ;;
  when (rank =? 0)
    (let expectedSum := CInt.div (CInt.mul numProcs (CInt.add numProcs 1)) 2 in
     if globalSum =? expectedSum then
       cout [Str "  ✅ Test 3 completado exitosamente"; Endl]
     else
       cout [Str "  ❌ Test 3 falló: suma esperada "; Int expectedSum;
             Str ", obtenida "; Int globalSum; Endl]).

Definition robustnessTest (rank numProcs : Z) : Proc D unit :=
  when (rank =? 0) (cout [Str "=== TEST DE ROBUSTEZ ==="; Endl]) ;;
  robustnessTest_1 rank numProcs ;;
  robustnessTest_2 rank numProcs ;;
  robustnessTest_3 rank numProcs.

(** Lines 286-288 of [communicationVsComputationAnalysis]:
    [(compRatio, commRatio)]. *)
Definition ratios (compTime commTime : D) : D * D :=
  let totalTime := dadd compTime commTime in
  let compRatio := dmul (ddiv compTime totalTime) (dofint 100) in
  let commRatio := dmul (ddiv commTime totalTime) (dofint 100) in
  (compRatio, commRatio).

Definition communicationVsComputationAnalysis (rank numProcs : Z) : Proc D unit :=
  when (rank =? 0) (cout [Str "=== ANÁLISIS COMUNICACIÓN VS CÓMPUTO ==="; Endl]) ;;
  let problemSizes := [100; 1000; 10000; 100000] in
  for_each problemSizes (fun N =>
    let data := generar (Z.to_nat N) (mt19937 (CInt.add rank 42)) in
    startComp <- MPI_Wtime ;;
    let localSum := sumar data in
    endComp <- MPI_Wtime ;;
    let compTime := dmul (dsub endComp startComp) (dlit 1e6) in
    startComm <- MPI_Wtime ;;
    globalSum <- MPI_Reduce_sum_double localSum (dlit 0) 0 ;;
    endComm <- MPI_Wtime ;;
    let commTime := dmul (dsub endComm startComm) (dlit 1e6) in
    when (rank =? 0)
      (let (compRatio, commRatio) := ratios compTime commTime in
       cout [Str "N="; Int N; Str " | "] ;;
       cout [Str "Cómputo: "; Fixed; SetPrecision 2; Dbl compTime; Str " μs (";
             Fixed; SetPrecision 1; Dbl compRatio; Str "%) | "] ;;
       cout [Str "Comunicación: "; Fixed; SetPrecision 2; Dbl commTime; Str " μs (";
             Fixed; SetPrecision 1; Dbl commRatio; Str "%)"; Endl])).

Definition main : Proc D Z :=
  MPI_Init ;;
  rank <- MPI_Comm_rank ;;
  numProcs <- MPI_Comm_size ;;
  when (rank =? 0)
    (cout [Str "=== ANÁLISIS AVANZADO MPI - COMUNICACIONES COLECTIVAS ==="; Endl] ;;
     cout [Endl]) ;;
  printSystemInfo rank numProcs ;;
  strongScalingAnalysis 10000 16 rank numProcs ;;
  weakScalingAnalysis 1000 rank numProcs ;;
  robustnessTest rank numProcs ;;
  communicationVsComputationAnalysis rank numProcs ;;
  when (rank =? 0)
    (cout [Endl] ;;
     cout [Str "=== ANÁLISIS COMPLETADO ==="; Endl]) ;;
  MPI_Finalize ;;
  Ret 0.

End Program.
End analysis_cpp.

(** ** The Mersenne Twister [std::mt19937]

    [mersenne_twister_engine<uint_fast32_t, 32, 624, 397, 31, 0x9908b0df, 11,
    0xffffffff, 7, 0x9d2c5680, 15, 0xefc60000, 18, 1812433253>], as the C++
    standard defines it.  The state is the window of the last 624 words. *)

Module MT19937.

Definition word (z : Z) : Z := z mod 4294967296.

Fixpoint seed_from (n : nat) (i : Z) (prev : Z) : list Z :=
  match n with
  | O => []
  | S n' =>
      let x := word (1812433253 * Z.lxor prev (Z.shiftr prev 30) + i) in
      x :: seed_from n' (i + 1) x
  end.

Definition seed (value : Z) : list Z :=
  let x0 := word value in
  x0 :: seed_from 623 1 x0.

Definition temper (x : Z) : Z :=
  let z1 := Z.lxor x (Z.land (Z.shiftr x 11) 4294967295) in
  let z2 := Z.lxor z1 (Z.land (word (Z.shiftl z1 7)) 2636928640) in
  let z3 := Z.lxor z2 (Z.land (word (Z.shiftl z2 15)) 4022730752) in
  Z.lxor z3 (Z.shiftr z3 18).

Definition next (st : list Z) : Z * list Z :=
  let y := Z.lor (Z.land (nth 0 st 0) 2147483648) (Z.land (nth 1 st 0) 2147483647) in
  let alpha := if Z.odd y then 2567483615 else 0 in
  let x := Z.lxor (Z.lxor (nth 397 st 0) (Z.shiftr y 1)) alpha in
  (word (temper x), tl st ++ [x]).

Fixpoint discard (n : nat) (st : list Z) : list Z :=
  match n with
  | O => st
  | S n' => discard n' (snd (next st))
  end.

End MT19937.

(** ** Arithmetic without rounding

    The rationals: an idealisation of [double]. The programs do not compute
    with it; it is a model of the assumption, made where a theorem says so,
    that addition is associative and commutative, which the addition of
    binary64 is not. *)

Module Exact.

Definition ltb (a b : Qc) : bool :=
  match (a ?= b)%Qc with Lt => true | _ => false end.

Definition leb (a b : Qc) : bool :=
  match (a ?= b)%Qc with Gt => false | _ => true end.

#[export] Instance ops : DoubleOps Qc := {|
  dlit := Q2Qc;
  dofint := fun z => Q2Qc (inject_Z z);
  dadd := Qcplus;
  dsub := Qcminus;
  dmul := Qcmult;
  ddiv := Qcdiv;
  dabs := fun x => if ltb x (Q2Qc 0) then Qcopp x else x;
  dltb := ltb;
  dleb := leb
|}.

End Exact.

(** ** IEEE 754 double precision *)

Module Binary64.

Definition of_Z (z : Z) : float :=
  if z <? 0 then PrimFloat.opp (PrimFloat.of_uint63 (Uint63.of_Z (- z)))
  else PrimFloat.of_uint63 (Uint63.of_Z z).

#[export] Instance ops : DoubleOps float := {|
  dlit := fun q => PrimFloat.div (of_Z (Qnum q)) (of_Z (Zpos (Qden q)));
  dofint := of_Z;
  dadd := PrimFloat.add;
  dsub := PrimFloat.sub;
  dmul := PrimFloat.mul;
  ddiv := PrimFloat.div;
  dabs := PrimFloat.abs;
  dltb := PrimFloat.ltb;
  dleb := PrimFloat.leb
|}.

(** [std::generate_canonical<double, 53>] over a 32-bit engine as libstdc++
    computes it, then scaled to [[a, b)]. *)
Definition draw (a b : float) (st : list Z) : float * list Z :=
  let (u1, st1) := MT19937.next st in
  let (u2, st2) := MT19937.next st1 in
  let sum := PrimFloat.add (of_Z u1) (PrimFloat.mul (of_Z u2) (of_Z 4294967296)) in
  let ret := PrimFloat.div sum (PrimFloat.mul (of_Z 4294967296) (of_Z 4294967296)) in
  let ret := if PrimFloat.leb 1 ret then 0x1.fffffffffffffp-1%float else ret in
  (PrimFloat.add (PrimFloat.mul ret (PrimFloat.sub b a)) a, st2).

#[export] Instance random : RandomLib float := {|
  Engine := list Z;
  mt19937 := MT19937.seed;
  uniform_real_distribution := draw
|}.

End Binary64.

(** ** MPI libraries *)

(** Contributions are combined in rank order: [((c0 + c1) + c2) + ...]. *)
Fixpoint linear_from (n : nat) (acc : RTree) (r : nat) : RTree :=
  match n with
  | O => acc
  | S n' => linear_from n' (Node acc (Leaf r)) (S r)
  end.

Definition linear : MPILib := {| schedule := fun P => linear_from (P - 1) (Leaf 0) 1 |}.

(** Recursive halving: the two halves of the group are combined first. *)
Fixpoint halving (fuel : nat) (lo n : nat) : RTree :=
  match fuel with
  | O => Leaf lo
  | S fuel' =>
      if (n <=? 1)%nat then Leaf lo
      else Node (halving fuel' lo (n - n / 2)) (halving fuel' (lo + (n - n / 2)) (n / 2))
  end.

Definition binomial : MPILib := {| schedule := fun P => halving P 0 P |}.

(** * Executing a group

    What one round does to a group in which every process has reached the same
    collective. *)

Section Execution.

Context {D : Type} {dops : DoubleOps D} {rnd : RandomLib D} {mpi : MPILib}.

Lemma traverse_map {X Y Z : Type} (f : Y -> option Z) (h : X -> Y) (g : X -> Z) (l : list X) :
  (forall x, In x l -> f (h x) = Some (g x)) ->
  traverse f (map h l) = Some (map g l).
Proof.
  induction l as [|x l IH]; intros Hl; simpl.
  - reflexivity.
  - rewrite (Hl x (or_introl eq_refl)), IH; [reflexivity|].
    intros y Hy. apply Hl. right. exact Hy.
Qed.

Lemma find_abort_none {A X : Type} (h : X -> Proc D A * Env D) (l : list X) :
  (forall x, In x l -> not_abort (h x)) -> find_abort (map h l) = None.
Proof.
  induction l as [|x l IH]; intros Hl; simpl.
  - reflexivity.
  - pose proof (Hl x (or_introl eq_refl)) as Hx.
    unfold not_abort in Hx. destruct (h x) as [p e]. simpl in Hx.
    destruct p; try contradiction; apply IH; intros y Hy; apply Hl; right; exact Hy.
Qed.

Lemma advance_bind {A B : Type} (p : Proc D A) (f : A -> Proc D B) (e : Env D) :
  advance (bind p f) e =
  match advance p e with
  | (Ret a, e') => advance (f a) e'
  | (q, e') => (bind q f, e')
  end.
Proof.
  revert e. induction p as [a|c|X ev k IH|k IH|b r k IH|b r k IH|s v r k IH|s v r k IH];
    intros e; simpl; try reflexivity.
  destruct (handle ev e) as [x e']. apply IH.
Qed.

Lemma trace_handle {X : Type} (ev : localE D X) (e : Env D) :
  trace (snd (handle ev e)) = trace e.
Proof. destruct ev; reflexivity. Qed.

Lemma trace_advance {A : Type} (p : Proc D A) (e : Env D) :
  trace (snd (advance p e)) = trace e.
Proof.
  revert e. induction p as [a|c|X ev k IH|k IH|b r k IH|b r k IH|s v r k IH|s v r k IH];
    intros e; simpl; try reflexivity.
  pose proof (trace_handle ev e) as Hh.
  destruct (handle ev e) as [x e']. simpl in Hh. rewrite IH. exact Hh.
Qed.

Section Rounds.

Variable A : Type.
Variable P : nat.
Hypothesis HP : (1 <= P)%nat.
Variables st st' : nat -> Proc D A * Env D.

Let G := map (fun r => advanced (st r)) (seq 0 P).

Lemma in_ranks r : In r (seq 0 P) <-> (r < P)%nat.
Proof. rewrite in_seq. lia. Qed.

Lemma length_G : length G = P.
Proof. unfold G. rewrite length_map, length_seq. reflexivity. Qed.

Lemma head_G : exists rest, G = advanced (st 0%nat) :: rest.
Proof. unfold G. destruct P as [|P']; [lia|]. simpl. eexists. reflexivity. Qed.

Lemma round_G :
  (forall r, (r < P)%nat -> not_abort (advanced (st r))) ->
  round (map st (seq 0 P)) = collective G (fst (advanced (st 0%nat))).
Proof.
  intros Hna. unfold round. rewrite map_map. fold G.
  unfold G at 1. rewrite find_abort_none by (intros r Hr; apply Hna, in_ranks, Hr).
  destruct head_G as [rest ->]. destruct (advanced (st 0%nat)). reflexivity.
Qed.

Lemma combine_map_self {X Y : Type} (h : X -> Y) (l : list X) :
  combine l (map h l) = map (fun x => (x, h x)) l.
Proof. induction l as [|x l IH]; simpl; [reflexivity | rewrite IH; reflexivity]. Qed.

Lemma ranked_G : ranked G = map (fun r => (r, advanced (st r))) (seq 0 P).
Proof. unfold ranked. rewrite length_G. apply combine_map_self. Qed.

Lemma valid_root_0 : valid_root G 0 = true.
Proof.
  unfold valid_root. rewrite length_G.
  apply andb_true_intro. split; [reflexivity | apply Z.ltb_lt; lia].
Qed.

Lemma nth_error_G_0 : nth_error G 0 = Some (advanced (st 0%nat)).
Proof. destruct head_G as [rest ->]. reflexivity. Qed.

Ltac no_abort Hall :=
  let r := fresh "r" in
  let Hr := fresh "Hr" in
  intros r Hr; specialize (Hall r Hr); unfold not_abort;
  destruct (advanced (st r)) as [[] ?]; simpl in *; try exact I; discriminate.

Lemma round_barrier :
  (forall r, (r < P)%nat -> at_barrier (advanced (st r)) = Some (st' r)) ->
  round (map st (seq 0 P)) = Continue (map st' (seq 0 P)).
Proof.
  intros Hall. rewrite round_G by no_abort Hall.
  pose proof (Hall 0%nat HP) as H0.
  destruct (advanced (st 0%nat)) as [[] e]; simpl in H0; try discriminate.
  cbn [fst collective]. unfold G.
  rewrite (traverse_map at_barrier _ st'); [reflexivity|].
  intros r Hr. apply Hall, in_ranks, Hr.
Qed.

Lemma round_bcast_int (v : Z) :
  bcast_int_buf (advanced (st 0%nat)) = Some v ->
  (forall r, (r < P)%nat -> at_bcast_int 0 v (advanced (st r)) = Some (st' r)) ->
  round (map st (seq 0 P)) = Continue (map st' (seq 0 P)).
Proof.
  intros Hv Hall. rewrite round_G by no_abort Hall.
  pose proof (Hall 0%nat HP) as H0. pose proof nth_error_G_0 as Hn.
  destruct (advanced (st 0%nat)) as [[] e]; simpl in H0, Hv; try discriminate.
  destruct (Z.eqb_spec root 0) as [->|]; [|discriminate].
  cbn [fst collective]. rewrite valid_root_0. cbn [Z.to_nat]. rewrite Hn.
  cbn [option_bind bcast_int_buf]. injection Hv as ->. unfold G.
  rewrite (traverse_map (at_bcast_int 0 v) _ st'); [reflexivity|].
  intros r Hr. apply Hall, in_ranks, Hr.
Qed.

Lemma round_bcast_double (v : D) :
  bcast_double_buf (advanced (st 0%nat)) = Some v ->
  (forall r, (r < P)%nat -> at_bcast_double 0 v (advanced (st r)) = Some (st' r)) ->
  round (map st (seq 0 P)) = Continue (map st' (seq 0 P)).
Proof.
  intros Hv Hall. rewrite round_G by no_abort Hall.
  pose proof (Hall 0%nat HP) as H0. pose proof nth_error_G_0 as Hn.
  destruct (advanced (st 0%nat)) as [[] e]; simpl in H0, Hv; try discriminate.
  destruct (Z.eqb_spec root 0) as [->|]; [|discriminate].
  cbn [fst collective]. rewrite valid_root_0. cbn [Z.to_nat]. rewrite Hn.
  cbn [option_bind bcast_double_buf]. injection Hv as ->. unfold G.
  rewrite (traverse_map (at_bcast_double 0 v) _ st'); [reflexivity|].
  intros r Hr. apply Hall, in_ranks, Hr.
Qed.

Lemma round_reduce_double (send : nat -> D) :
  (forall r, (r < P)%nat -> reduce_double_send (advanced (st r)) = Some (send r)) ->
  (forall r, (r < P)%nat ->
     at_reduce_double 0 (reduce_tree dadd (dlit 0) (schedule P) (map send (seq 0 P)))
       (r, advanced (st r)) = Some (st' r)) ->
  round (map st (seq 0 P)) = Continue (map st' (seq 0 P)).
Proof.
  intros Hsend Hall. rewrite round_G by no_abort Hall.
  pose proof (Hall 0%nat HP) as H0.
  destruct (advanced (st 0%nat)) as [[] e]; simpl in H0; try discriminate.
  destruct (Z.eqb_spec root 0) as [->|]; [|discriminate].
  cbn [fst collective]. rewrite valid_root_0, ranked_G, length_G. unfold G.
  rewrite (traverse_map reduce_double_send _ send)
    by (intros r Hr; apply Hsend, in_ranks, Hr).
  cbn [option_bind].
  rewrite (traverse_map _ (fun r => (r, advanced (st r))) st'); [reflexivity|].
  intros r Hr. apply Hall, in_ranks, Hr.
Qed.

Lemma round_reduce_int (send : nat -> Z) :
  (forall r, (r < P)%nat -> reduce_int_send (advanced (st r)) = Some (send r)) ->
  (forall r, (r < P)%nat ->
     at_reduce_int 0 (reduce_tree CInt.add 0 (schedule P) (map send (seq 0 P)))
       (r, advanced (st r)) = Some (st' r)) ->
  round (map st (seq 0 P)) = Continue (map st' (seq 0 P)).
Proof.
  intros Hsend Hall. rewrite round_G by no_abort Hall.
  pose proof (Hall 0%nat HP) as H0.
  destruct (advanced (st 0%nat)) as [[] e]; simpl in H0; try discriminate.
  destruct (Z.eqb_spec root 0) as [->|]; [|discriminate].
  cbn [fst collective]. rewrite valid_root_0, ranked_G, length_G. unfold G.
  rewrite (traverse_map reduce_int_send _ send)
    by (intros r Hr; apply Hsend, in_ranks, Hr).
  cbn [option_bind].
  rewrite (traverse_map _ (fun r => (r, advanced (st r))) st'); [reflexivity|].
  intros r Hr. apply Hall, in_ranks, Hr.
Qed.

Lemma round_finished (res : nat -> A * Env D) :
  (forall r, (r < P)%nat -> at_ret (advanced (st r)) = Some (res r)) ->
  round (map st (seq 0 P)) = Halt (Finished (map res (seq 0 P))).
Proof.
  intros Hall. rewrite round_G by no_abort Hall.
  pose proof (Hall 0%nat HP) as H0.
  destruct (advanced (st 0%nat)) as [[] e]; simpl in H0; try discriminate.
  cbn [fst collective]. unfold G.
  rewrite (traverse_map at_ret _ res); [reflexivity|].
  intros r Hr. apply Hall, in_ranks, Hr.
Qed.

Lemma round_aborted (code : Z) (e : Env D) :
  advanced (st 0%nat) = (Abort code, e) ->
  round (map st (seq 0 P)) = Halt (Aborted code G).
Proof.
  intros H0. unfold round. rewrite map_map. fold G.
  destruct head_G as [rest HG]. rewrite HG at 1. rewrite H0. reflexivity.
Qed.

End Rounds.

Lemma run_continue {A : Type} (n : nat) (g g' : Group D A) :
  round g = Continue g' -> run (S n) g = run n g'.
Proof. intros Hr. simpl. rewrite Hr. reflexivity. Qed.

Lemma run_halt {A : Type} (n : nat) (g : Group D A) (o : Outcome D A) :
  round g = Halt o -> run (S n) g = o.
Proof. intros Hr. simpl. rewrite Hr. reflexivity. Qed.

Lemma run_more_fuel {A : Type} (n m : nat) (g : Group D A) :
  settled (run n g) -> run (n + m) g = run n g.
Proof.
  revert g. induction n as [|n IH]; intros g Hs.
  - simpl in Hs. contradiction.
  - simpl in *. destruct (round g) as [g'|o]; [apply IH; exact Hs | reflexivity].
Qed.

Lemma advance_idem {A : Type} (p : Proc D A) (e : Env D) :
  advanced (advance p e) = advance p e.
Proof.
  revert e. induction p as [a|c|X ev k IH|k IH|b r k IH|b r k IH|s v r k IH|s v r k IH];
    intros e; try reflexivity.
  simpl. destruct (handle ev e) as [x e']. apply IH.
Qed.

Lemma round_pre_advance {A X : Type} (st st2 : X -> Proc D A * Env D) (l : list X) :
  (forall r, In r l -> advanced (st r) = st2 r) ->
  round (map st l) = round (map st2 l).
Proof.
  intros Hst. unfold round. rewrite !map_map.
  rewrite (map_ext_in (fun r => advanced (st2 r)) (fun r => advanced (st r))); [reflexivity|].
  intros r Hr. rewrite <- (Hst r Hr). destruct (st r) as [p e]. apply advance_idem.
Qed.

Lemma run_same_advance {A X : Type} (n : nat) (st st2 : X -> Proc D A * Env D) (l : list X) :
  (1 <= n)%nat ->
  (forall r, In r l -> advanced (st r) = advanced (st2 r)) ->
  run n (map st l) = run n (map st2 l).
Proof.
  intros Hn Hst. destruct n as [|n]; [lia|]. simpl.
  rewrite (round_pre_advance st (fun r => advanced (st r)) l) by reflexivity.
  rewrite (round_pre_advance st2 (fun r => advanced (st r)) l)
    by (intros r Hr; symmetry; apply Hst, Hr).
  reflexivity.
Qed.


Lemma print_print (l1 l2 : list (Item D)) (e : Env D) :
  print l2 (print l1 e) = print (l1 ++ l2) e.
Proof. destruct e. cbn. rewrite app_assoc. reflexivity. Qed.

Lemma prints_only_ret : prints_only (D:=D) (Ret tt).
Proof.
  intros e. destruct e. cbn. rewrite app_nil_r. reflexivity.
Qed.

Lemma prints_only_cout (l : list (Item D)) : prints_only (call (cout l)).
Proof. intros e. reflexivity. Qed.

Lemma prints_only_bind (p : Proc D unit) (q : unit -> Proc D unit) :
  prints_only p -> (forall x, prints_only (q x)) -> prints_only (bind p q).
Proof.
  intros Hp Hq e. unfold output_of. rewrite !advance_bind, !Hp, !Hq. cbn [snd].
  rewrite !print_print. reflexivity.
Qed.

Lemma prints_only_Local_cout (l : list (Item D)) (k : unit -> Proc D unit) :
  (forall x, prints_only (k x)) -> prints_only (Local (cout l) k).
Proof.
  intros Hk. change (Local (cout l) k) with (bind (call (cout l)) k).
  apply prints_only_bind; [apply prints_only_cout | exact Hk].
Qed.

Lemma prints_only_when (b : bool) (p : Proc D unit) : prints_only p -> prints_only (when b p).
Proof. intros Hp. destruct b; [exact Hp | apply prints_only_ret]. Qed.

Lemma prints_only_if (b : bool) (p q : Proc D unit) :
  prints_only p -> prints_only q -> prints_only (if b then p else q).
Proof. intros Hp Hq. destruct b; assumption. Qed.

Lemma prints_only_for_loop (n : nat) (i : Z) (body : Z -> Proc D unit) :
  (forall j, prints_only (body j)) -> prints_only (for_loop n i body).
Proof.
  intros Hb. revert i. induction n as [|n IH]; intros i.
  - apply prints_only_ret.
  - cbn [for_loop]. apply prints_only_bind; [apply Hb | intros _; apply IH].
Qed.

Lemma after_loop_step (m : nat) (o out : list (Item D)) (e : Env D) :
  after_loop m out (record CBarrier (print o e)) = after_loop (S m) (o ++ out) e.
Proof.
  destruct e. cbn. rewrite <- !app_assoc. reflexivity.
Qed.

Lemma run_barrier_loop {A : Type} (P : nat) (HP : (1 <= P)%nat) (m : nat) :
  forall (i : Z) (n : nat) (q : nat -> Z -> Proc D unit) (k : nat -> Proc D A)
         (e : nat -> Env D),
  (forall r j, prints_only (q r j)) ->
  run (m + n)
      (map (fun r => (for_loop m i (fun j => q r j ;; MPI_Barrier) ;; k r, e r)) (seq 0 P))
  = run n (map (fun r => (k r, after_loop m (loop_out m i (q r)) (e r))) (seq 0 P)).
Proof.
  induction m as [|m IH]; intros i n q k e Hq.
  - cbn [for_loop bind loop_out Nat.add]. f_equal. apply map_ext. intros r.
    destruct (e r). cbn. rewrite !app_nil_r. reflexivity.
  - change (S m + n)%nat with (S (m + n)).
    erewrite run_continue.
    2:{ apply round_barrier with
          (st' := fun r => (for_loop m (i + 1) (fun j => q r j ;; MPI_Barrier) ;; k r,
                            record CBarrier (print (output_of (q r i)) (e r)))); [exact HP|].
        intros r Hr. unfold advanced. cbn [fst snd for_loop].
        rewrite !advance_bind, Hq. reflexivity. }
    rewrite (IH (i + 1) n q k _ Hq). f_equal. apply map_ext. intros r.
    rewrite after_loop_step. reflexivity.
Qed.

End Execution.


(** * Combination orders

    Whatever the order, a reduction with an associative and commutative
    operation gives the plain sum of the contributions. *)

Section Reduce.

Variable V : Type.
Variable op : V -> V -> V.
Variable zero : V.

Hypothesis op_assoc : forall a b c, op a (op b c) = op (op a b) c.
Hypothesis op_comm : forall a b, op a b = op b a.
Hypothesis op_zero : forall a, op zero a = a.

Lemma fold_left_op (l : list V) (a : V) :
  fold_left op l a = op a (fold_left op l zero).
Proof.
  revert a. induction l as [|x l IH]; intros a; simpl.
  - rewrite op_comm, op_zero. reflexivity.
  - rewrite IH, (IH (op zero x)), op_zero, op_assoc. reflexivity.
Qed.

Lemma fold_left_op_app (l1 l2 : list V) :
  fold_left op (l1 ++ l2) zero = op (fold_left op l1 zero) (fold_left op l2 zero).
Proof. rewrite fold_left_app, fold_left_op. reflexivity. Qed.

Lemma fold_left_op_perm (l l' : list V) :
  Permutation l l' -> forall a, fold_left op l a = fold_left op l' a.
Proof.
  induction 1 as [|x l l' _ IH|x y l|l l' l'' _ IH1 _ IH2]; intros a; simpl.
  - reflexivity.
  - apply IH.
  - f_equal. rewrite <- !op_assoc, (op_comm y x). reflexivity.
  - rewrite IH1. apply IH2.
Qed.

Lemma reduce_tree_leaves (dflt : V) (t : RTree) (contrib : list V) :
  reduce_tree op dflt t contrib
  = fold_left op (map (fun r => nth r contrib dflt) (leaves t)) zero.
Proof.
  induction t as [r|l IHl r IHr]; simpl.
  - rewrite op_zero. reflexivity.
  - rewrite map_app, fold_left_op_app, IHl, IHr. reflexivity.
Qed.

End Reduce.

Lemma nth_map_seq {V : Type} (f : nat -> V) (dflt : V) (P r : nat) :
  (r < P)%nat -> nth r (map f (seq 0 P)) dflt = f r.
Proof.
  intros Hr. rewrite (nth_indep _ dflt (f 0%nat)) by (rewrite length_map, length_seq; exact Hr).
  rewrite map_nth, seq_nth by exact Hr. reflexivity.
Qed.

Lemma reduce_tree_valid {V : Type} (op : V -> V -> V) (zero dflt : V) {mpi : MPILib}
      (f : nat -> V) (P : nat) :
  (forall a b c, op a (op b c) = op (op a b) c) ->
  (forall a b, op a b = op b a) ->
  (forall a, op zero a = a) ->
  schedule_valid -> (1 <= P)%nat ->
  reduce_tree op dflt (schedule P) (map f (seq 0 P)) = fold_left op (map f (seq 0 P)) zero.
Proof.
  intros Ha Hc Hz Hv HP.
  rewrite (reduce_tree_leaves op zero Ha Hc Hz).
  rewrite (fold_left_op_perm op Ha Hc
             (Permutation_map (fun r => nth r (map f (seq 0 P)) dflt) (Hv P HP))).
  f_equal. apply map_ext_in. intros r Hr. apply nth_map_seq. apply in_seq in Hr. lia.
Qed.

Lemma leaves_linear_from (n : nat) : forall (acc : RTree) (r : nat),
  leaves (linear_from n acc r) = leaves acc ++ seq r n.
Proof.
  induction n as [|n IH]; intros acc r; simpl.
  - rewrite app_nil_r. reflexivity.
  - rewrite IH. simpl. rewrite <- app_assoc. reflexivity.
Qed.

Lemma linear_valid : schedule_valid (mpi := linear).
Proof.
  intros P HP. simpl. rewrite leaves_linear_from. simpl.
  destruct P as [|P]; [lia|]. simpl. rewrite Nat.sub_0_r. apply Permutation_refl.
Qed.

(** * Arithmetic of [int] *)

Lemma wrap_in_range (z : Z) : CInt.in_range z -> CInt.wrap z = z.
Proof.
  unfold CInt.in_range, CInt.INT_MIN, CInt.INT_MAX, CInt.wrap. intros Hz.
  rewrite Z.mod_small by lia. lia.
Qed.

Lemma clamp_in_range (z : Z) : CInt.in_range z -> CInt.clamp z = z.
Proof. unfold CInt.in_range, CInt.clamp. lia. Qed.

Lemma clamp_nonpositive (z : Z) : z <= 0 -> CInt.clamp z <= 0.
Proof. unfold CInt.clamp, CInt.INT_MIN, CInt.INT_MAX. lia. Qed.

Lemma wrap_range (z : Z) : CInt.in_range (CInt.wrap z).
Proof.
  unfold CInt.in_range, CInt.INT_MIN, CInt.INT_MAX, CInt.wrap.
  pose proof (Z.mod_pos_bound (z + 2147483648) 4294967296 ltac:(lia)). lia.
Qed.

Lemma wrap_add_wrap (a b : Z) : CInt.wrap (CInt.wrap a + CInt.wrap b) = CInt.wrap (a + b).
Proof.
  unfold CInt.wrap. f_equal.
  replace ((a + 2147483648) mod 4294967296 - 2147483648 +
           ((b + 2147483648) mod 4294967296 - 2147483648) + 2147483648)
    with ((a + 2147483648) mod 4294967296 +
          ((b + 2147483648) mod 4294967296 + - 2147483648)) by lia.
  rewrite Z.add_mod_idemp_l by lia.
  replace (a + 2147483648 + ((b + 2147483648) mod 4294967296 + - 2147483648))
    with ((b + 2147483648) mod 4294967296 + a) by lia.
  rewrite Z.add_mod_idemp_l by lia. f_equal. lia.
Qed.

(** The plain sum of a list of integers. *)
Definition Zsum (l : list Z) : Z := fold_right Z.add 0 l.

Lemma Zsum_app (l1 l2 : list Z) : Zsum (l1 ++ l2) = Zsum l1 + Zsum l2.
Proof. induction l1 as [|x l1 IH]; simpl; [reflexivity | rewrite IH; lia]. Qed.

Lemma Zsum_perm (l l' : list Z) : Permutation l l' -> Zsum l = Zsum l'.
Proof. induction 1; simpl; lia. Qed.

(** A reduction of [int]s wraps around once, whatever the order. *)
Lemma reduce_tree_int (t : RTree) (contrib : list Z) :
  (forall r, In r (leaves t) -> CInt.in_range (nth r contrib 0)) ->
  reduce_tree CInt.add 0 t contrib
  = CInt.wrap (Zsum (map (fun r => nth r contrib 0) (leaves t))).
Proof.
  induction t as [r|l IHl r IHr]; intros Hin; simpl.
  - rewrite Z.add_0_r, wrap_in_range; [reflexivity|]. apply Hin. left. reflexivity.
  - rewrite IHl, IHr by (intros x Hx; apply Hin; simpl; apply in_or_app; auto).
    unfold CInt.add. rewrite wrap_add_wrap, map_app, Zsum_app. reflexivity.
Qed.

Lemma reduce_int_valid {mpi : MPILib} (f : nat -> Z) (P : nat) :
  schedule_valid -> (1 <= P)%nat ->
  (forall r, (r < P)%nat -> CInt.in_range (f r)) ->
  reduce_tree CInt.add 0 (schedule P) (map f (seq 0 P))
  = CInt.wrap (Zsum (map f (seq 0 P))).
Proof.
  intros Hv HP Hf.
  assert (Hl : forall r, In r (leaves (schedule P)) -> (r < P)%nat).
  { intros r Hr. apply (Permutation_in _ (Hv P HP)) in Hr. apply in_seq in Hr. lia. }
  rewrite reduce_tree_int.
  - f_equal.
    rewrite (Zsum_perm (Permutation_map (fun r => nth r (map f (seq 0 P)) 0) (Hv P HP))).
    f_equal. apply map_ext_in. intros r Hr. apply nth_map_seq. apply in_seq in Hr. lia.
  - intros r Hr. rewrite nth_map_seq by (apply Hl, Hr). apply Hf, Hl, Hr.
Qed.

(** The triangular number [1 + 2 + ... + P]. *)
Lemma Zsum_ranks_plus_1 (P : nat) :
  2 * Zsum (map (fun r => Z.of_nat r + 1) (seq 0 P)) = Z.of_nat P * (Z.of_nat P + 1).
Proof.
  induction P as [|P IH].
  - reflexivity.
  - rewrite seq_S, map_app, Zsum_app. simpl Zsum. lia.
Qed.

Lemma Zsum_verdicts_bound (verdict : nat -> bool) (l : list nat) :
  0 <= Zsum (map (fun r => if verdict r then 1 else 0) l) <= Z.of_nat (length l).
Proof.
  induction l as [|r l IH]; simpl Zsum; simpl length.
  - lia.
  - destruct (verdict r); lia.
Qed.

Lemma Zsum_verdicts_all (verdict : nat -> bool) (l : list nat) :
  Zsum (map (fun r => if verdict r then 1 else 0) l) = Z.of_nat (length l)
  <-> (forall r, In r l -> verdict r = true).
Proof.
  induction l as [|r l IH]; simpl Zsum; simpl length.
  - split; [intros _ r [] | reflexivity].
  - pose proof (Zsum_verdicts_bound verdict l) as Hb.
    destruct (verdict r) eqn:Hr; split.
    + intros Hs x [<-|Hx]; [exact Hr | apply IH; [lia | exact Hx]].
    + intros Hall. rewrite (proj2 IH) by (intros x Hx; apply Hall; right; exact Hx). lia.
    + intros Hs. lia.
    + intros Hall. specialize (Hall r (or_introl eq_refl)). congruence.
Qed.

(** * Calls that a process completes on its own *)

Section LocalCalls.

Context {D : Type} {dops : DoubleOps D}.

(** What [getMemoryUsage] of [src/analysis.cpp] returns. *)
Definition memory_of (s : Sys) : Z :=
  match ru_maxrss s with
  | Some m => m
  | None => -1
  end.

Lemma advance_getMemoryUsage {A : Type} (k : Z -> Proc D A) (e : Env D) :
  advance (bind analysis_cpp.getMemoryUsage k) e = advance (k (memory_of (sys e))) e.
Proof.
  unfold analysis_cpp.getMemoryUsage, memory_of. cbn [bind call advance handle].
  destruct (ru_maxrss (sys e)); reflexivity.
Qed.

Lemma advance_if_cout (b : bool) (l1 l2 : list (Item D)) (e : Env D) :
  advance (if b then call (cout l1) else call (cout l2)) e
  = (Ret tt, print (if b then l1 else l2) e).
Proof. destruct b; reflexivity. Qed.

Lemma advance_if_prints {A : Type} (b : bool) (p q : Proc D unit) (k : unit -> Proc D A)
      (e : Env D) :
  prints_only p -> prints_only q ->
  advance (bind (if b then p else q) k) e
  = advance (k tt) (print (if b then output_of p else output_of q) e).
Proof.
  intros Hp Hq. rewrite advance_bind. destruct b; [rewrite Hp | rewrite Hq]; reflexivity.
Qed.

Lemma advance_if_prints_then {A B : Type} (b : bool) (p q : Proc D unit)
      (k1 : unit -> Proc D A) (k2 : A -> Proc D B) (e : Env D) :
  prints_only p -> prints_only q ->
  advance (bind (bind (if b then p else q) k1) k2) e
  = advance (bind (k1 tt) k2) (print (if b then output_of p else output_of q) e).
Proof.
  intros Hp Hq. rewrite advance_bind, advance_if_prints by assumption.
  rewrite <- advance_bind. reflexivity.
Qed.

End LocalCalls.

Ltac prints_only_solver :=
  repeat first [ apply prints_only_cout
               | apply prints_only_ret
               | apply prints_only_Local_cout; intros _
               | apply prints_only_bind; [|intros _]
               | apply prints_only_when
               | apply prints_only_if
               | apply prints_only_for_loop; intros ? ].

(** * Symbolic execution of a group *)

Ltac simp_state :=
  cbn [advanced advance bind handle call fst snd my_rank group_size clock ticks sys
       ru_maxrss nprocessors_onln pagesize
       stdin stdout stderr trace tick consume print eprint record world after_loop hd tl
       MPI_Barrier MPI_Bcast_int MPI_Bcast_double MPI_Reduce_sum_double
       MPI_Reduce_sum_int MPI_Abort when at_barrier at_ret at_bcast_int at_bcast_double
       at_reduce_double at_reduce_int bcast_int_buf bcast_double_buf reduce_double_send
       reduce_int_send Nat.eqb app for_loop for_each].

Lemma rank_is_0 (r : nat) : (Z.of_nat r =? 0) = true -> Nat.eqb r 0 = true.
Proof. intros E. apply Z.eqb_eq in E. apply Nat.eqb_eq. lia. Qed.

Lemma rank_not_0 (r : nat) : (Z.of_nat r =? 0) = false -> Nat.eqb r 0 = false.
Proof. intros E. apply Z.eqb_neq in E. apply Nat.eqb_neq. lia. Qed.

(** Rewriting steps for the calls of a program that [simp_state] leaves alone. *)
Ltac local_calls :=
  rewrite ?advance_getMemoryUsage, ?advance_if_cout;
  rewrite ?advance_if_prints_then by prints_only_solver;
  rewrite ?advance_if_prints by prints_only_solver;
  cbn [output_of blank];
  cbn [advanced advance bind handle call fst snd my_rank group_size clock ticks sys
       stdin stdout stderr trace tick consume print eprint record app].

(** The two cases of a rank: the coordinator and the others. *)
Ltac rank0 r :=
  let E := fresh "E" in
  let E0 := fresh "E0" in
  destruct (Z.of_nat r =? 0) eqn:E;
  [ pose proof (rank_is_0 r E) as E0 | pose proof (rank_not_0 r E) as E0 ];
  simp_state; rewrite ?E, ?E0; simp_state; local_calls.

Ltac at_rank0 := simp_state; change (Z.of_nat 0 =? 0) with true; simp_state; local_calls.

Ltac each_rank :=
  let r := fresh "r" in
  let Hr := fresh "Hr" in
  intros r Hr; rank0 r; rewrite ?Z.eqb_refl; try reflexivity.

Ltac step_barrier HP :=
  erewrite run_continue;
  [ | eapply round_barrier with (st' := fun r => if Z.of_nat r =? 0 then _ else _);
      [ exact HP | each_rank ] ].

Ltac step_reduce_double HP :=
  erewrite run_continue;
  [ | eapply round_reduce_double with (st' := fun r => if Z.of_nat r =? 0 then _ else _);
      [ exact HP | each_rank | each_rank ] ].

Ltac step_reduce_int HP :=
  erewrite run_continue;
  [ | eapply round_reduce_int with (st' := fun r => if Z.of_nat r =? 0 then _ else _);
      [ exact HP | each_rank | each_rank ] ].

Ltac step_bcast_double HP :=
  erewrite run_continue;
  [ | eapply round_bcast_double with (st' := fun r => if Z.of_nat r =? 0 then _ else _);
      [ exact HP | at_rank0; reflexivity | each_rank ] ].

Ltac step_bcast_int HP :=
  erewrite run_continue;
  [ | eapply round_bcast_int with (st' := fun r => if Z.of_nat r =? 0 then _ else _);
      [ exact HP | at_rank0; reflexivity | each_rank ] ].

Ltac step_finished HP :=
  erewrite run_halt;
  [ reflexivity | eapply round_finished; [ exact HP | each_rank ] ].

(** * [src/main.cpp]: the run of [main] *)

Section MainCpp.

Context {D : Type} {dops : DoubleOps D} {rnd : RandomLib D} {mpi : MPILib}.
Import main_cpp.

Lemma prints_only_imprimirInfoProceso rank valores sumaParcial :
  prints_only (imprimirInfoProceso (D:=D) rank valores sumaParcial).
Proof.
  unfold imprimirInfoProceso.
  repeat first [ apply prints_only_bind; [|intros _] | apply prints_only_cout
               | apply prints_only_when | apply prints_only_for_loop; intros ? ].
Qed.

(** What the reduction of [main] delivers at rank 0. *)
Definition main_total (P : nat) (N : Z) : D :=
  reduce_tree dadd (dlit 0) (schedule P)
    (map (fun r => calcularSumaParcial (generarValoresAleatorios N (Z.of_nat r))) (seq 0 P)).

Definition main_vars (P : nat) (N : Z) (r : nat) : MainVars D :=
  let valores := generarValoresAleatorios N (Z.of_nat r) in
  mkMainVars N valores (calcularSumaParcial valores)
    (if Z.of_nat r =? 0 then main_total P N else dlit 0)
    (ddiv (main_total P N) (dofint (CInt.mul N (Z.of_nat P)))).

Definition main_trace (P : nat) (N : Z) (r : nat) : list (Call D) :=
  [CBarrier; CBcastInt 0 N] ++ repeat CBarrier P ++
  [CBarrier;
   CReduceDouble 0 (mv_sumaParcial (main_vars P N r)) (mv_sumaTotal (main_vars P N r));
   CBcastDouble 0 (mv_promedioFinal (main_vars P N r))] ++ repeat CBarrier P ++ [CBarrier].

Definition main_fuel (P : nat) : nat := 2 * P + 7.

Lemma main_run_exact (P : nat) (N : Z) (rest : list Z) clk os :
  (1 <= P)%nat -> 0 < N <= CInt.INT_MAX ->
  exists envs,
  run (S (S (P + S (S (S (P + S (S O)))))))
      (mpirun P main (world P clk os (N :: rest)))
  = Finished (map (fun r => ((0, main_vars P N r), envs r)) (seq 0 P)) /\
  forall r, (r < P)%nat -> trace (envs r) = main_trace P N r.
Proof.
  intros HP HN.
  eexists (fun r => if Z.of_nat r =? 0 then _ else _). unfold mpirun.
  assert (HN' : (N <=? 0) = false) by (apply Z.leb_gt; lia).
  assert (Hc : CInt.clamp N = N).
  { apply clamp_in_range. unfold CInt.in_range, CInt.INT_MIN. lia. }
  split.
  - erewrite run_continue.
    2:{ eapply round_barrier; [exact HP|]. intros r Hr. unfold main. simp_state. reflexivity. }
    erewrite run_continue.
    2:{ eapply round_bcast_int with (v := N) (st' := fun r => if Z.of_nat r =? 0 then _ else _);
          [exact HP| |].
        - at_rank0. rewrite Hc, HN'. simp_state. reflexivity.
        - intros r Hr. rank0 r; rewrite ?Hc, ?HN'; simp_state; rewrite Z.eqb_refl; reflexivity. }
    erewrite run_same_advance with
      (st2 := fun r =>
         (for_loop P 0 (fun j => when (Z.of_nat r =? j) _ ;; MPI_Barrier) ;;
          (if Z.of_nat r =? 0 then _ else _),
          if Z.of_nat r =? 0 then _ else _)); [|lia|].
    2:{ intros r Hr. rank0 r; rewrite Nat2Z.id; reflexivity. }
    rewrite run_barrier_loop;
      [|exact HP|intros r j; apply prints_only_when, prints_only_imprimirInfoProceso].
    step_barrier HP.
    step_reduce_double HP.
    fold (main_total P N).
    step_bcast_double HP.
    erewrite run_same_advance with
      (st2 := fun r =>
         (for_loop P 0
            (fun j => when (Z.of_nat r =? j) (if Z.of_nat r =? 0 then _ else _) ;;
                      MPI_Barrier) ;;
          (if Z.of_nat r =? 0 then _ else _),
          if Z.of_nat r =? 0 then _ else _)); [|lia|].
    2:{ intros r Hr. rank0 r; reflexivity. }
    rewrite run_barrier_loop; [|exact HP|].
    2:{ intros r j. apply prints_only_when.
        destruct (Z.of_nat r =? 0);
          (apply prints_only_Local_cout; intros _; apply prints_only_cout). }
    step_barrier HP.
    erewrite run_halt; [reflexivity|].
    eapply round_finished; [exact HP|].
    intros r Hr. unfold main_vars. rank0 r; reflexivity.
  - intros r Hr. unfold main_trace, main_vars.
    cbn [mv_sumaParcial mv_sumaTotal mv_promedioFinal].
    destruct (Z.of_nat r =? 0) eqn:E;
      cbn [trace]; rewrite <- ?app_assoc; cbn [app]; reflexivity.
Qed.

Lemma main_run (P : nat) (N : Z) (rest : list Z) clk os (fuel : nat) :
  (1 <= P)%nat -> 0 < N <= CInt.INT_MAX -> (main_fuel P <= fuel)%nat ->
  exists envs,
  run fuel (mpirun P main (world P clk os (N :: rest)))
  = Finished (map (fun r => ((0, main_vars P N r), envs r)) (seq 0 P)) /\
  forall r, (r < P)%nat -> trace (envs r) = main_trace P N r.
Proof.
  intros HP HN Hf.
  destruct (main_run_exact rest clk os HP HN) as (envs & Hrun & Htr).
  exists envs. split; [|exact Htr].
  replace fuel with (S (S (P + S (S (S (P + S (S O)))))) + (fuel - main_fuel P))%nat
    by (unfold main_fuel in *; lia).
  rewrite run_more_fuel; [exact Hrun|]. rewrite Hrun. exact I.
Qed.

End MainCpp.

(** * [src/analysis.cpp]: the runs of the analyses *)

Section AnalysisCpp.

Context {D : Type} {dops : DoubleOps D} {rnd : RandomLib D} {mpi : MPILib}.
Import analysis_cpp.

(** The data of rank [r] in [strongScalingAnalysis]. *)
Definition strong_data (N : Z) (P r : nat) : list D :=
  generar (Z.to_nat (elementsPerProc N (Z.of_nat P))) (mt19937 (CInt.add (Z.of_nat r) 42)).

Definition strong_total (N : Z) (P : nat) : D :=
  reduce_tree dadd (dlit 0) (schedule P) (map (fun r => sumar (strong_data N P r)) (seq 0 P)).

(** What rank 0 prints in [strongScalingAnalysis]. *)
Definition strong_output (N : Z) (P : nat) (clk0 : nat -> D) (os0 : Sys) : list (Item D) :=
  [Str "=== ANÁLISIS DE ESCALABILIDAD FUERTE ==="; Endl;
   Str "Tamaño total del problema: "; Int N; Str " elementos"; Endl; Endl;
   Str "Procesos: "; Int (Z.of_nat P); Str " | ";
   Str "Tiempo: "; Fixed; SetPrecision 2;
   Dbl (dmul (dsub (clk0 1%nat) (clk0 0%nat)) (dlit 1e6)); Str " μs | ";
   Str "Memoria: "; Int (memory_of os0); Str " KB | ";
   Str "Promedio: "; Fixed; SetPrecision 4; Dbl (ddiv (strong_total N P) (dofint N)); Endl].

Lemma strongScalingAnalysis_run (P : nat) (N maxProcs : Z) clk os input :
  (1 <= P)%nat ->
  exists envs,
  run 2 (spmd P (strongScalingAnalysis N maxProcs) (world P clk os input))
  = Finished (map (fun r => (tt, envs r)) (seq 0 P)) /\
  (forall r, (r < P)%nat ->
     trace (envs r) =
     [CReduceDouble 0 (sumar (strong_data N P r))
        (if Z.of_nat r =? 0 then strong_total N P else dlit 0)]) /\
  stdout (envs 0%nat) = strong_output N P (clk 0%nat) (os 0%nat).
Proof.
  intros HP.
  eexists (fun r => if Z.of_nat r =? 0 then _ else _). unfold spmd. split; [|split].
  - unfold strongScalingAnalysis.
    step_reduce_double HP.
    step_finished HP.
  - intros r Hr. unfold strong_total, strong_data. destruct (Z.of_nat r =? 0); reflexivity.
  - reflexivity.
Qed.

(** The data of rank [r] in Test 1 and in Test 2 of [robustnessTest]. *)
Definition largeData (r : nat) : list D :=
  generar (Z.to_nat 1000000) (mt19937 (CInt.add (Z.of_nat r) 42)).

Definition test2_data (r : nat) : list D :=
  generar (Z.to_nat 1000) (mt19937 (CInt.add (Z.of_nat r) 42)).

Definition test1_total (P : nat) : D :=
  reduce_tree dadd (dlit 0) (schedule P) (map (fun r => sumar (largeData r)) (seq 0 P)).

Definition test2_total (P : nat) : D :=
  reduce_tree dadd (dlit 0) (schedule P) (map (fun r => sumar (test2_data r)) (seq 0 P)).

Definition test3_total (P : nat) : Z :=
  reduce_tree CInt.add 0 (schedule P) (map (fun r => CInt.add (Z.of_nat r) 1) (seq 0 P)).

(** One iteration of Test 2, as rank [r] sees it. *)
Definition test2_round (P r : nat) : list (Call D) :=
  [CReduceDouble 0 (sumar (test2_data r)) (if Z.of_nat r =? 0 then test2_total P else dlit 0);
   CBcastDouble 0 (test2_total P)].

Definition robustness_trace (P r : nat) : list (Call D) :=
  [CReduceDouble 0 (sumar (largeData r)) (if Z.of_nat r =? 0 then test1_total P else dlit 0)]
  ++ concat (repeat (test2_round P r) 10)
  ++ [CReduceInt 0 (CInt.add (Z.of_nat r) 1) (if Z.of_nat r =? 0 then test3_total P else 0)].

Lemma robustnessTest_run (P : nat) clk os input :
  (1 <= P)%nat ->
  exists envs,
  run 23 (spmd P robustnessTest (world P clk os input))
  = Finished (map (fun r => (tt, envs r)) (seq 0 P)) /\
  (forall r, (r < P)%nat -> trace (envs r) = robustness_trace P r).
Proof.
  intros HP.
  eexists (fun r => if Z.of_nat r =? 0 then _ else _). unfold spmd. split.
  - unfold robustnessTest, robustnessTest_1, robustnessTest_2, robustnessTest_3.
    step_reduce_double HP. fold (test1_total P).
    do 10 (step_reduce_double HP; fold (test2_total P); step_bcast_double HP).
    step_reduce_int HP. fold (test3_total P).
    step_finished HP.
  - intros r Hr. unfold robustness_trace, test2_round.
    destruct (Z.of_nat r =? 0); reflexivity.
Qed.
End AnalysisCpp.

(** * [src/test.cpp]: the runs of the tests *)

Section TestCpp.

Context {D : Type} {dops : DoubleOps D} {rnd : RandomLib D} {mpi : MPILib}.
Import test_cpp.

Lemma testBroadcast_run (P : nat) clk os input :
  (1 <= P)%nat ->
  exists envs,
  run 2 (spmd P testBroadcast (world P clk os input))
  = Finished (map (fun r => (true, envs r)) (seq 0 P)) /\
  (forall r, (r < P)%nat -> trace (envs r) = [CBcastInt 0 42]).
Proof.
  intros HP.
  eexists (fun r => if Z.of_nat r =? 0 then _ else _). unfold spmd. split.
  - unfold testBroadcast.
    step_bcast_int HP.
    step_finished HP.
  - intros r Hr. destruct (Z.of_nat r =? 0); reflexivity.
Qed.

(** The verdicts summed at rank 0 by [main]. *)
Definition verdict_total (P : nat) (verdict : nat -> bool) : Z :=
  reduce_tree CInt.add 0 (schedule P)
    (map (fun r => if verdict r then 1 else 0) (seq 0 P)).

(** The exit code of rank [r]: the receive buffer of [MPI_Reduce] is written at
    rank 0 only and is 0 elsewhere. *)
Definition exit_code (P : nat) (verdict : nat -> bool) (r : nat) : Z :=
  if (if Z.of_nat r =? 0 then verdict_total P verdict else 0) =? Z.of_nat P then 0 else 1.

Lemma resultadosGlobales_run (P : nat) (verdict : nat -> bool) clk os input :
  (1 <= P)%nat ->
  exists envs,
  run 4 (map (fun r => (resultadosGlobales (Z.of_nat r) (Z.of_nat P) (verdict r),
                        world P clk os input r)) (seq 0 P))
  = Finished (map (fun r => (exit_code P verdict r, envs r)) (seq 0 P)).
Proof.
  intros HP.
  eexists (fun r => if Z.of_nat r =? 0 then _ else _).
  unfold resultadosGlobales.
  step_reduce_int HP. fold (verdict_total P verdict).
  step_barrier HP.
  step_barrier HP.
  unfold exit_code.
  step_finished HP.
Qed.

End TestCpp.

(** * Notions of the specification *)

Section Notions.

Context {D : Type} {dops : DoubleOps D} {rnd : RandomLib D}.

(** What the C++ standard promises of the one distribution the programs
    use, [std::uniform_real_distribution<double>(0.0, 100.0)]: a draw lies in
    [[0, 100)], whatever the state of the engine. *)
Definition distribucion_range : Prop :=
  forall g : Engine,
    dleb (dlit 0) (fst (uniform_real_distribution (dlit 0) (dlit 100) g)) = true /\
    dltb (fst (uniform_real_distribution (dlit 0) (dlit 100) g)) (dlit 100) = true.

(** [N] of rank [r] when [main] of [src/main.cpp] has returned. *)
Definition N_of (o : Outcome D (Z * main_cpp.MainVars D)) (r : nat) : option Z :=
  match o with
  | Finished results =>
      option_map (fun x => main_cpp.mv_N (snd (fst x))) (nth_error results r)
  | _ => None
  end.

(** The vector [valores] of rank [r] when [main] of [src/main.cpp] has returned. *)
Definition valores_of (o : Outcome D (Z * main_cpp.MainVars D)) (r : nat) : option (list D) :=
  match o with
  | Finished results =>
      option_map (fun x => main_cpp.mv_valores (snd (fst x))) (nth_error results r)
  | _ => None
  end.

(** [promedioFinal] of rank [r] when [main] of [src/main.cpp] has returned. *)
Definition promedio_of (o : Outcome D (Z * main_cpp.MainVars D)) (r : nat) : option D :=
  match o with
  | Finished results =>
      option_map (fun x => main_cpp.mv_promedioFinal (snd (fst x))) (nth_error results r)
  | _ => None
  end.

(** [sumaTotal] of rank [r] when [main] of [src/main.cpp] has returned. *)
Definition sumaTotal_of (o : Outcome D (Z * main_cpp.MainVars D)) (r : nat) : option D :=
  match o with
  | Finished results =>
      option_map (fun x => main_cpp.mv_sumaTotal (snd (fst x))) (nth_error results r)
  | _ => None
  end.

(** The exit code of [MPI_Abort], when the run ended by it. *)
Definition aborted_with {A : Type} (o : Outcome D A) : option Z :=
  match o with
  | Aborted code _ => Some code
  | _ => None
  end.

(** The values that the [double] broadcasts of a trace delivered, oldest first. *)
Fixpoint bcast_doubles (tr : list (Call D)) : list D :=
  match tr with
  | [] => []
  | CBcastDouble _ v :: tr' => v :: bcast_doubles tr'
  | _ :: tr' => bcast_doubles tr'
  end.

(** The values that the [int] broadcasts of a trace delivered, oldest first. *)
Fixpoint bcast_ints (tr : list (Call D)) : list Z :=
  match tr with
  | [] => []
  | CBcastInt _ v :: tr' => v :: bcast_ints tr'
  | _ :: tr' => bcast_ints tr'
  end.

End Notions.

(** [k] is the ceiling of [N / P]. *)
Definition is_ceiling (N P k : Z) : Prop := (k - 1) * P < N <= k * P.
(** * The two arithmetics *)

(** Without rounding, addition is associative and commutative, and 0 is
    neutral. *)
Lemma exact_addition_laws :
  let add := dadd (DoubleOps := Exact.ops) in
  (forall a b c : Qc, add a (add b c) = add (add a b) c) /\
  (forall a b : Qc, add a b = add b a) /\
  (forall a : Qc, add (dlit (DoubleOps := Exact.ops) 0) a = a).
Proof.
  cbv zeta. split; [|split]; cbn [dadd dlit Exact.ops].
  - intros a b c. apply Qcplus_assoc.
  - intros a b. apply Qcplus_comm.
  - intros a. apply Qcplus_0_l.
Qed.

(** In binary64 it is not associative: the order in which an MPI library
    combines the contributions can change the last bits of a sum. *)
Lemma binary64_addition_not_associative :
  let add := dadd (DoubleOps := Binary64.ops) in
  add 9007199254740992%float (add 1%float 1%float)
  <> add (add 9007199254740992%float 1%float) 1%float.
Proof.
  cbv zeta. intros E. apply (f_equal Prim2SF) in E. vm_compute in E. discriminate E.
Qed.

(** * The words of the generator *)

Lemma word_range (z : Z) : 0 <= MT19937.word z < 4294967296.
Proof. unfold MT19937.word. apply Z.mod_pos_bound. lia. Qed.

Lemma next_range (st : list Z) : 0 <= fst (MT19937.next st) < 4294967296.
Proof. unfold MT19937.next. cbn [fst]. apply word_range. Qed.


(** * Binary64 arithmetic

    The doubles of the programs are IEEE 754 binary64 numbers.  What follows
    derives, from the specification of the operations in [SpecFloat], the
    facts the programs rely on: how a mantissa is rounded, that a canonical
    random number scaled to [(0, 100)] stays below 100, and that one
    operation on normal numbers moves the result by at most one part in
    [2 ^ 53]. *)

Unset Implicit Arguments.

Module Round64.

Lemma fexp_eq (e : Z) : fexp prec emax e = Z.max (e - 53) (-1074).
Proof. reflexivity. Qed.

(** ** Number of binary digits *)

Lemma digits2_pos_spec (p : positive) :
  2 ^ (Zpos (digits2_pos p) - 1) <= Zpos p < 2 ^ Zpos (digits2_pos p).
Proof.
  induction p as [p IH|p IH|]; cbn [digits2_pos].
  - rewrite Pos2Z.inj_succ, (Pos2Z.inj_xI p).
    replace (Z.succ (Zpos (digits2_pos p)) - 1) with (Z.succ (Zpos (digits2_pos p) - 1)) by lia.
    rewrite !Z.pow_succ_r by lia.
    set (a := 2 ^ (Zpos (digits2_pos p) - 1)) in *. set (b := 2 ^ Zpos (digits2_pos p)) in *.
    clearbody a b. lia.
  - rewrite Pos2Z.inj_succ, (Pos2Z.inj_xO p).
    replace (Z.succ (Zpos (digits2_pos p)) - 1) with (Z.succ (Zpos (digits2_pos p) - 1)) by lia.
    rewrite !Z.pow_succ_r by lia.
    set (a := 2 ^ (Zpos (digits2_pos p) - 1)) in *. set (b := 2 ^ Zpos (digits2_pos p)) in *.
    clearbody a b. lia.
  - cbn. lia.
Qed.

Lemma Zdigits2_spec (m : Z) :
  0 < m -> 0 < Zdigits2 m /\ 2 ^ (Zdigits2 m - 1) <= m < 2 ^ Zdigits2 m.
Proof.
  destruct m as [|p|p]; try lia. intros _. cbn [Zdigits2].
  split; [lia | apply digits2_pos_spec].
Qed.

Lemma Zdigits2_nonneg (m : Z) : 0 <= Zdigits2 m.
Proof. destruct m; cbn; lia. Qed.

Lemma Zdigits2_le (m d : Z) : 0 <= d -> 0 <= m < 2 ^ d -> Zdigits2 m <= d.
Proof.
  intros Hd Hm. destruct (Z.eq_dec m 0) as [->|Hn]; [cbn; lia|].
  destruct (Zdigits2_spec m ltac:(lia)) as (Hp & Hl & _).
  destruct (Z.le_gt_cases (Zdigits2 m) d) as [H|H]; [exact H|].
  assert (2 ^ d <= 2 ^ (Zdigits2 m - 1)) by (apply Z.pow_le_mono_r; lia). lia.
Qed.

Lemma Zdigits2_ge (m d : Z) : 0 <= d -> 2 ^ d <= m -> d + 1 <= Zdigits2 m.
Proof.
  intros Hd Hm. assert (0 < 2 ^ d) by (apply Z.pow_pos_nonneg; lia).
  destruct (Zdigits2_spec m ltac:(lia)) as (Hp & _ & Hu).
  destruct (Z.le_gt_cases (d + 1) (Zdigits2 m)) as [H'|H']; [exact H'|].
  assert (2 ^ Zdigits2 m <= 2 ^ d) by (apply Z.pow_le_mono_r; lia). lia.
Qed.

(** ** Shifting to the right, with the position of the number that is rounded

    The number is [num / den] in units of the last binary place kept;
    [inb m l num den] says that it lies between [m] and [m + 1], where [l]
    says. *)

Definition inb (m : Z) (l : location) (num den : Z) : Prop :=
  match l with
  | loc_Exact => num = m * den
  | loc_Inexact Lt => m * den < num /\ 2 * num < (2 * m + 1) * den
  | loc_Inexact Eq => 2 * num = (2 * m + 1) * den
  | loc_Inexact Gt => (2 * m + 1) * den < 2 * num /\ num < (m + 1) * den
  end.

Lemma loc_of_shr_record_of_loc (m : Z) (l : location) :
  loc_of_shr_record (shr_record_of_loc m l) = l /\ shr_m (shr_record_of_loc m l) = m.
Proof. destruct l as [|[]]; split; reflexivity. Qed.

Lemma shr_1_spec (mrs : shr_record) (num den : Z) :
  0 < den -> 0 <= shr_m mrs ->
  inb (shr_m mrs) (loc_of_shr_record mrs) num den ->
  shr_m (shr_1 mrs) = shr_m mrs / 2 /\
  inb (shr_m (shr_1 mrs)) (loc_of_shr_record (shr_1 mrs)) num (2 * den).
Proof.
  intros Hden Hm Hin. destruct mrs as [m r s]. cbn [shr_m] in *.
  destruct m as [|p|p]; [| |lia].
  - destruct r, s; cbn [inb loc_of_shr_record shr_1 shr_m orb] in *; split; try reflexivity; lia.
  - destruct p as [p|p|]; cbn [shr_1 shr_m].
    + rewrite (Pos2Z.inj_xI p) in *.
      split; [apply (Z.div_unique _ _ _ 1); lia|].
      destruct r, s; cbn [inb loc_of_shr_record shr_1 shr_m orb] in *; nia.
    + rewrite (Pos2Z.inj_xO p) in *.
      split; [apply (Z.div_unique _ _ _ 0); lia|].
      destruct r, s; cbn [inb loc_of_shr_record shr_1 shr_m orb] in *; nia.
    + split; [reflexivity|]. destruct r, s; cbn [inb loc_of_shr_record shr_1 shr_m orb] in *; nia.
Qed.

Lemma iter_pos_shr_1 (p : positive) :
  forall (mrs : shr_record) (num den : Z),
  0 < den -> 0 <= shr_m mrs ->
  inb (shr_m mrs) (loc_of_shr_record mrs) num den ->
  shr_m (iter_pos shr_1 p mrs) = shr_m mrs / 2 ^ Zpos p /\
  inb (shr_m (iter_pos shr_1 p mrs)) (loc_of_shr_record (iter_pos shr_1 p mrs))
      num (den * 2 ^ Zpos p).
Proof.
  assert (Hnn : forall mrs, 0 <= shr_m mrs -> 0 <= shr_m mrs / 2)
    by (intros; apply Z.div_pos; lia).
  induction p as [p IH|p IH|]; intros mrs num den Hden Hm Hin; cbn [iter_pos].
  - destruct (shr_1_spec mrs num den Hden Hm Hin) as [E1 H1].
    assert (Hp : 0 < 2 ^ Zpos p) by (apply Z.pow_pos_nonneg; lia).
    destruct (IH (shr_1 mrs) num (2 * den) ltac:(lia) ltac:(rewrite E1; apply Hnn, Hm) H1)
      as [E2 H2].
    assert (Hm2 : 0 <= shr_m (iter_pos shr_1 p (shr_1 mrs)))
      by (rewrite E2; apply Z.div_pos; [rewrite E1; apply Hnn, Hm | lia]).
    destruct (IH _ num (2 * den * 2 ^ Zpos p) ltac:(nia) Hm2 H2) as [E3 H3].
    rewrite (Pos2Z.inj_xI p).
    replace (2 * Zpos p + 1) with (1 + Zpos p + Zpos p) by lia.
    rewrite !Z.pow_add_r by lia. change (2 ^ 1) with 2.
    split.
    + rewrite E3, E2, E1, !Z.div_div by lia. f_equal. lia.
    + replace (den * (2 * 2 ^ Zpos p * 2 ^ Zpos p)) with (2 * den * 2 ^ Zpos p * 2 ^ Zpos p)
        by lia. exact H3.
  - assert (Hp : 0 < 2 ^ Zpos p) by (apply Z.pow_pos_nonneg; lia).
    destruct (IH mrs num den Hden Hm Hin) as [E2 H2].
    assert (Hm2 : 0 <= shr_m (iter_pos shr_1 p mrs))
      by (rewrite E2; apply Z.div_pos; lia).
    destruct (IH _ num (den * 2 ^ Zpos p) ltac:(nia) Hm2 H2) as [E3 H3].
    rewrite (Pos2Z.inj_xO p).
    replace (2 * Zpos p) with (Zpos p + Zpos p) by lia.
    rewrite !Z.pow_add_r by lia.
    split.
    + rewrite E3, E2, !Z.div_div by lia. reflexivity.
    + replace (den * (2 ^ Zpos p * 2 ^ Zpos p)) with (den * 2 ^ Zpos p * 2 ^ Zpos p) by lia.
      exact H3.
  - destruct (shr_1_spec mrs num den Hden Hm Hin) as [E1 H1].
    change (2 ^ 1) with 2. split; [exact E1|].
    replace (den * 2) with (2 * den) by lia. exact H1.
Qed.

(** [shr] by [n >= 0] places. *)
Lemma shr_spec (m : Z) (l : location) (e n num den : Z) :
  0 < den -> 0 <= m -> 0 <= n -> inb m l num den ->
  let '(mrs, e') := shr (shr_record_of_loc m l) e n in
  e' = e + n /\ shr_m mrs = m / 2 ^ n /\
  inb (shr_m mrs) (loc_of_shr_record mrs) num (den * 2 ^ n).
Proof.
  intros Hden Hm Hn Hin.
  destruct (loc_of_shr_record_of_loc m l) as [El Em].
  destruct n as [|p|p]; [| |lia]; cbn [shr].
  - rewrite El, Em, Z.div_1_r, Z.mul_1_r. repeat split; [lia | exact Hin].
  - destruct (iter_pos_shr_1 p (shr_record_of_loc m l) num den Hden
                ltac:(rewrite Em; exact Hm) ltac:(rewrite El, Em; exact Hin)) as [E H].
    rewrite Em in E. repeat split; assumption.
Qed.

(** Rounding to nearest, ties to even. *)
Lemma round_nearest_even_spec (m : Z) (l : location) (num den : Z) :
  0 < den -> 0 <= m -> inb m l num den ->
  let mr := round_nearest_even m l in
  (mr = m \/ mr = m + 1) /\ - den <= 2 * (mr * den - num) <= den.
Proof.
  intros Hden Hm Hin. destruct l as [|[]]; cbn [round_nearest_even inb] in *.
  - split; [left; reflexivity | nia].
  - destruct (Z.even m); split; auto; nia.
  - split; [left; reflexivity | nia].
  - split; [right; reflexivity | nia].
Qed.

(** ** The rounding of a mantissa, an exponent and a position *)

(** The float with mantissa [mr] at exponent [e1], [mr] having at most 53
    bits or being [2 ^ 53]. *)
Definition finish (sx : bool) (mr e1 : Z) : spec_float :=
  if mr =? 0 then S754_zero sx
  else if mr =? 2 ^ 53 then
    if e1 + 1 <=? 971 then S754_finite sx (2 ^ 52)%positive (e1 + 1) else S754_infinity sx
  else if e1 <=? 971 then S754_finite sx (Z.to_pos mr) e1 else S754_infinity sx.

Lemma bra_spec (sx : bool) (mx ex : Z) (lx : location) (num den : Z) :
  0 <= mx -> 0 < den -> inb mx lx num den ->
  ex <= fexp prec emax (Zdigits2 mx + ex) ->
  exists mr,
    0 <= mr <= 2 ^ 53 /\
    - (den * 2 ^ (fexp prec emax (Zdigits2 mx + ex) - ex))
    <= 2 * (mr * (den * 2 ^ (fexp prec emax (Zdigits2 mx + ex) - ex)) - num)
    <= den * 2 ^ (fexp prec emax (Zdigits2 mx + ex) - ex) /\
    binary_round_aux prec emax sx mx ex lx
    = finish sx mr (fexp prec emax (Zdigits2 mx + ex)).
Proof.
  intros Hmx Hden Hin He.
  set (e1 := fexp prec emax (Zdigits2 mx + ex)) in *.
  assert (He1 : e1 = Z.max (Zdigits2 mx + ex - 53) (-1074)) by reflexivity.
  set (n := e1 - ex). assert (Hn : 0 <= n) by (unfold n; lia).
  assert (Hpn : 0 < 2 ^ n) by (apply Z.pow_pos_nonneg; lia).
  unfold binary_round_aux, shr_fexp. fold e1. fold n.
  pose proof (shr_spec mx lx ex n num den Hden Hmx Hn Hin) as Hs.
  destruct (shr (shr_record_of_loc mx lx) ex n) as [mrs' e'].
  destruct Hs as (-> & Em & Hin').
  replace (ex + n) with e1 by (unfold n; lia).
  assert (Hm' : 0 <= shr_m mrs' < 2 ^ 53).
  { rewrite Em. split; [apply Z.div_pos; lia|].
    apply Z.div_lt_upper_bound; [lia|].
    destruct (Z.eq_dec mx 0) as [->|Hne]; [nia|].
    destruct (Zdigits2_spec mx ltac:(lia)) as (Hd & _ & Hu).
    assert (2 ^ Zdigits2 mx <= 2 ^ (n + 53)) by (apply Z.pow_le_mono_r; unfold n; lia).
    rewrite Z.pow_add_r in * by lia. lia. }
  destruct (round_nearest_even_spec (shr_m mrs') (loc_of_shr_record mrs') num (den * 2 ^ n)
              ltac:(nia) ltac:(lia) Hin') as (Hcase & Hbound).
  set (mr := round_nearest_even (shr_m mrs') (loc_of_shr_record mrs')) in *.
  exists mr. split; [lia|]. split; [exact Hbound|].
  unfold finish.
  destruct (Z.eqb_spec mr (2 ^ 53)) as [E53|N53].
  - rewrite E53.
    replace (fexp prec emax (Zdigits2 (2 ^ 53) + e1) - e1) with 1
      by (rewrite fexp_eq; change (Zdigits2 (2 ^ 53)) with 54; lia).
    cbn [shr_record_of_loc shr iter_pos shr_1 shr_m Z.eqb Z.pow Z.pow_pos Pos.iter Z.mul Pos.mul].
    change (emax - prec) with 971. reflexivity.
  - assert (Hd : Zdigits2 mr <= 53) by (apply Zdigits2_le; lia).
    assert (Hsh : fexp prec emax (Zdigits2 mr + e1) - e1 <= 0) by (rewrite fexp_eq; lia).
    assert (Hshr : shr (shr_record_of_loc mr loc_Exact) e1
                       (fexp prec emax (Zdigits2 mr + e1) - e1)
                   = (shr_record_of_loc mr loc_Exact, e1)).
    { destruct (fexp prec emax (Zdigits2 mr + e1) - e1) as [|p|p]; [reflexivity|lia|reflexivity]. }
    rewrite Hshr. cbn [shr_record_of_loc shr_m]. change (emax - prec) with 971.
    destruct mr as [|p|p]; [reflexivity| |lia].
    destruct (Z.eqb_spec (Zpos p) 0) as [E0|_]; [discriminate|].
    cbn [Z.to_pos]. reflexivity.
Qed.

(** ** Floats that are not negative and not NaN *)

Definition nonneg (f : spec_float) : Prop :=
  match f with
  | S754_zero _ => True
  | S754_infinity s => s = false
  | S754_finite s _ _ => s = false
  | S754_nan => False
  end.

Lemma iter_pos_inv {A : Type} (f : A -> A) (I : A -> Prop) :
  (forall x, I x -> I (f x)) -> forall p x, I x -> I (iter_pos f p x).
Proof.
  intros Hf. induction p as [p IH|p IH|]; intros x Hx; cbn [iter_pos].
  - apply IH, IH, Hf, Hx.
  - apply IH, IH, Hx.
  - apply Hf, Hx.
Qed.

Lemma shr_1_nonneg (mrs : shr_record) : 0 <= shr_m mrs -> 0 <= shr_m (shr_1 mrs).
Proof.
  destruct mrs as [m r s]. destruct m as [|[p|p|]|p]; cbn [shr_1 shr_m]; lia.
Qed.

Lemma shr_nonneg (mrs : shr_record) (e n : Z) :
  0 <= shr_m mrs -> 0 <= shr_m (fst (shr mrs e n)).
Proof.
  intros Hm. destruct n as [|p|p]; cbn [shr fst]; try exact Hm.
  apply (iter_pos_inv shr_1 (fun x => 0 <= shr_m x) shr_1_nonneg), Hm.
Qed.

Lemma bra_nonneg (mx ex : Z) (lx : location) :
  0 <= mx -> nonneg (binary_round_aux prec emax false mx ex lx).
Proof.
  intros Hmx. unfold binary_round_aux, shr_fexp.
  pose proof (shr_nonneg (shr_record_of_loc mx lx) ex
                (fexp prec emax (Zdigits2 mx + ex) - ex)
                ltac:(rewrite (proj2 (loc_of_shr_record_of_loc mx lx)); exact Hmx)) as H1.
  destruct (shr (shr_record_of_loc mx lx) ex (fexp prec emax (Zdigits2 mx + ex) - ex))
    as [mrs' e']. cbn [fst] in H1.
  set (mr := round_nearest_even (shr_m mrs') (loc_of_shr_record mrs')).
  assert (Hmr : 0 <= mr).
  { unfold mr, round_nearest_even.
    destruct (loc_of_shr_record mrs') as [|[]]; try destruct (Z.even (shr_m mrs')); lia. }
  pose proof (shr_nonneg (shr_record_of_loc mr loc_Exact) e'
                (fexp prec emax (Zdigits2 mr + e') - e') Hmr) as H2.
  destruct (shr (shr_record_of_loc mr loc_Exact) e' (fexp prec emax (Zdigits2 mr + e') - e'))
    as [mrs'' e'']. cbn [fst] in H2.
  destruct (shr_m mrs'') as [|p|p]; [exact I| |lia].
  destruct (e'' <=? emax - prec); reflexivity.
Qed.

Lemma binary_normalize_nonneg (m e : Z) :
  0 <= m -> nonneg (binary_normalize prec emax m e false).
Proof.
  intros Hm. destruct m as [|p|p]; [exact I| |lia].
  cbn [binary_normalize]. unfold binary_round.
  destruct (shl_align p e (fexp prec emax (Zpos (digits2_pos p) + e))) as [mz ez].
  apply bra_nonneg. lia.
Qed.

Lemma SFmul_nonneg (x : spec_float) (my : positive) (ey : Z) :
  nonneg x -> nonneg (SFmul prec emax x (S754_finite false my ey)).
Proof.
  destruct x as [s|s| |s m e]; cbn [nonneg SFmul]; intros H; try subst s; try exact I;
    try reflexivity; try contradiction.
  apply bra_nonneg. lia.
Qed.

Lemma SFadd_nonneg (x y : spec_float) :
  nonneg x -> nonneg y -> nonneg (SFadd prec emax x y).
Proof.
  destruct x as [sx|sx| |sx mx ex], y as [sy|sy| |sy my ey]; cbn [nonneg SFadd];
    intros Hx Hy; try subst sx; try subst sy; try exact I; try reflexivity;
    try contradiction.
  - destruct sx, sy; exact I.
  - cbn [cond_Zopp]. apply binary_normalize_nonneg. lia.
Qed.

Lemma SFdiv_nonneg (x : spec_float) (my : positive) (ey : Z) :
  nonneg x -> nonneg (SFdiv prec emax x (S754_finite false my ey)).
Proof.
  destruct x as [s|s| |s m e]; cbn [nonneg SFdiv]; intros H; try subst s; try exact I;
    try reflexivity; try contradiction.
  unfold SFdiv_core_binary.
  set (s := e - ey - _).
  set (m' := match s with Zpos _ => Z.shiftl (Zpos m) s | Z0 => Zpos m | Zneg _ => 0 end).
  assert (Hm' : 0 <= m').
  { unfold m'. destruct s; [lia | apply Z.shiftl_nonneg; lia | lia]. }
  pose proof (Z.div_pos m' (Zpos my) Hm' ltac:(lia)) as Hq.
  unfold Z.div in Hq. destruct (Z.div_eucl m' (Zpos my)) as [q r]. cbn [fst] in Hq.
  cbn [xorb]. apply bra_nonneg. exact Hq.
Qed.

(** ** Valid floats and their order *)

Lemma valid_finite (s : bool) (m : positive) (e : Z) :
  valid_binary (S754_finite s m e) = true ->
  e = Z.max (Zpos (digits2_pos m) + e - 53) (-1074) /\ e <= 971.
Proof.
  cbn [SpecFloat.valid_binary]. unfold bounded, canonical_mantissa.
  rewrite andb_true_iff, Z.eqb_eq, Z.leb_le, fexp_eq. change (emax - prec) with 971. lia.
Qed.

(** The value of a positive valid float, in units of [2 ^ -1074]. *)
Definition val (m : positive) (e : Z) : Z := Zpos m * 2 ^ (e + 1074).

Lemma valid_val (s : bool) (m : positive) (e : Z) :
  valid_binary (S754_finite s m e) = true ->
  -1074 <= e <= 971 /\ Zpos m < 2 ^ 53 /\
  (-1074 < e -> 2 ^ 52 <= Zpos m).
Proof.
  intros Hv. destruct (valid_finite s m e Hv) as [He Hmax].
  pose proof (digits2_pos_spec m) as [Hl Hu].
  assert (Hd : Zpos (digits2_pos m) <= 53) by lia.
  split; [lia|]. split.
  - assert (2 ^ Zpos (digits2_pos m) <= 2 ^ 53) by (apply Z.pow_le_mono_r; lia). lia.
  - intros Hn. assert (Hd53 : Zpos (digits2_pos m) = 53) by lia.
    rewrite Hd53 in Hl. exact Hl.
Qed.

Lemma SFcompare_finite (m1 : positive) (e1 : Z) (m2 : positive) (e2 : Z) :
  valid_binary (S754_finite false m1 e1) = true ->
  valid_binary (S754_finite false m2 e2) = true ->
  SFcompare (S754_finite false m1 e1) (S754_finite false m2 e2)
  = Some (val m1 e1 ?= val m2 e2).
Proof.
  intros Hv1 Hv2.
  destruct (valid_val _ _ _ Hv1) as (He1 & Hu1 & Hn1).
  destruct (valid_val _ _ _ Hv2) as (He2 & Hu2 & Hn2).
  cbn [SFcompare]. f_equal. unfold val.
  assert (Hp1 : 0 < 2 ^ (e1 + 1074)) by (apply Z.pow_pos_nonneg; lia).
  assert (Hp2 : 0 < 2 ^ (e2 + 1074)) by (apply Z.pow_pos_nonneg; lia).
  destruct (Z.compare_spec e1 e2) as [E|L|G].
  - subst e2. change (Pos.compare_cont Eq m1 m2) with (Zpos m1 ?= Zpos m2).
    destruct (Z.compare_spec (Zpos m1) (Zpos m2)) as [E|L|G].
    + rewrite E. symmetry. apply Z.compare_refl.
    + symmetry. apply Z.compare_lt_iff. nia.
    + symmetry. apply Z.compare_gt_iff. nia.
  - symmetry. apply Z.compare_lt_iff.
    replace (e2 + 1074) with (e2 - e1 + (e1 + 1074)) by lia.
    rewrite (Z.pow_add_r 2 (e2 - e1) (e1 + 1074)) by lia.
    assert (2 ^ 1 <= 2 ^ (e2 - e1)) by (apply Z.pow_le_mono_r; lia).
    change (2 ^ 1) with 2 in *. change (2 ^ 52) with 4503599627370496 in *.
    change (2 ^ 53) with 9007199254740992 in *.
    specialize (Hn2 ltac:(lia)).
    assert (Zpos m1 < Zpos m2 * 2 ^ (e2 - e1)) by nia.
    nia.
  - symmetry. apply Z.compare_gt_iff.
    replace (e1 + 1074) with (e1 - e2 + (e2 + 1074)) by lia.
    rewrite (Z.pow_add_r 2 (e1 - e2) (e2 + 1074)) by lia.
    assert (2 ^ 1 <= 2 ^ (e1 - e2)) by (apply Z.pow_le_mono_r; lia).
    change (2 ^ 1) with 2 in *. change (2 ^ 52) with 4503599627370496 in *.
    change (2 ^ 53) with 9007199254740992 in *.
    specialize (Hn1 ltac:(lia)).
    assert (Zpos m2 < Zpos m1 * 2 ^ (e1 - e2)) by nia.
    nia.
Qed.

Lemma finish_val (mr e1 : Z) :
  0 <= mr <= 2 ^ 53 -> -1074 <= e1 -> e1 + 1 <= 971 ->
  (mr = 0 /\ finish false mr e1 = S754_zero false) \/
  exists m' e', finish false mr e1 = S754_finite false m' e' /\
                val m' e' = mr * 2 ^ (e1 + 1074).
Proof.
  intros Hmr He Hmax. unfold finish.
  destruct (Z.eqb_spec mr 0) as [E0|N0]; [left; split; [exact E0 | reflexivity]|].
  right. destruct (Z.eqb_spec mr (2 ^ 53)) as [E|N].
  - destruct (Z.leb_spec (e1 + 1) 971) as [_|H]; [|lia].
    eexists _, _. split; [reflexivity|]. unfold val. rewrite E.
    replace (e1 + 1 + 1074) with (1 + (e1 + 1074)) by lia.
    rewrite Z.pow_add_r by lia. change (Zpos (2 ^ 52)) with (2 ^ 52). change (2 ^ 1) with 2.
    change (2 ^ 53) with (2 ^ 52 * 2). ring.
  - destruct (Z.leb_spec e1 971) as [_|H]; [|lia].
    eexists _, _. split; [reflexivity|]. unfold val. rewrite Z2Pos.id by lia. reflexivity.
Qed.

(** ** Multiplying a number below 1 by 100 *)

Definition c100 : positive := 7036874417766400.

Lemma SFmul_100 (m : positive) (e : Z) :
  valid_binary (S754_finite false m e) = true -> val m e < 2 ^ 1074 ->
  exists mr e1,
    0 <= mr <= 2 ^ 53 /\ -1074 <= e1 /\ e1 + 1 <= 971 /\
    mr * 2 ^ (e1 + 1074) < Zpos c100 * 2 ^ 1028 /\
    SFmul prec emax (S754_finite false m e) (S754_finite false c100 (-46))
    = finish false mr e1.
Proof.
  intros Hv Hlt. destruct (valid_val _ _ _ Hv) as (He & Hu & _). unfold val in Hlt.
  assert (Hneg : e < 0).
  { destruct (Z.lt_ge_cases e 0) as [H|H]; [exact H|].
    assert (2 ^ 1074 <= 2 ^ (e + 1074)) by (apply Z.pow_le_mono_r; lia).
    assert (0 < 2 ^ 1074) by (apply Z.pow_pos_nonneg; lia). nia. }
  set (B := 2 ^ (- e)).
  assert (HB : 2 ^ 1074 = B * 2 ^ (e + 1074))
    by (unfold B; rewrite <- Z.pow_add_r by lia; f_equal; lia).
  assert (HA : 0 < 2 ^ (e + 1074)) by (apply Z.pow_pos_nonneg; lia).
  assert (HmB : Zpos m + 1 <= B) by nia.
  cbn [SFmul xorb].
  set (mx := Zpos (m * c100)). set (ex := e + -46).
  assert (Emx : mx = Zpos m * Zpos c100) by reflexivity.
  assert (Hc : 2 ^ 52 <= Zpos c100 < 2 ^ 53) by (unfold c100; split; [discriminate | reflexivity]).
  assert (Hmx : 2 ^ 52 <= mx < 2 ^ 106).
  { change (2 ^ 106) with (2 ^ 53 * 2 ^ 53). nia. }
  assert (Hd : 53 <= Zdigits2 mx <= 106).
  { split; [apply (Zdigits2_ge mx 52); lia | apply Zdigits2_le; lia]. }
  assert (He1 : fexp prec emax (Zdigits2 mx + ex) = Z.max (Zdigits2 mx + ex - 53) (-1074))
    by reflexivity.
  destruct (bra_spec false mx ex loc_Exact mx 1 ltac:(lia) ltac:(lia)
              ltac:(cbn [inb]; lia) ltac:(unfold ex in *; lia)) as (mr & Hmr & Hb & Hres).
  set (e1 := fexp prec emax (Zdigits2 mx + ex)) in *.
  set (n := e1 - ex) in *.
  assert (Hn : 0 <= n <= 53) by (unfold n, ex in *; lia).
  assert (Hpn : 0 < 2 ^ n <= 2 ^ 53)
    by (split; [apply Z.pow_pos_nonneg; lia | apply Z.pow_le_mono_r; lia]).
  exists mr, e1. split; [exact Hmr|]. split; [lia|]. split; [unfold ex in *; lia|].
  split; [|exact Hres].
  assert (H1 : mr * 2 ^ n < B * Zpos c100).
  { change (2 ^ 53) with 9007199254740992 in *. unfold c100 in *. nia. }
  assert (H2 : mr * 2 ^ n * 2 ^ (e + 1120) < B * Zpos c100 * 2 ^ (e + 1120)).
  { apply Z.mul_lt_mono_pos_r; [apply Z.pow_pos_nonneg; lia | exact H1]. }
  assert (E1 : mr * 2 ^ n * 2 ^ (e + 1120) = mr * 2 ^ (e1 + 1074) * 2 ^ 92).
  { rewrite <- !Z.mul_assoc, <- !Z.pow_add_r by (unfold n, ex in *; lia).
    f_equal. f_equal. unfold n, ex. lia. }
  assert (E2 : B * Zpos c100 * 2 ^ (e + 1120) = Zpos c100 * 2 ^ 1028 * 2 ^ 92).
  { unfold B. replace (2 ^ (- e) * Zpos c100 * 2 ^ (e + 1120))
      with (Zpos c100 * (2 ^ (- e) * 2 ^ (e + 1120))) by ring.
    rewrite <- Z.mul_assoc, <- !Z.pow_add_r by lia. f_equal. f_equal. lia. }
  rewrite E1, E2 in H2.
  apply (Z.mul_lt_mono_pos_r (2 ^ 92)); [reflexivity | exact H2].
Qed.

End Round64.

(** ** Random numbers in [[0, 100)] *)

Module Draw64.
Import Round64.

Lemma of_Z_nonneg (z : Z) : 0 <= z -> nonneg (Prim2SF (Binary64.of_Z z)).
Proof.
  intros Hz. unfold Binary64.of_Z.
  destruct (Z.ltb_spec z 0) as [H|_]; [lia|].
  rewrite of_uint63_spec. apply binary_normalize_nonneg.
  apply Uint63.to_Z_bounded.
Qed.

Lemma Prim2SF_k32 :
  Prim2SF (Binary64.of_Z 4294967296) = S754_finite false 4503599627370496 (-20).
Proof. vm_compute. reflexivity. Qed.

Lemma Prim2SF_k64 :
  Prim2SF (PrimFloat.mul (Binary64.of_Z 4294967296) (Binary64.of_Z 4294967296))
  = S754_finite false 4503599627370496 12.
Proof. vm_compute. reflexivity. Qed.

Lemma Prim2SF_one : Prim2SF 1%float = S754_finite false 4503599627370496 (-52).
Proof. vm_compute. reflexivity. Qed.

Lemma Prim2SF_below_one :
  Prim2SF 0x1.fffffffffffffp-1%float = S754_finite false 9007199254740991 (-53).
Proof. vm_compute. reflexivity. Qed.

Lemma Prim2SF_100 : Prim2SF (dlit (DoubleOps := Binary64.ops) 100) = S754_finite false c100 (-46).
Proof. vm_compute. reflexivity. Qed.

Lemma Prim2SF_0 : Prim2SF (dlit (DoubleOps := Binary64.ops) 0) = S754_zero false.
Proof. vm_compute. reflexivity. Qed.

Lemma width_100 :
  PrimFloat.sub (dlit (DoubleOps := Binary64.ops) 100) (dlit (DoubleOps := Binary64.ops) 0)
  = dlit (DoubleOps := Binary64.ops) 100.
Proof. vm_compute. reflexivity. Qed.

(** [generate_canonical], clamped as libstdc++ does, is below 1. *)
Lemma canonical_below_one (ret : float) :
  nonneg (Prim2SF ret) ->
  let ret' := if PrimFloat.leb 1 ret then 0x1.fffffffffffffp-1%float else ret in
  (exists s, Prim2SF ret' = S754_zero s) \/
  (exists m e, Prim2SF ret' = S754_finite false m e /\ val m e < 2 ^ 1074).
Proof.
  intros Hn ret'. unfold ret'.
  destruct (PrimFloat.leb 1 ret) eqn:Hle.
  - right. eexists _, _. split; [apply Prim2SF_below_one | reflexivity].
  - rewrite leb_spec, Prim2SF_one in Hle.
    pose proof (Prim2SF_valid ret) as Hv.
    destruct (Prim2SF ret) as [s|s| |s m e]; cbn [nonneg] in Hn.
    + left. exists s. reflexivity.
    + subst s. discriminate Hle.
    + contradiction.
    + subst s. right. exists m, e. split; [reflexivity|].
      unfold SFleb in Hle.
      rewrite (SFcompare_finite 4503599627370496 (-52) m e) in Hle by (try reflexivity; exact Hv).
      change (val 4503599627370496 (-52)) with (2 ^ 1074) in Hle.
      destruct (Z.compare_spec (2 ^ 1074) (val m e)) as [E|L|G]; try discriminate Hle.
      exact G.
Qed.

(** A number below 1, scaled to [[0, 100)]. *)
Lemma scaled_in_range (ret' : float) :
  (exists s, Prim2SF ret' = S754_zero s) \/
  (exists m e, Prim2SF ret' = S754_finite false m e /\ val m e < 2 ^ 1074) ->
  let a := dlit (DoubleOps := Binary64.ops) 0 in
  let b := dlit (DoubleOps := Binary64.ops) 100 in
  let x := PrimFloat.add (PrimFloat.mul ret' (PrimFloat.sub b a)) a in
  PrimFloat.leb a x = true /\ PrimFloat.ltb x b = true.
Proof.
  intros Hret a b x. unfold x, a, b. rewrite width_100.
  rewrite leb_spec, ltb_spec, add_spec, mul_spec, Prim2SF_100, Prim2SF_0.
  destruct Hret as [(s & Hs)|(m & e & Hm & Hlt)].
  - rewrite Hs. destruct s; split; reflexivity.
  - pose proof (Prim2SF_valid (PrimFloat.mul ret' (dlit (DoubleOps := Binary64.ops) 100))) as Hv.
    pose proof (Prim2SF_valid ret') as Hvr.
    rewrite mul_spec, Prim2SF_100 in Hv. rewrite Hm in *.
    destruct (SFmul_100 m e Hvr Hlt) as (mr & e1 & Hmr & He1 & Hmax & Hb & Hres).
    unfold SF64mul in *. rewrite Hres in *.
    destruct (finish_val mr e1 Hmr He1 Hmax) as [(_ & Hz)|(m' & e' & Hf & Hval)].
    + rewrite Hz. split; reflexivity.
    + rewrite Hf in *. split; [reflexivity|].
      unfold SF64add. cbn [SFadd]. unfold SFltb.
      rewrite (SFcompare_finite m' e' c100 (-46)) by (try reflexivity; exact Hv).
      rewrite Hval. change (val c100 (-46)) with (Zpos c100 * 2 ^ 1028).
      apply Z.compare_lt_iff in Hb. rewrite Hb. reflexivity.
Qed.

Lemma binary64_draw_range (st : list Z) :
  let a := dlit (DoubleOps := Binary64.ops) 0 in
  let b := dlit (DoubleOps := Binary64.ops) 100 in
  PrimFloat.leb a (fst (Binary64.draw a b st)) = true /\
  PrimFloat.ltb (fst (Binary64.draw a b st)) b = true.
Proof.
  intros a b. unfold Binary64.draw.
  pose proof (next_range st) as H1.
  destruct (MT19937.next st) as [u1 st1]. cbn [fst] in H1.
  pose proof (next_range st1) as H2.
  destruct (MT19937.next st1) as [u2 st2]. cbn [fst] in H2 |- *.
  apply scaled_in_range. apply canonical_below_one.
  rewrite div_spec, Prim2SF_k64. apply SFdiv_nonneg.
  rewrite add_spec. apply SFadd_nonneg; [apply of_Z_nonneg; lia|].
  rewrite mul_spec, Prim2SF_k32. apply SFmul_nonneg. apply of_Z_nonneg. lia.
Qed.

End Draw64.

Module Error64.
Import Round64.

(** ** The relative error of one operation *)

(** The value of a non-negative float in units of [2 ^ -1074]. *)
Definition sval (f : spec_float) : Z :=
  match f with
  | S754_finite false m e => val m e
  | _ => 0
  end.

(** A float that is positive and normal, its exponent between [lo] and [hi]. *)
Definition pfl (lo hi : Z) (f : spec_float) : Prop :=
  exists m e, f = S754_finite false m e /\ 2 ^ 52 <= Zpos m < 2 ^ 53 /\ lo <= e <= hi.

(** The same, or a zero. *)
Definition fl (lo hi : Z) (f : spec_float) : Prop :=
  (exists s, f = S754_zero s) \/ pfl lo hi f.

(** Rounding a number [N / Dn] (in units of [2 ^ -1074]) that is in the range
    of the normal floats moves it by at most one part in [2 ^ 53]. *)
Lemma bra_normal (mx ex : Z) (lx : location) (num den N Dn : Z) :
  0 < den -> inb mx lx num den -> 2 ^ 52 <= mx ->
  -1074 <= Zdigits2 mx + ex - 53 <= 970 -> 0 < Dn ->
  N * (den * 2 ^ (Zdigits2 mx - 53)) = num * 2 ^ (Zdigits2 mx + ex - 53 + 1074) * Dn ->
  exists m' e',
    binary_round_aux prec emax false mx ex lx = S754_finite false m' e' /\
    2 ^ 52 <= Zpos m' < 2 ^ 53 /\
    Zdigits2 mx + ex - 53 <= e' <= Zdigits2 mx + ex - 52 /\
    (2 ^ 53 - 1) * N <= 2 ^ 53 * (val m' e' * Dn) <= (2 ^ 53 + 1) * N.
Proof.
  intros Hden Hin Hmx He HDn HN.
  assert (Hd : 53 <= Zdigits2 mx) by (apply (Zdigits2_ge mx 52); lia).
  assert (Hmx0 : 0 < mx) by (assert (0 < 2 ^ 52) by reflexivity; lia).
  pose proof (Zdigits2_spec mx Hmx0) as (_ & Hlo & Hhi).
  assert (Hf : fexp prec emax (Zdigits2 mx + ex) = Zdigits2 mx + ex - 53)
    by (rewrite fexp_eq; lia).
  destruct (bra_spec false mx ex lx num den ltac:(lia) Hden Hin ltac:(rewrite Hf; lia))
    as (mr & Hmr & Hb & Hres).
  rewrite Hf in *.
  replace (Zdigits2 mx + ex - 53 - ex) with (Zdigits2 mx - 53) in Hb by lia.
  set (d := Zdigits2 mx) in *.
  set (pn := 2 ^ (d - 53)) in *.
  assert (Hpn : 0 < pn) by (apply Z.pow_pos_nonneg; lia).
  assert (Epn : 2 ^ (d - 1) = 2 ^ 52 * pn).
  { unfold pn. rewrite <- Z.pow_add_r by lia. f_equal. lia. }
  rewrite Epn in Hlo.
  set (e1 := d + ex - 53) in *.
  set (E1 := 2 ^ (e1 + 1074)) in *.
  assert (HE1 : 0 < E1) by (apply Z.pow_pos_nonneg; lia).
  assert (Hnum : mx * den <= num).
  { destruct lx as [|[| |]]; cbn [inb] in Hin; nia. }
  set (D := den * pn) in *.
  assert (HD : 0 < D) by (unfold D; nia).
  assert (HnumD : 2 ^ 52 * D <= num) by (unfold D; nia).
  change (2 ^ 52) with 4503599627370496 in *.
  change (2 ^ 53) with 9007199254740992 in *.
  assert (Hmr52 : 4503599627370496 <= mr) by nia.
  assert (Hrel : 9007199254740991 * num <= 9007199254740992 * (mr * D)
                 <= 9007199254740993 * num) by nia.
  assert (Hval : forall m' e', val m' e' = mr * E1 ->
            (9007199254740992 - 1) * N <= 9007199254740992 * (val m' e' * Dn)
            <= (9007199254740992 + 1) * N).
  { intros m' e' ->.
    assert (HK : 0 <= E1 * Dn) by nia.
    destruct Hrel as [R1 R2].
    apply (Z.mul_le_mono_nonneg_r _ _ (E1 * Dn) HK) in R1.
    apply (Z.mul_le_mono_nonneg_r _ _ (E1 * Dn) HK) in R2.
    replace (9007199254740991 * num * (E1 * Dn)) with (9007199254740991 * N * D) in R1
      by (rewrite <- Z.mul_assoc, HN; ring).
    replace (9007199254740993 * num * (E1 * Dn)) with (9007199254740993 * N * D) in R2
      by (rewrite <- Z.mul_assoc, HN; ring).
    replace (9007199254740992 * (mr * D) * (E1 * Dn))
      with (9007199254740992 * (mr * E1 * Dn) * D) in R1, R2 by ring.
    apply Z.mul_le_mono_pos_r in R1; [|exact HD].
    apply Z.mul_le_mono_pos_r in R2; [|exact HD].
    lia. }
  rewrite Hres. unfold finish. change (2 ^ 53) with 9007199254740992.
  destruct (Z.eqb_spec mr 0) as [E0|_]; [lia|].
  destruct (Z.eqb_spec mr 9007199254740992) as [E|NE].
  - destruct (Z.leb_spec (e1 + 1) 971) as [_|H]; [|lia].
    exists (2 ^ 52)%positive, (e1 + 1). split; [reflexivity|].
    split; [split; [discriminate | reflexivity]|]. split; [lia|].
    apply Hval. unfold val, E1. rewrite E.
    replace (e1 + 1 + 1074) with (1 + (e1 + 1074)) by lia.
    rewrite Z.pow_add_r by lia. change (Zpos (2 ^ 52)) with 4503599627370496.
    change (2 ^ 1) with 2. ring.
  - destruct (Z.leb_spec e1 971) as [_|H]; [|lia].
    exists (Z.to_pos mr), e1. split; [reflexivity|].
    rewrite Z2Pos.id by lia. split; [lia|]. split; [lia|].
    apply Hval. unfold val. rewrite Z2Pos.id by lia. reflexivity.
Qed.

Lemma normal_digits (m : positive) :
  2 ^ 52 <= Zpos m < 2 ^ 53 -> Zdigits2 (Zpos m) = 53.
Proof.
  intros [Hl Hu].
  pose proof (Zdigits2_ge (Zpos m) 52 ltac:(lia) Hl).
  pose proof (Zdigits2_le (Zpos m) 53 ltac:(lia) ltac:(lia)). lia.
Qed.

Lemma pow2_pos (e : Z) : 0 <= e -> 0 < 2 ^ e.
Proof. intros He. apply Z.pow_pos_nonneg; lia. Qed.

(** *** Multiplication *)

Lemma SFmul_fl (lo1 hi1 lo2 hi2 : Z) (x y : spec_float) :
  fl lo1 hi1 x -> fl lo2 hi2 y ->
  -1074 <= lo1 -> -1074 <= lo2 ->
  -1074 <= lo1 + lo2 + 52 -> hi1 + hi2 + 53 <= 970 ->
  fl (lo1 + lo2 + 52) (hi1 + hi2 + 54) (SFmul prec emax x y) /\
  (2 ^ 53 - 1) * (sval x * sval y)
  <= 2 ^ 53 * (sval (SFmul prec emax x y) * 2 ^ 1074)
  <= (2 ^ 53 + 1) * (sval x * sval y).
Proof.
  intros [[sx ->]|(mx & ex & -> & Hmx & Hex)] [[sy ->]|(my & ey & -> & Hmy & Hey)] Hl1 Hl2 Hlo Hhi;
    try (split; [left; eexists; reflexivity | cbn [SFmul sval]; lia]).
  cbn [SFmul xorb sval].
  set (m := Zpos (mx * my)).
  assert (Em : m = Zpos mx * Zpos my) by reflexivity.
  assert (Hm : 2 ^ 104 <= m < 2 ^ 106).
  { change (2 ^ 104) with (2 ^ 52 * 2 ^ 52). change (2 ^ 106) with (2 ^ 53 * 2 ^ 53). nia. }
  assert (Hd : 105 <= Zdigits2 m <= 106).
  { pose proof (Zdigits2_ge m 104 ltac:(lia) ltac:(lia)).
    pose proof (Zdigits2_le m 106 ltac:(lia) ltac:(lia)). lia. }
  assert (H52 : 2 ^ 52 <= m) by (assert (2 ^ 52 <= 2 ^ 104) by discriminate; lia).
  destruct (bra_normal m (ex + ey) loc_Exact m 1 (val mx ex * val my ey) (2 ^ 1074))
    as (m' & e' & Hres & Hm' & He' & Hb);
    [lia | cbn [inb]; lia | exact H52 | lia | reflexivity | | ].
  - unfold val. set (d := Zdigits2 m) in *. clearbody d. rewrite Em.
    replace (Zpos mx * 2 ^ (ex + 1074) * (Zpos my * 2 ^ (ey + 1074)) * (1 * 2 ^ (d - 53)))
      with (Zpos mx * Zpos my * (2 ^ (ex + 1074) * 2 ^ (ey + 1074) * 2 ^ (d - 53))) by ring.
    rewrite <- !Z.mul_assoc. f_equal. f_equal.
    rewrite <- !Z.pow_add_r by lia. f_equal. lia.
  - rewrite Hres. split.
    + right. exists m', e'. split; [reflexivity|]. split; [exact Hm' | lia].
    + cbn [sval]. exact Hb.
Qed.

(** *** Division *)

Lemma new_location_spec (q den r : Z) :
  0 <= r < den -> inb q (new_location den r) (q * den + r) den.
Proof.
  intros Hr. unfold new_location.
  destruct (Z.even den) eqn:Ev.
  - unfold new_location_even. destruct (Z.eqb_spec r 0) as [->|Hn]; [cbn [inb]; lia|].
    destruct (Z.compare_spec (2 * r) den) as [E|L|G]; cbn [inb]; lia.
  - unfold new_location_odd. destruct (Z.eqb_spec r 0) as [->|Hn]; [cbn [inb]; lia|].
    assert (Hodd : 2 * r <> den).
    { intros E. rewrite <- E, Z.even_mul in Ev. discriminate. }
    destruct (Z.compare_spec (2 * r + 1) den) as [E|L|G]; cbn [inb]; lia.
Qed.

Lemma SFdiv_core_normal (mx my : positive) (ex ey : Z) :
  2 ^ 52 <= Zpos mx < 2 ^ 53 -> 2 ^ 52 <= Zpos my < 2 ^ 53 ->
  -1074 <= ex - ey - 53 ->
  exists q l,
    SFdiv_core_binary prec emax (Zpos mx) ex (Zpos my) ey = (q, ex - ey - 53, l) /\
    inb q l (Zpos mx * 2 ^ 53) (Zpos my) /\ 2 ^ 52 <= q < 2 ^ 54.
Proof.
  intros Hmx Hmy He. unfold SFdiv_core_binary.
  rewrite (normal_digits mx Hmx), (normal_digits my Hmy), fexp_eq.
  replace (Z.min (Z.max (53 + ex - (53 + ey) - 53) (-1074)) (ex - ey)) with (ex - ey - 53) by lia.
  replace (ex - ey - (ex - ey - 53)) with 53 by lia.
  cbv beta iota zeta. rewrite Z.shiftl_mul_pow2 by lia.
  pose proof (Z_div_mod (Zpos mx * 2 ^ 53) (Zpos my) ltac:(lia)) as Hdm.
  destruct (Z.div_eucl (Zpos mx * 2 ^ 53) (Zpos my)) as [q r].
  destruct Hdm as [Eq Hr].
  exists q, (new_location (Zpos my) r). split; [reflexivity|]. split.
  - rewrite Eq. replace (Zpos my * q + r) with (q * Zpos my + r) by ring.
    apply new_location_spec. exact Hr.
  - change (2 ^ 52) with 4503599627370496 in *. change (2 ^ 53) with 9007199254740992 in *.
    change (2 ^ 54) with 18014398509481984. nia.
Qed.

Lemma SFdiv_fl (lo1 hi1 lo2 hi2 : Z) (x y : spec_float) :
  fl lo1 hi1 x -> pfl lo2 hi2 y ->
  -1074 <= lo1 -> -1074 <= lo2 ->
  -1074 <= lo1 - hi2 - 53 -> hi1 - lo2 - 52 <= 970 ->
  fl (lo1 - hi2 - 53) (hi1 - lo2 - 51) (SFdiv prec emax x y) /\
  (2 ^ 53 - 1) * (sval x * 2 ^ 1074)
  <= 2 ^ 53 * (sval (SFdiv prec emax x y) * sval y)
  <= (2 ^ 53 + 1) * (sval x * 2 ^ 1074).
Proof.
  intros [[sx ->]|(mx & ex & -> & Hmx & Hex)] (my & ey & -> & Hmy & Hey) Hl1 Hl2 Hlo Hhi.
  { split; [left; eexists; reflexivity | cbn [SFdiv sval]; lia]. }
  cbn [SFdiv xorb sval].
  destruct (SFdiv_core_normal mx my ex ey Hmx Hmy ltac:(lia)) as (q & l & -> & Hin & Hq).
  assert (Hd : 53 <= Zdigits2 q <= 54).
  { pose proof (Zdigits2_ge q 52 ltac:(lia) ltac:(lia)).
    pose proof (Zdigits2_le q 54 ltac:(lia) ltac:(lia)). lia. }
  destruct (bra_normal q (ex - ey - 53) l (Zpos mx * 2 ^ 53) (Zpos my)
              (val mx ex * 2 ^ 1074) (val my ey))
    as (m' & e' & Hres & Hm' & He' & Hb);
    [lia | exact Hin | lia | lia | unfold val; assert (0 < 2 ^ (ey + 1074)) by (apply pow2_pos; lia); nia | | ].
  - unfold val.
    replace (Zpos mx * 2 ^ (ex + 1074) * 2 ^ 1074 * (Zpos my * 2 ^ (Zdigits2 q - 53)))
      with (Zpos mx * Zpos my * (2 ^ (ex + 1074) * 2 ^ 1074 * 2 ^ (Zdigits2 q - 53))) by ring.
    replace (Zpos mx * 2 ^ 53 * 2 ^ (Zdigits2 q + (ex - ey - 53) - 53 + 1074) * (Zpos my * 2 ^ (ey + 1074)))
      with (Zpos mx * Zpos my * (2 ^ 53 * 2 ^ (Zdigits2 q + (ex - ey - 53) - 53 + 1074) * 2 ^ (ey + 1074))) by ring.
    f_equal. rewrite <- !Z.pow_add_r by lia. f_equal. lia.
  - rewrite Hres. split.
    + right. exists m', e'. split; [reflexivity|]. split; [exact Hm' | lia].
    + cbn [sval]. exact Hb.
Qed.

(** *** Addition *)

Lemma iter_xO (m d : positive) : Zpos (Pos.iter xO m d) = Zpos m * 2 ^ Zpos d.
Proof.
  induction d as [|d IH] using Pos.peano_ind.
  - cbn [Pos.iter]. rewrite (Pos2Z.inj_xO m). change (2 ^ 1) with 2. ring.
  - rewrite Pos.iter_succ, (Pos2Z.inj_xO (Pos.iter xO m d)), IH, Pos2Z.inj_succ.
    unfold Z.succ. rewrite Z.pow_add_r by lia. change (2 ^ 1) with 2. ring.
Qed.

Lemma shl_align_fst (m : positive) (e e' : Z) :
  e' <= e -> Zpos (fst (shl_align m e e')) = Zpos m * 2 ^ (e - e').
Proof.
  intros He. unfold shl_align.
  destruct (e' - e) as [|d|d] eqn:Ed; cbn [fst].
  - replace (e - e') with 0 by lia. change (2 ^ 0) with 1. ring.
  - lia.
  - rewrite iter_xO. f_equal. f_equal. lia.
Qed.

Lemma shl_align_same (m : positive) (e e' : Z) :
  e <= e' -> shl_align m e e' = (m, e).
Proof.
  intros He. unfold shl_align. destruct (e' - e) as [|d|d] eqn:Ed; try reflexivity. lia.
Qed.

Lemma SFadd_fl (lo hi : Z) (x y : spec_float) :
  fl lo hi x -> fl lo hi y -> -1074 <= lo -> hi + 1 <= 970 ->
  fl lo (hi + 2) (SFadd prec emax x y) /\
  (2 ^ 53 - 1) * (sval x + sval y)
  <= 2 ^ 53 * sval (SFadd prec emax x y)
  <= (2 ^ 53 + 1) * (sval x + sval y).
Proof.
  intros [[sx ->]|(mx & ex & -> & Hmx & Hex)] [[sy ->]|(my & ey & -> & Hmy & Hey)] Hlo Hhi.
  - split; [left; destruct sx, sy; eexists; reflexivity | destruct sx, sy; cbn [SFadd sval]; lia].
  - cbn [SFadd sval].
    split; [right; exists my, ey; split; [reflexivity | split; [exact Hmy | lia]] |].
    assert (0 < val my ey) by (unfold val; assert (0 < 2 ^ (ey + 1074)) by (apply pow2_pos; lia); nia).
    change (2 ^ 53) with 9007199254740992. lia.
  - cbn [SFadd sval].
    split; [right; exists mx, ex; split; [reflexivity | split; [exact Hmx | lia]] |].
    assert (0 < val mx ex) by (unfold val; assert (0 < 2 ^ (ex + 1074)) by (apply pow2_pos; lia); nia).
    change (2 ^ 53) with 9007199254740992. lia.
  - cbn [SFadd cond_Zopp sval].
    set (ez := Z.min ex ey).
    set (a := fst (shl_align mx ex ez)). set (b := fst (shl_align my ey ez)).
    assert (Ea : Zpos a = Zpos mx * 2 ^ (ex - ez)) by (apply shl_align_fst; unfold ez; lia).
    assert (Eb : Zpos b = Zpos my * 2 ^ (ey - ez)) by (apply shl_align_fst; unfold ez; lia).
    change (Zpos a + Zpos b) with (Zpos (a + b)). cbn [binary_normalize].
    set (k := Z.max ex ey - ez).
    assert (Hk : 0 <= k) by (unfold k, ez; lia).
    assert (Epk : 2 ^ (ex - ez) * 2 ^ (ey - ez) = 2 ^ k).
    { rewrite <- Z.pow_add_r by (unfold ez; lia). f_equal. unfold k, ez. lia. }
    assert (H1 : 2 ^ (ex - ez) = 1 \/ 2 ^ (ey - ez) = 1).
    { destruct (Z.le_ge_cases ex ey).
      - left. replace (ex - ez) with 0 by (unfold ez; lia). reflexivity.
      - right. replace (ey - ez) with 0 by (unfold ez; lia). reflexivity. }
    assert (Hpa : 0 < 2 ^ (ex - ez)) by (apply pow2_pos; unfold ez; lia).
    assert (Hpb : 0 < 2 ^ (ey - ez)) by (apply pow2_pos; unfold ez; lia).
    set (S := Zpos (a + b)).
    assert (ES : S = Zpos a + Zpos b) by reflexivity.
    assert (HS : 2 ^ (52 + k) <= S < 2 ^ (54 + k)).
    { rewrite !Z.pow_add_r by lia. rewrite <- Epk.
      change (2 ^ 52) with 4503599627370496 in *. change (2 ^ 53) with 9007199254740992 in *.
      change (2 ^ 54) with 18014398509481984.
      rewrite ES, Ea, Eb.
      set (pa := 2 ^ (ex - ez)) in *. set (pb := 2 ^ (ey - ez)) in *.
      clearbody pa pb. destruct H1 as [-> | ->]; nia. }
    assert (Hd : 53 + k <= Zdigits2 S <= 54 + k).
    { pose proof (Zdigits2_ge S (52 + k) ltac:(lia) ltac:(lia)).
      pose proof (Zdigits2_le S (54 + k) ltac:(lia) ltac:(lia)). lia. }
    assert (H52 : 2 ^ 52 <= S).
    { assert (2 ^ 52 <= 2 ^ (52 + k)) by (apply Z.pow_le_mono_r; lia). lia. }
    unfold binary_round. change (Zpos (digits2_pos (a + b))) with (Zdigits2 S).
    rewrite shl_align_same by (rewrite fexp_eq; lia).
    destruct (bra_normal S ez loc_Exact S 1 (val mx ex + val my ey) 1)
      as (m' & e' & Hres & Hm' & He' & Hb);
      [lia | cbn [inb]; lia | exact H52 | unfold k in *; lia | lia | | ].
    + unfold val. set (d := Zdigits2 S) in *. clearbody d. rewrite ES, Ea, Eb.
      replace (ex + 1074) with (ex - ez + (ez + 1074)) by lia.
      replace (ey + 1074) with (ey - ez + (ez + 1074)) by lia.
      rewrite (Z.pow_add_r 2 (ex - ez) (ez + 1074)) by (unfold ez; lia).
      rewrite (Z.pow_add_r 2 (ey - ez) (ez + 1074)) by (unfold ez; lia).
      replace (d + ez - 53 + 1074) with (ez + 1074 + (d - 53)) by lia.
      rewrite (Z.pow_add_r 2 (ez + 1074) (d - 53)) by (unfold ez; lia).
      ring.
    + fold S. rewrite Hres. split.
      * right. exists m', e'. split; [reflexivity|]. split; [exact Hm' | unfold k, ez in *; lia].
      * cbn [sval]. rewrite Z.mul_1_r in Hb. exact Hb.
Qed.

End Error64.

Module Between64.
Import Round64 Error64.

(** ** Rounding between two integers *)

(** A float that is a zero or a positive finite number. *)
Definition fn (f : spec_float) : Prop :=
  (exists s, f = S754_zero s) \/ exists m e, f = S754_finite false m e.

(** Rounding is monotone and leaves the integers up to [2 ^ 52] where they
    are: a number between two of them is rounded to a float between them.
    The number is [num / den * 2 ^ (b - a)]. *)
Lemma bra_between (mx ex : Z) (lx : location) (num den lo hi a b : Z) :
  0 <= mx -> 0 < den -> inb mx lx num den ->
  ex <= fexp prec emax (Zdigits2 mx + ex) ->
  0 <= a -> 0 <= b -> b - a = ex ->
  0 <= lo <= hi -> hi <= 2 ^ 52 ->
  lo * den * 2 ^ a <= num * 2 ^ b <= hi * den * 2 ^ a ->
  fn (binary_round_aux prec emax false mx ex lx) /\
  lo * 2 ^ 1074 <= sval (binary_round_aux prec emax false mx ex lx) <= hi * 2 ^ 1074.
Proof.
  intros Hmx Hden Hin Hex Ha Hb Hab Hlh Hhi Hbd.
  set (d := Zdigits2 mx) in *.
  assert (HF : fexp prec emax (d + ex) = Z.max (d + ex - 53) (-1074)) by apply fexp_eq.
  assert (Hpa : 0 < 2 ^ a) by (apply pow2_pos; lia).
  assert (Hpb : 0 < 2 ^ b) by (apply pow2_pos; lia).
  assert (Hnum : mx * den <= num).
  { destruct lx as [|[| |]]; cbn [inb] in Hin; nia. }
  assert (HF0 : fexp prec emax (d + ex) <= 0).
  { destruct (Z.eq_dec mx 0) as [E|N].
    - subst mx. change d with 0 in *. lia.
    - destruct (Zdigits2_spec mx ltac:(lia)) as (Hd0 & Hdl & _). fold d in Hd0, Hdl.
      assert (H1 : mx * 2 ^ b <= 2 ^ 52 * 2 ^ a).
      { assert (mx * den * 2 ^ b <= hi * den * 2 ^ a) by nia.
        assert (mx * 2 ^ b <= hi * 2 ^ a) by nia. nia. }
      assert (H2 : 2 ^ (d - 1 + b) <= 2 ^ (52 + a)).
      { rewrite !Z.pow_add_r by lia. nia. }
      apply Z.pow_le_mono_r_iff in H2; lia. }
  destruct (bra_spec false mx ex lx num den Hmx Hden Hin Hex) as (mr & Hmr & Hbnd & Hres).
  fold d in Hbnd, Hres.
  set (F := fexp prec emax (d + ex)) in *.
  set (n := F - ex) in *.
  assert (Hn : 0 <= n) by (unfold n; lia).
  assert (Hpn : 0 < 2 ^ n) by (apply pow2_pos; lia).
  assert (HpF : 0 < 2 ^ (- F)) by (apply pow2_pos; lia).
  assert (Epa : 2 ^ a = 2 ^ b * (2 ^ (- F) * 2 ^ n)).
  { rewrite <- !Z.pow_add_r by lia. f_equal. unfold n. lia. }
  set (D := den * 2 ^ n) in *.
  assert (HD : 0 < D) by (unfold D; nia).
  assert (Hj : lo * 2 ^ (- F) * D <= num <= hi * 2 ^ (- F) * D).
  { rewrite Epa in Hbd. unfold D.
    split; apply (Z.mul_le_mono_pos_r _ _ (2 ^ b) Hpb); nia. }
  assert (Hmrj : lo * 2 ^ (- F) <= mr <= hi * 2 ^ (- F)).
  { set (jl := lo * 2 ^ (- F)) in *. set (jh := hi * 2 ^ (- F)) in *.
    clearbody jl jh D. split; nia. }
  rewrite Hres.
  assert (ES : 2 ^ 1074 = 2 ^ (- F) * 2 ^ (F + 1074)).
  { rewrite <- Z.pow_add_r by lia. f_equal. lia. }
  assert (HpE : 0 < 2 ^ (F + 1074)) by (apply pow2_pos; lia).
  destruct (finish_val mr F Hmr ltac:(lia) ltac:(lia)) as [[E0 Ez]|(m' & e' & Ef & Ev)].
  - rewrite Ez. split; [left; exists false; reflexivity|]. cbn [sval].
    assert (lo * 2 ^ (- F) <= 0) by lia.
    assert (0 < 2 ^ 1074) by reflexivity. nia.
  - rewrite Ef. split; [right; exists m', e'; reflexivity|]. cbn [sval].
    rewrite Ev, ES.
    set (E := 2 ^ (F + 1074)) in *. set (G := 2 ^ (- F)) in *. clearbody E G.
    split; nia.
Qed.

Lemma Zdigits2_shift (m : positive) (k : Z) :
  0 <= k -> Zdigits2 (Zpos m * 2 ^ k) = Zdigits2 (Zpos m) + k.
Proof.
  intros Hk. destruct (Zdigits2_spec (Zpos m) ltac:(lia)) as (Hd & Hl & Hu).
  set (d := Zdigits2 (Zpos m)) in *.
  assert (Hpk : 0 < 2 ^ k) by (apply pow2_pos; lia).
  assert (H1 : 2 ^ (d + k - 1) <= Zpos m * 2 ^ k).
  { replace (d + k - 1) with (d - 1 + k) by lia. rewrite Z.pow_add_r by lia. nia. }
  assert (H2 : Zpos m * 2 ^ k < 2 ^ (d + k)).
  { rewrite Z.pow_add_r by lia. nia. }
  pose proof (Zdigits2_ge (Zpos m * 2 ^ k) (d + k - 1) ltac:(lia) H1).
  pose proof (Zdigits2_le (Zpos m * 2 ^ k) (d + k) ltac:(lia) ltac:(lia)). lia.
Qed.

Lemma shl_align_spec (m : positive) (e e' : Z) :
  snd (shl_align m e e') = Z.min e e' /\
  Zpos (fst (shl_align m e e')) = Zpos m * 2 ^ (e - Z.min e e').
Proof.
  unfold shl_align. destruct (e' - e) as [|d|d] eqn:Ed; cbn [fst snd].
  - split; [lia|]. replace (e - Z.min e e') with 0 by lia. change (2 ^ 0) with 1. ring.
  - split; [lia|]. replace (e - Z.min e e') with 0 by lia. change (2 ^ 0) with 1. ring.
  - split; [lia|]. rewrite iter_xO. f_equal. f_equal. lia.
Qed.

Lemma binary_round_between (M : positive) (e lo hi : Z) :
  -1074 <= e -> 0 <= lo <= hi -> hi <= 2 ^ 52 ->
  lo * 2 ^ 1074 <= Zpos M * 2 ^ (e + 1074) <= hi * 2 ^ 1074 ->
  fn (binary_round prec emax false M e) /\
  lo * 2 ^ 1074 <= sval (binary_round prec emax false M e) <= hi * 2 ^ 1074.
Proof.
  intros He Hlh Hhi Hb. unfold binary_round.
  set (F := fexp prec emax (Zpos (digits2_pos M) + e)).
  assert (HF : -1074 <= F) by (unfold F; rewrite fexp_eq; lia).
  destruct (shl_align_spec M e F) as [Es Ef].
  destruct (shl_align M e F) as [mz ez]. cbn [fst snd] in Es, Ef.
  assert (Hez : -1074 <= ez <= e) by lia.
  assert (Hd : Zdigits2 (Zpos mz) + ez = Zpos (digits2_pos M) + e).
  { rewrite Ef, Es, Zdigits2_shift by lia. cbn [Zdigits2]. lia. }
  apply (bra_between (Zpos mz) ez loc_Exact (Zpos mz) 1 lo hi 1074 (ez + 1074));
    try lia.
  - cbn [inb]. lia.
  - rewrite Hd. fold F. lia.
  - rewrite Ef, Es.
    replace (Zpos M * 2 ^ (e - Z.min e F) * 2 ^ (Z.min e F + 1074))
      with (Zpos M * (2 ^ (e - Z.min e F) * 2 ^ (Z.min e F + 1074))) by ring.
    rewrite <- Z.pow_add_r by lia.
    replace (e - Z.min e F + (Z.min e F + 1074)) with (e + 1074) by lia. lia.
Qed.

Lemma valid_exponent (s : bool) (m : positive) (e : Z) :
  valid_binary (S754_finite s m e) = true ->
  -1074 <= e <= 971 /\ Zdigits2 (Zpos m) <= 53 /\ (-1074 < e -> Zdigits2 (Zpos m) = 53).
Proof.
  intros Hv. destruct (valid_finite s m e Hv) as [He Hmax]. cbn [Zdigits2]. lia.
Qed.

Lemma val_pos (m : positive) (e : Z) : -1074 <= e -> 0 < val m e.
Proof.
  intros He. unfold val. assert (0 < 2 ^ (e + 1074)) by (apply pow2_pos; lia). nia.
Qed.

(** *** Addition *)

Lemma SFadd_between (x y : spec_float) (lo hi : Z) :
  valid_binary x = true -> valid_binary y = true -> fn x -> fn y ->
  0 <= lo <= hi -> hi <= 2 ^ 52 ->
  lo * 2 ^ 1074 <= sval x + sval y <= hi * 2 ^ 1074 ->
  fn (SFadd prec emax x y) /\
  lo * 2 ^ 1074 <= sval (SFadd prec emax x y) <= hi * 2 ^ 1074.
Proof.
  intros Vx Vy [[sx ->]|(mx & ex & ->)] [[sy ->]|(my & ey & ->)] Hlh Hhi Hb.
  - destruct sx, sy; (split; [left; eexists; reflexivity | exact Hb]).
  - cbn [SFadd]. split; [right; eexists _, _; reflexivity | exact Hb].
  - cbn [SFadd]. split; [right; eexists _, _; reflexivity |].
    cbn [sval] in *. lia.
  - destruct (valid_exponent _ _ _ Vx) as (Hex & _).
    destruct (valid_exponent _ _ _ Vy) as (Hey & _).
    cbn [SFadd cond_Zopp]. cbn [sval] in Hb.
    set (ez := Z.min ex ey).
    destruct (shl_align_spec mx ex ez) as [_ Ea].
    destruct (shl_align_spec my ey ez) as [_ Eb].
    replace (Z.min ex ez) with ez in Ea by (unfold ez; lia).
    replace (Z.min ey ez) with ez in Eb by (unfold ez; lia).
    set (a := fst (shl_align mx ex ez)) in *. set (b := fst (shl_align my ey ez)) in *.
    change (Zpos a + Zpos b) with (Zpos (a + b)). cbn [binary_normalize].
    apply binary_round_between; [unfold ez; lia | lia | lia |].
    replace (Zpos (a + b)) with (Zpos a + Zpos b) by reflexivity.
    rewrite Ea, Eb.
    replace ((Zpos mx * 2 ^ (ex - ez) + Zpos my * 2 ^ (ey - ez)) * 2 ^ (ez + 1074))
      with (Zpos mx * (2 ^ (ex - ez) * 2 ^ (ez + 1074))
            + Zpos my * (2 ^ (ey - ez) * 2 ^ (ez + 1074))) by ring.
    rewrite <- !Z.pow_add_r by (unfold ez; lia).
    replace (ex - ez + (ez + 1074)) with (ex + 1074) by lia.
    replace (ey - ez + (ez + 1074)) with (ey + 1074) by lia.
    exact Hb.
Qed.

(** *** Multiplication *)

Lemma SFmul_between (x y : spec_float) (lo hi : Z) :
  valid_binary x = true -> valid_binary y = true -> fn x -> fn y ->
  0 <= lo <= hi -> hi <= 2 ^ 52 ->
  lo * (2 ^ 1074 * 2 ^ 1074) <= sval x * sval y <= hi * (2 ^ 1074 * 2 ^ 1074) ->
  fn (SFmul prec emax x y) /\
  lo * 2 ^ 1074 <= sval (SFmul prec emax x y) <= hi * 2 ^ 1074.
Proof.
  assert (HS : 0 < 2 ^ 1074) by reflexivity.
  intros Vx Vy [[sx ->]|(mx & ex & ->)] [[sy ->]|(my & ey & ->)] Hlh Hhi Hb;
    try (split; [left; eexists; reflexivity |]; cbn [SFmul sval] in *; nia).
  destruct (valid_exponent _ _ _ Vx) as (Hex & Hdx & Hnx).
  destruct (valid_exponent _ _ _ Vy) as (Hey & Hdy & Hny).
  cbn [SFmul xorb]. cbn [sval] in Hb.
  set (m := Zpos (mx * my)).
  assert (Em : m = Zpos mx * Zpos my) by reflexivity.
  apply (bra_between m (ex + ey) loc_Exact m 1 lo hi 2148 (ex + ey + 2148)); try lia.
  - cbn [inb]. lia.
  - rewrite fexp_eq.
    destruct (Z.le_gt_cases (ex + ey) (-1074)) as [H|H]; [lia|].
    assert (H52 : 2 ^ 52 <= m).
    { destruct (Z.eq_dec ex (-1074)) as [E|N].
      - specialize (Hny ltac:(lia)).
        destruct (Zdigits2_spec (Zpos my) ltac:(lia)) as (_ & Hl & _).
        rewrite Hny in Hl. change (2 ^ (53 - 1)) with (2 ^ 52) in Hl. nia.
      - specialize (Hnx ltac:(lia)).
        destruct (Zdigits2_spec (Zpos mx) ltac:(lia)) as (_ & Hl & _).
        rewrite Hnx in Hl. change (2 ^ (53 - 1)) with (2 ^ 52) in Hl. nia. }
    pose proof (Zdigits2_ge m 52 ltac:(lia) H52). lia.
  - unfold val in Hb. rewrite Em.
    change (2 ^ 2148) with (2 ^ 1074 * 2 ^ 1074). rewrite !Z.mul_1_r.
    replace (Zpos mx * Zpos my * 2 ^ (ex + ey + 2148))
      with (Zpos mx * 2 ^ (ex + 1074) * (Zpos my * 2 ^ (ey + 1074))); [exact Hb|].
    replace (ex + ey + 2148) with ((ex + 1074) + (ey + 1074)) by lia.
    rewrite (Z.pow_add_r 2 (ex + 1074) (ey + 1074)) by lia. ring.
Qed.

(** *** Division *)

Lemma SFdiv_core_spec (mx my : positive) (ex ey : Z) :
  Zdigits2 (Zpos mx) <= 53 ->
  exists q l s,
    SFdiv_core_binary prec emax (Zpos mx) ex (Zpos my) ey = (q, ex - ey - s, l) /\
    0 <= q /\ 0 <= s /\ inb q l (Zpos mx * 2 ^ s) (Zpos my) /\
    ex - ey - s <= fexp prec emax (Zdigits2 q + (ex - ey - s)).
Proof.
  intros Hdx. unfold SFdiv_core_binary.
  set (d1 := Zdigits2 (Zpos mx)) in *. set (d2 := Zdigits2 (Zpos my)).
  set (e' := Z.min (fexp prec emax (d1 + ex - (d2 + ey))) (ex - ey)).
  set (s := ex - ey - e').
  assert (Hs : 0 <= s) by (unfold s, e'; lia).
  set (m' := match s with Z0 => Zpos mx | Zpos _ => Z.shiftl (Zpos mx) s | Zneg _ => 0 end).
  assert (Em' : m' = Zpos mx * 2 ^ s).
  { unfold m'. destruct s as [|p|p] eqn:Es.
    - change (2 ^ 0) with 1. ring.
    - rewrite Z.shiftl_mul_pow2 by lia. reflexivity.
    - lia. }
  pose proof (Z_div_mod m' (Zpos my) ltac:(lia)) as Hdm.
  destruct (Z.div_eucl m' (Zpos my)) as [q r]. destruct Hdm as [Eq Hr].
  assert (Hps : 0 < 2 ^ s) by (apply pow2_pos; lia).
  assert (Hq : 0 <= q) by nia.
  exists q, (new_location (Zpos my) r), s.
  replace (ex - ey - s) with e' by (unfold s; lia).
  split; [reflexivity|]. split; [exact Hq|]. split; [exact Hs|]. split.
  - rewrite <- Em', Eq. replace (Zpos my * q + r) with (q * Zpos my + r) by ring.
    apply new_location_spec. exact Hr.
  - rewrite fexp_eq.
    destruct (Z.le_gt_cases e' (-1074)) as [H|H]; [lia|].
    assert (He' : e' <= d1 + ex - (d2 + ey) - 53) by (unfold e' in *; rewrite fexp_eq in *; lia).
    destruct (Zdigits2_spec (Zpos mx) ltac:(lia)) as (Hd1 & Hl1 & _). fold d1 in Hd1, Hl1.
    destruct (Zdigits2_spec (Zpos my) ltac:(lia)) as (Hd2 & _ & Hu2). fold d2 in Hd2, Hu2.
    assert (Hss : 53 - d1 + d2 <= s) by (unfold s; lia).
    assert (H1 : 2 ^ (52 + d2) <= m').
    { rewrite Em'.
      assert (2 ^ (53 - d1 + d2) <= 2 ^ s) by (apply Z.pow_le_mono_r; lia).
      replace (52 + d2) with (d1 - 1 + (53 - d1 + d2)) by lia.
      rewrite Z.pow_add_r by lia.
      assert (0 < 2 ^ (d1 - 1)) by (apply pow2_pos; lia). nia. }
    rewrite Z.pow_add_r in H1 by lia.
    assert (H52 : 2 ^ 52 <= q).
    { change (2 ^ 52) with 4503599627370496 in *.
      assert (0 < 2 ^ d2) by (apply pow2_pos; lia). nia. }
    pose proof (Zdigits2_ge q 52 ltac:(lia) H52). lia.
Qed.

Lemma SFdiv_between (x y : spec_float) (lo hi : Z) :
  valid_binary x = true -> valid_binary y = true -> fn x -> 0 < sval y ->
  0 <= lo <= hi -> hi <= 2 ^ 52 ->
  lo * sval y <= sval x <= hi * sval y ->
  fn (SFdiv prec emax x y) /\
  lo * 2 ^ 1074 <= sval (SFdiv prec emax x y) <= hi * 2 ^ 1074.
Proof.
  assert (HS : 0 < 2 ^ 1074) by reflexivity.
  intros Vx Vy Hx Hy Hlh Hhi Hb.
  destruct y as [sy|sy| |sy my ey]; try (cbn [sval] in Hy; lia).
  destruct sy; [cbn [sval] in Hy; lia|]. cbn [sval] in Hy, Hb.
  destruct (valid_exponent _ _ _ Vy) as (Hey & Hdy & _).
  destruct Hx as [[sx ->]|(mx & ex & ->)].
  - cbn [sval] in Hb. split; [left; eexists; reflexivity |]. cbn [SFdiv sval]. nia.
  - destruct (valid_exponent _ _ _ Vx) as (Hex & Hdx & _).
    cbn [SFdiv xorb]. cbn [sval] in Hb.
    destruct (SFdiv_core_spec mx my ex ey Hdx) as (q & l & s & -> & Hq & Hs & Hin & Hpre).
    apply (bra_between q (ex - ey - s) l (Zpos mx * 2 ^ s) (Zpos my) lo hi
             (ey + 1074 + s) (ex + 1074)); try lia; try assumption.
    unfold val in Hb.
    assert (Hps : 0 < 2 ^ s) by (apply pow2_pos; lia).
    replace (lo * Zpos my * 2 ^ (ey + 1074 + s))
      with (lo * (Zpos my * 2 ^ (ey + 1074)) * 2 ^ s)
      by (rewrite (Z.pow_add_r 2 (ey + 1074) s) by lia; ring).
    replace (hi * Zpos my * 2 ^ (ey + 1074 + s))
      with (hi * (Zpos my * 2 ^ (ey + 1074)) * 2 ^ s)
      by (rewrite (Z.pow_add_r 2 (ey + 1074) s) by lia; ring).
    replace (Zpos mx * 2 ^ s * 2 ^ (ex + 1074)) with (Zpos mx * 2 ^ (ex + 1074) * 2 ^ s) by ring.
    split; apply Z.mul_le_mono_nonneg_r; lia.
Qed.

End Between64.

(** ** Measured times *)

Module Timing.

(** The durations the analysis is specified for, in microseconds: none at all,
    or between [2 ^ -500] and [2 ^ 500]. *)
Definition shortest : float := 0x1p-500%float.
Definition longest : float := 0x1p+500%float.

Definition measured (x : float) : bool :=
  PrimFloat.eqb x 0 || (PrimFloat.leb shortest x && PrimFloat.leb x longest).

(** [100 - 2 ^ -44] and [100 + 2 ^ -44]: four units in the last place of 100
    on either side. *)
Definition below_100 : float := 0x1.8fffffffffffcp+6%float.
Definition above_100 : float := 0x1.9000000000004p+6%float.

End Timing.

Module Ratios64.
Import Round64 Error64.

Lemma Prim2SF_shortest : Prim2SF Timing.shortest = S754_finite false (2 ^ 52) (-552).
Proof. vm_compute. reflexivity. Qed.

Lemma Prim2SF_longest : Prim2SF Timing.longest = S754_finite false (2 ^ 52) 448.
Proof. vm_compute. reflexivity. Qed.

Lemma Prim2SF_below_100 :
  Prim2SF Timing.below_100 = S754_finite false 7036874417766396 (-46).
Proof. vm_compute. reflexivity. Qed.

Lemma Prim2SF_above_100 :
  Prim2SF Timing.above_100 = S754_finite false 7036874417766404 (-46).
Proof. vm_compute. reflexivity. Qed.

Lemma Prim2SF_dofint_100 :
  Prim2SF (dofint (DoubleOps := Binary64.ops) 100) = S754_finite false c100 (-46).
Proof. vm_compute. reflexivity. Qed.

Lemma Prim2SF_zero : Prim2SF 0%float = S754_zero false.
Proof. reflexivity. Qed.

Lemma measured_fl (x : float) :
  Timing.measured x = true -> fl (-552) 448 (Prim2SF x).
Proof.
  unfold Timing.measured. rewrite orb_true_iff, andb_true_iff.
  rewrite FloatAxioms.eqb_spec, !FloatAxioms.leb_spec.
  rewrite Prim2SF_zero, Prim2SF_shortest, Prim2SF_longest.
  pose proof (FloatAxioms.Prim2SF_valid x) as Hv.
  destruct (Prim2SF x) as [s|s| |s m e].
  - intros _. left. exists s. reflexivity.
  - intros [H|[H1 H2]]; destruct s; discriminate.
  - intros [H|[H1 H2]]; discriminate.
  - intros [H|[H1 H2]]; [destruct s; cbn in H; discriminate H|].
    destruct s; [cbn in H1; discriminate H1|].
    unfold SFleb in H1, H2.
    rewrite SFcompare_finite in H1, H2 by (exact Hv || reflexivity).
    destruct (valid_val _ _ _ Hv) as (He & Hu & Hn).
    unfold val in H1, H2.
    change (Zpos (2 ^ 52)) with (2 ^ 52) in *.
    assert (L1 : 2 ^ 52 * 2 ^ (-552 + 1074) <= Zpos m * 2 ^ (e + 1074)).
    { destruct (Z.compare_spec (2 ^ 52 * 2 ^ (-552 + 1074)) (Zpos m * 2 ^ (e + 1074)));
        try discriminate; lia. }
    assert (L2 : Zpos m * 2 ^ (e + 1074) <= 2 ^ 52 * 2 ^ (448 + 1074)).
    { destruct (Z.compare_spec (Zpos m * 2 ^ (e + 1074)) (2 ^ 52 * 2 ^ (448 + 1074)));
        try discriminate; lia. }
    clear H1 H2.
    assert (Hp : 0 < 2 ^ (e + 1074)) by (apply pow2_pos; lia).
    assert (Hlo : -552 <= e).
    { destruct (Z.le_gt_cases (-552) e) as [H|H]; [exact H|exfalso].
      assert (2 ^ (e + 1074) <= 2 ^ 521) by (apply Z.pow_le_mono_r; lia).
      change (-552 + 1074) with (1 + 521) in L1. rewrite Z.pow_add_r in L1 by lia.
      assert (0 < 2 ^ 521) by reflexivity.
      change (2 ^ 52) with 4503599627370496 in *. change (2 ^ 53) with 9007199254740992 in *.
      change (2 ^ 1) with 2 in *. nia. }
    specialize (Hn ltac:(lia)).
    assert (Hhi : e <= 448).
    { destruct (Z.le_gt_cases e 448) as [H|H]; [exact H|exfalso].
      assert (2 ^ (1 + (448 + 1074)) <= 2 ^ (e + 1074)) by (apply Z.pow_le_mono_r; lia).
      rewrite Z.pow_add_r in H0 by lia.
      assert (0 < 2 ^ (448 + 1074)) by reflexivity.
      change (2 ^ 52) with 4503599627370496 in *. change (2 ^ 53) with 9007199254740992 in *.
      change (2 ^ 1) with 2 in *. nia. }
    right. exists m, e. split; [reflexivity|]. split; [lia | lia].
Qed.

Lemma positive_pfl (lo hi : Z) (t : float) :
  PrimFloat.ltb 0 t = true -> fl lo hi (Prim2SF t) -> pfl lo hi (Prim2SF t).
Proof.
  rewrite FloatAxioms.ltb_spec, Prim2SF_zero.
  intros H [[s E]|Hp]; [|exact Hp]. rewrite E in H. discriminate H.
Qed.

Lemma ratio_algebra (c m t q1 q2 r1 r2 s S : Z) :
  0 < S -> 0 < t ->
  9007199254740991 * (c + m) <= 9007199254740992 * t <= 9007199254740993 * (c + m) ->
  9007199254740991 * (c * S) <= 9007199254740992 * (q1 * t) <= 9007199254740993 * (c * S) ->
  9007199254740991 * (m * S) <= 9007199254740992 * (q2 * t) <= 9007199254740993 * (m * S) ->
  9007199254740991 * (q1 * (100 * S)) <= 9007199254740992 * (r1 * S)
  <= 9007199254740993 * (q1 * (100 * S)) ->
  9007199254740991 * (q2 * (100 * S)) <= 9007199254740992 * (r2 * S)
  <= 9007199254740993 * (q2 * (100 * S)) ->
  9007199254740991 * (r1 + r2) <= 9007199254740992 * s <= 9007199254740993 * (r1 + r2) ->
  7036874417766396 * S <= 70368744177664 * s <= 7036874417766404 * S.
Proof.
  intros HS Ht [A1 A2] [D1 D1'] [D2 D2'] [M1 M1'] [M2 M2'] [U1 U1'].
  assert (R1 : 9007199254740991 * (100 * q1) <= 9007199254740992 * r1
               <= 9007199254740993 * (100 * q1)).
  { split; apply (Z.mul_le_mono_pos_r _ _ S HS); lia. }
  assert (R2 : 9007199254740991 * (100 * q2) <= 9007199254740992 * r2
               <= 9007199254740993 * (100 * q2)).
  { split; apply (Z.mul_le_mono_pos_r _ _ S HS); lia. }
  clear M1 M1' M2 M2'. destruct R1 as [R1 R1'], R2 as [R2 R2'].
  assert (B : 9007199254740991 * 9007199254740991 * 100 * (q1 + q2)
              <= 9007199254740992 * 9007199254740992 * s
              <= 9007199254740993 * 9007199254740993 * 100 * (q1 + q2)) by lia.
  destruct B as [B B'].
  assert (C : 9007199254740991 * 9007199254740991 * 100 * (q1 * t + q2 * t)
              <= 9007199254740992 * 9007199254740992 * (s * t)
              <= 9007199254740993 * 9007199254740993 * 100 * (q1 * t + q2 * t)).
  { split.
    - apply (Z.mul_le_mono_nonneg_r _ _ t ltac:(lia)) in B. lia.
    - apply (Z.mul_le_mono_nonneg_r _ _ t ltac:(lia)) in B'. lia. }
  destruct C as [C C'].
  assert (E : 9007199254740991 * (c * S + m * S) <= 9007199254740992 * (t * S)
              <= 9007199254740993 * (c * S + m * S)).
  { split.
    - apply (Z.mul_le_mono_nonneg_r _ _ S ltac:(lia)) in A1. lia.
    - apply (Z.mul_le_mono_nonneg_r _ _ S ltac:(lia)) in A2. lia. }
  destruct E as [E E'].
  assert (G : 9007199254740991 * 9007199254740991 * 9007199254740991 * 100 * S * t
              <= 9007199254740993 * 9007199254740992 * 9007199254740992 * s * t
              /\ 9007199254740992 * 9007199254740992 * 9007199254740991 * s * t
              <= 9007199254740993 * 9007199254740993 * 9007199254740993 * 100 * S * t) by lia.
  destruct G as [G G'].
  apply Z.mul_le_mono_pos_r in G; [|exact Ht].
  apply Z.mul_le_mono_pos_r in G'; [|exact Ht].
  lia.
Qed.

Lemma sval_100 : sval (S754_finite false c100 (-46)) = 100 * 2 ^ 1074.
Proof. vm_compute. reflexivity. Qed.

Lemma leb_below_100 (lo hi : Z) (x : float) :
  fl lo hi (Prim2SF x) ->
  7036874417766396 * 2 ^ 1074 <= 70368744177664 * sval (Prim2SF x) ->
  PrimFloat.leb Timing.below_100 x = true.
Proof.
  intros Hx Hb. rewrite FloatAxioms.leb_spec, Prim2SF_below_100.
  pose proof (FloatAxioms.Prim2SF_valid x) as Hv.
  assert (HT : 0 < 2 ^ 1028) by reflexivity.
  change (2 ^ 1074) with (70368744177664 * 2 ^ 1028) in Hb.
  destruct Hx as [[s E]|(m & e & E & Hm & He)]; rewrite E in *.
  - cbn [sval] in Hb. lia.
  - unfold SFleb. rewrite SFcompare_finite by (exact Hv || reflexivity).
    cbn [sval] in Hb.
    assert (Hle : val 7036874417766396 (-46) <= val m e).
    { change (val 7036874417766396 (-46)) with (7036874417766396 * 2 ^ 1028). lia. }
    destruct (Z.compare_spec (val 7036874417766396 (-46)) (val m e)); try reflexivity. lia.
Qed.

Lemma leb_above_100 (lo hi : Z) (x : float) :
  fl lo hi (Prim2SF x) ->
  70368744177664 * sval (Prim2SF x) <= 7036874417766404 * 2 ^ 1074 ->
  PrimFloat.leb x Timing.above_100 = true.
Proof.
  intros Hx Hb. rewrite FloatAxioms.leb_spec, Prim2SF_above_100.
  pose proof (FloatAxioms.Prim2SF_valid x) as Hv.
  assert (HT : 0 < 2 ^ 1028) by reflexivity.
  change (2 ^ 1074) with (70368744177664 * 2 ^ 1028) in Hb.
  destruct Hx as [[s E]|(m & e & E & Hm & He)]; rewrite E in *.
  - destruct s; reflexivity.
  - unfold SFleb. rewrite SFcompare_finite by (exact Hv || reflexivity).
    cbn [sval] in Hb.
    assert (Hle : val m e <= val 7036874417766404 (-46)).
    { change (val 7036874417766404 (-46)) with (7036874417766404 * 2 ^ 1028). lia. }
    destruct (Z.compare_spec (val m e) (val 7036874417766404 (-46))); try reflexivity. lia.
Qed.

Lemma pfl_sval_pos (lo hi : Z) (f : spec_float) : -1074 <= lo -> pfl lo hi f -> 0 < sval f.
Proof.
  intros Hlo (m & e & -> & Hm & He). cbn [sval]. unfold val.
  assert (0 < 2 ^ (e + 1074)) by (apply pow2_pos; lia). nia.
Qed.

End Ratios64.

Set Implicit Arguments.


(** * The specification against the code *)

Section Specification.

Context {D : Type} {dops : DoubleOps D} {rnd : RandomLib D} {mpi : MPILib}.

Lemma nth_error_map_seq {V : Type} (f : nat -> V) (P r : nat) :
  (r < P)%nat -> nth_error (map f (seq 0 P)) r = Some (f r).
Proof.
  intros Hr. rewrite nth_error_map, nth_error_seq.
  destruct (Nat.ltb_spec r P); [reflexivity | lia].
Qed.

Lemma map_const {X Y : Type} (c : Y) (l : list X) :
  map (fun _ => c) l = repeat c (length l).
Proof. induction l as [|x l IH]; simpl; [reflexivity | rewrite IH; reflexivity]. Qed.

Lemma length_generar (n : nat) (g : Engine) : length (generar n g) = n.
Proof.
  revert g. induction n as [|n IH]; intros g; cbn [generar].
  - reflexivity.
  - destruct (uniform_real_distribution (dlit 0) (dlit 100) g) as [x g'].
    cbn [length]. rewrite IH. reflexivity.
Qed.

Lemma generar_in_range (n : nat) (g : Engine) :
  distribucion_range ->
  Forall (fun x => dleb (dlit 0) x = true /\ dltb x (dlit 100) = true) (generar n g).
Proof.
  intros Hrange. revert g. induction n as [|n IH]; intros g; cbn [generar].
  - constructor.
  - pose proof (Hrange g) as Hx.
    destruct (uniform_real_distribution (dlit 0) (dlit 100) g) as [x g'].
    constructor; [exact Hx | apply IH].
Qed.

(** C1. For every group size [P >= 1] and positive [int] [N], the [sumaTotal] that the
    sum-reduction of [main] delivers at rank 0 is the combination, in the order
    the MPI library chose, of the [P] values
    [calcularSumaParcial (generarValoresAleatorios N r)], each rank contributing
    exactly once; [calcularSumaParcial] is the left-to-right sum of the vector.
    With an addition that is associative and commutative the order does not
    matter and the result is the plain sum over the ranks. *)
Theorem global_sum_at_coordinator (P : nat) (N : Z) (rest : list Z) clk os (fuel : nat) :
  schedule_valid -> (1 <= P)%nat -> 0 < N <= CInt.INT_MAX -> (main_fuel P <= fuel)%nat ->
  let partial :=
    fun r => main_cpp.calcularSumaParcial (main_cpp.generarValoresAleatorios N (Z.of_nat r)) in
  let total := reduce_tree dadd (dlit 0) (schedule P) (map partial (seq 0 P)) in
  sumaTotal_of (run fuel (mpirun P main_cpp.main (world P clk os (N :: rest)))) 0
  = Some total /\
  Permutation (leaves (schedule P)) (seq 0 P) /\
  (forall valores, main_cpp.calcularSumaParcial valores = fold_left dadd valores (dlit 0)) /\
  ((forall a b c, dadd a (dadd b c) = dadd (dadd a b) c) ->
   (forall a b, dadd a b = dadd b a) ->
   (forall a, dadd (dlit 0) a = a) ->
   total = fold_left dadd (map partial (seq 0 P)) (dlit 0)).
Proof.
  intros Hv HP HN Hf partial total.
  destruct (main_run rest clk os HP HN Hf) as (envs & Hrun & _).
  rewrite Hrun. cbn [sumaTotal_of].
  rewrite nth_error_map_seq by lia. cbn [option_map fst snd main_vars main_cpp.mv_sumaTotal].
  change (Z.of_nat 0 =? 0) with true. cbv iota.
  split; [reflexivity|]. split; [apply Hv, HP|]. split; [reflexivity|].
  intros Ha Hc Hz. apply (reduce_tree_valid dadd (dlit 0) (dlit 0) partial Ha Hc Hz Hv HP).
Qed.

(** C2, with the opening barrier taken into account. If the integer read
    at rank 0 is zero or negative (or none can be read), the run ends by
    [MPI_Abort] with code 1; by then every
    participant has completed the opening barrier and no other collective: no
    broadcast and no reduction has taken place. *)
Theorem abort_on_bad_input (P : nat) (input : list Z) clk os (fuel : nat) :
  (1 <= P)%nat -> hd 0 input <= 0 -> (2 <= fuel)%nat ->
  let o := run fuel (mpirun P main_cpp.main (world P clk os input)) in
  aborted_with o = Some 1 /\ traces o = repeat [CBarrier] P.
Proof.
  intros HP HN Hf o.
  assert (HN' : (CInt.clamp (hd 0 input) <=? 0) = true)
    by (apply Z.leb_le, clamp_nonpositive; exact HN).
  assert (H2 : exists g, run 2 (mpirun P main_cpp.main (world P clk os input)) = Aborted 1 g /\
                         map (fun x => trace (snd x)) g = repeat [CBarrier] P).
  { eexists. split.
    - unfold mpirun.
      erewrite run_continue.
      2:{ eapply round_barrier; [exact HP|]. intros r Hr. unfold main_cpp.main.
          simp_state. reflexivity. }
      erewrite run_halt; [reflexivity|].
      eapply round_aborted; [exact HP|].
      at_rank0. rewrite HN'. simp_state. reflexivity.
    - rewrite map_map.
      rewrite (map_ext _ (fun _ => [CBarrier]))
        by (intros r; unfold advanced; rewrite trace_advance; reflexivity).
      rewrite map_const, length_seq. reflexivity. }
  destruct H2 as (g & Hrun & Hg).
  assert (Ho : o = Aborted 1 g).
  { unfold o. replace fuel with (2 + (fuel - 2))%nat by lia.
    rewrite run_more_fuel; [exact Hrun | rewrite Hrun; exact I]. }
  rewrite Ho. split; [reflexivity | exact Hg].
Qed.

(** C3. The exit codes of the test harness, as the code computes them: the
    verdicts are summed at rank 0 and compared with the group size there, but
    every other rank compares its own, unwritten, [resultadoTotal] = 0 with the
    group size. So when all the checks of all [P >= 2] participants pass, rank 0
    exits with 0 and every other rank with 1. *)
Theorem exit_codes_when_all_pass (P : nat) (verdict : nat -> bool) clk os input :
  schedule_valid -> (2 <= P)%nat -> Z.of_nat P <= CInt.INT_MAX ->
  (forall r, (r < P)%nat -> verdict r = true) ->
  returned (run 4 (map (fun r => (test_cpp.resultadosGlobales (Z.of_nat r) (Z.of_nat P) (verdict r),
                                  world P clk os input r)) (seq 0 P)))
  = Some (0 :: repeat 1 (P - 1)).
Proof.
  intros Hv HP Hmax Hall.
  destruct (resultadosGlobales_run verdict clk os input (P:=P) ltac:(lia)) as (envs & Hrun).
  rewrite Hrun. cbn [returned]. rewrite map_map. cbn [fst]. f_equal.
  assert (Hroot : verdict_total P verdict = Z.of_nat P).
  { unfold verdict_total. rewrite reduce_int_valid; [|exact Hv|lia|].
    - rewrite (proj2 (Zsum_verdicts_all verdict (seq 0 P)))
        by (intros r Hr; apply Hall; apply in_seq in Hr; lia).
      rewrite length_seq. apply wrap_in_range.
      unfold CInt.in_range, CInt.INT_MIN. lia.
    - intros r _. unfold CInt.in_range, CInt.INT_MIN, CInt.INT_MAX.
      destruct (verdict r); lia. }
  destruct P as [|P]; [lia|]. cbn [seq map]. f_equal.
  - unfold exit_code. change (Z.of_nat 0 =? 0) with true. cbv iota.
    rewrite Hroot, Z.eqb_refl. reflexivity.
  - replace (S P - 1)%nat with P by lia.
    rewrite (map_ext_in _ (fun _ => 1)).
    + rewrite map_const, length_seq. reflexivity.
    + intros r Hr. apply in_seq in Hr. unfold exit_code.
      destruct (Z.eqb_spec (Z.of_nat r) 0) as [E|E]; [lia|].
      destruct (Z.eqb_spec 0 (Z.of_nat (S P))) as [E'|E']; [lia | reflexivity].
Qed.

(** The vector of a rank in the runs of [main], whatever the group, the clock
    and the operating system. *)
Lemma valores_in_runs (N : Z) (P : nat) clk os rest (fuel r : nat) :
  0 < N <= CInt.INT_MAX -> (r < P)%nat -> (main_fuel P <= fuel)%nat ->
  valores_of (run fuel (mpirun P main_cpp.main (world P clk os (N :: rest)))) r
  = Some (main_cpp.generarValoresAleatorios N (Z.of_nat r)).
Proof.
  intros HN Hr Hf.
  destruct (main_run (P:=P) rest clk os ltac:(lia) HN Hf) as (envs & Hrun & _).
  rewrite Hrun. cbn [valores_of].
  rewrite nth_error_map_seq by assumption. reflexivity.
Qed.


Lemma elementsPerProc_value (N P : Z) :
  1 <= N <= CInt.INT_MAX -> 1 <= P <= CInt.INT_MAX ->
  analysis_cpp.elementsPerProc N P = N / P + (if N mod P =? 0 then 0 else 1).
Proof.
  intros HN HP. unfold CInt.INT_MAX in *.
  unfold analysis_cpp.elementsPerProc, CInt.div, CInt.rem, CInt.add.
  rewrite Z.quot_div_nonneg, Z.rem_mod_nonneg by lia.
  pose proof (Z.div_mod N P ltac:(lia)) as Hdm.
  pose proof (Z.mod_pos_bound N P ltac:(lia)) as Hm.
  assert (Hq : 0 <= N / P <= N).
  { split; [apply Z.div_pos; lia | apply Z.div_le_upper_bound; nia]. }
  rewrite (wrap_in_range (z := N / P))
    by (unfold CInt.in_range, CInt.INT_MIN, CInt.INT_MAX; lia).
  destruct (Z.eqb_spec (N mod P) 0) as [E|E]; cbn [negb]; [lia|].
  apply wrap_in_range. unfold CInt.in_range, CInt.INT_MIN, CInt.INT_MAX. nia.
Qed.

Lemma elementsPerProc_ceiling (N P : Z) :
  1 <= N <= CInt.INT_MAX -> 1 <= P <= CInt.INT_MAX ->
  is_ceiling N P (analysis_cpp.elementsPerProc N P).
Proof.
  intros HN HP. rewrite elementsPerProc_value by assumption.
  unfold is_ceiling, CInt.INT_MAX in *.
  pose proof (Z.div_mod N P ltac:(lia)) as Hdm.
  pose proof (Z.mod_pos_bound N P ltac:(lia)) as Hm.
  destruct (Z.eqb_spec (N mod P) 0) as [E|E]; nia.
Qed.


Lemma bcast_int_run (P : nat) (v : Z) (buf : nat -> Z) clk os input :
  (1 <= P)%nat ->
  exists envs,
  run 2 (map (fun r => (MPI_Bcast_int (if Z.of_nat r =? 0 then v else buf r) 0,
                        world P clk os input r)) (seq 0 P))
  = Finished (map (fun r => (v, envs r)) (seq 0 P)) /\
  forall r, (r < P)%nat -> trace (envs r) = [CBcastInt 0 v].
Proof.
  intros HP. eexists (fun r => if Z.of_nat r =? 0 then _ else _). split.
  - step_bcast_int HP.
    step_finished HP.
  - intros r Hr. destruct (Z.of_nat r =? 0); reflexivity.
Qed.

Lemma bcast_double_run (P : nat) (v : D) (buf : nat -> D) clk os input :
  (1 <= P)%nat ->
  exists envs,
  run 2 (map (fun r => (MPI_Bcast_double (if Z.of_nat r =? 0 then v else buf r) 0,
                        world P clk os input r)) (seq 0 P))
  = Finished (map (fun r => (v, envs r)) (seq 0 P)) /\
  forall r, (r < P)%nat -> trace (envs r) = [CBcastDouble 0 v].
Proof.
  intros HP. eexists (fun r => if Z.of_nat r =? 0 then _ else _). split.
  - step_bcast_double HP.
    step_finished HP.
  - intros r Hr. destruct (Z.of_nat r =? 0); reflexivity.
Qed.

Lemma bcast_after_barriers (n : nat) (l : list (Call D)) :
  bcast_doubles (repeat CBarrier n ++ l) = bcast_doubles l /\
  bcast_ints (repeat CBarrier n ++ l) = bcast_ints l.
Proof. induction n as [|n IH]; [split; reflexivity | exact IH]. Qed.

(** C7. What rank 0 broadcasts is what every rank receives, with nothing
    applied in between. Whatever [int] or [double] rank 0 holds and whatever
    the other ranks hold in their buffers, a broadcast from rank 0 leaves the
    value of rank 0 in every buffer, rank 0 included. In the programs: in
    [testBroadcast] every rank receives the 42 that rank 0 set and its check
    passes; in [main] every rank ends with the [N] that rank 0 read and with
    the [promedioFinal] that rank 0 computed from its [sumaTotal]. *)
Theorem broadcast_round_trip (P : nat) (N : Z) (rest input : list Z) clk os (fuel : nat) :
  (1 <= P)%nat -> 0 < N <= CInt.INT_MAX -> (main_fuel P <= fuel)%nat ->
  let t := run 2 (spmd P test_cpp.testBroadcast (world P clk os input)) in
  let o := run fuel (mpirun P main_cpp.main (world P clk os (N :: rest))) in
  (forall (v : Z) (buf : nat -> Z),
     let b := run 2 (map (fun r => (MPI_Bcast_int (if Z.of_nat r =? 0 then v else buf r) 0,
                                    world P clk os input r)) (seq 0 P)) in
     returned b = Some (repeat v P) /\ traces b = repeat [CBcastInt 0 v] P) /\
  (forall (v : D) (buf : nat -> D),
     let b := run 2 (map (fun r => (MPI_Bcast_double (if Z.of_nat r =? 0 then v else buf r) 0,
                                    world P clk os input r)) (seq 0 P)) in
     returned b = Some (repeat v P) /\ traces b = repeat [CBcastDouble 0 v] P) /\
  returned t = Some (repeat true P) /\
  traces t = repeat [CBcastInt 0 42] P /\
  exists sumaTotal,
    sumaTotal_of o 0 = Some sumaTotal /\
    forall r, (r < P)%nat ->
      N_of o r = Some N /\
      promedio_of o r = Some (ddiv sumaTotal (dofint (CInt.mul N (Z.of_nat P)))) /\
      exists tr, nth_error (traces o) r = Some tr /\
        bcast_ints tr = [N] /\
        bcast_doubles tr = [ddiv sumaTotal (dofint (CInt.mul N (Z.of_nat P)))].
Proof.
  intros HP HN Hf t o.
  assert (Hconst : forall (X Y : Type) (c : Y) (f : nat -> X -> Y) (g : nat -> X),
             (forall r, (r < P)%nat -> f r (g r) = c) ->
             map (fun r => f r (g r)) (seq 0 P) = repeat c P).
  { intros X Y c f g Hfg. rewrite (map_ext_in _ (fun _ => c)).
    - rewrite map_const, length_seq. reflexivity.
    - intros r Hr. apply Hfg. apply in_seq in Hr. lia. }
  split; [|split].
  - intros v buf b. destruct (bcast_int_run v buf clk os input HP) as (envs & Hrun & Htr).
    unfold b. rewrite Hrun. cbn [returned traces]. rewrite !map_map. cbn [fst snd].
    split; [rewrite map_const, length_seq; reflexivity|].
    apply (Hconst _ _ [CBcastInt 0 v] (fun _ e => trace e) envs Htr).
  - intros v buf b. destruct (bcast_double_run v buf clk os input HP) as (envs & Hrun & Htr).
    unfold b. rewrite Hrun. cbn [returned traces]. rewrite !map_map. cbn [fst snd].
    split; [rewrite map_const, length_seq; reflexivity|].
    apply (Hconst _ _ [CBcastDouble 0 v] (fun _ e => trace e) envs Htr).
  - destruct (testBroadcast_run clk os input HP) as (envs & Hrun & Htr).
    destruct (main_run rest clk os HP HN Hf) as (menvs & Hmain & Hmtr).
    unfold t, o. rewrite Hrun, Hmain.
    cbn [returned traces sumaTotal_of promedio_of N_of].
    rewrite !map_map. cbn [fst snd].
    split; [rewrite map_const, length_seq; reflexivity|].
    split; [apply (Hconst _ _ [CBcastInt 0 42] (fun _ e => trace e) envs Htr)|].
    exists (main_total P N). rewrite nth_error_map_seq by lia.
    cbn [option_map fst snd main_vars main_cpp.mv_sumaTotal].
    change (Z.of_nat 0 =? 0) with true. cbv iota.
    split; [reflexivity|]. intros r Hr.
    rewrite !nth_error_map_seq by exact Hr.
    cbn [option_map fst snd main_vars main_cpp.mv_promedioFinal main_cpp.mv_N].
    split; [reflexivity|]. split; [reflexivity|].
    eexists. split; [reflexivity|].
    rewrite (Hmtr r Hr). unfold main_trace.
    cbn [main_vars main_cpp.mv_sumaParcial main_cpp.mv_sumaTotal main_cpp.mv_promedioFinal].
    cbn [app bcast_doubles bcast_ints].
    rewrite !(proj1 (bcast_after_barriers _ _)), !(proj2 (bcast_after_barriers _ _)).
    cbn [bcast_doubles bcast_ints].
    rewrite !(proj1 (bcast_after_barriers _ _)), !(proj2 (bcast_after_barriers _ _)).
    split; reflexivity.
Qed.

(** C8. The ten rounds of Test 2 of [robustnessTest] reduce and broadcast the
    same fixed local data; every round delivers the same global sum, at rank 0
    by the reduction and at every rank by the broadcast: the trace of a rank is
    ten times the same pair of calls, and nothing accumulates. *)
Theorem repeated_rounds_same_sum (P : nat) clk os input :
  (1 <= P)%nat ->
  let o := run 23 (spmd P analysis_cpp.robustnessTest (world P clk os input)) in
  returned o = Some (repeat tt P) /\
  traces o = map (robustness_trace P) (seq 0 P) /\
  forall r,
    robustness_trace P r
    = [CReduceDouble 0 (sumar (largeData r))
         (if Z.of_nat r =? 0 then test1_total P else dlit 0)]
      ++ concat (repeat
           [CReduceDouble 0 (sumar (test2_data r))
              (if Z.of_nat r =? 0 then test2_total P else dlit 0);
            CBcastDouble 0 (test2_total P)] 10)
      ++ [CReduceInt 0 (CInt.add (Z.of_nat r) 1)
            (if Z.of_nat r =? 0 then test3_total P else 0)] /\
    bcast_doubles (robustness_trace P r) = repeat (test2_total P) 10.
Proof.
  intros HP o.
  destruct (robustnessTest_run clk os input HP) as (envs & Hrun & Htr).
  unfold o. rewrite Hrun. cbn [returned traces]. rewrite !map_map. cbn [fst snd].
  split; [rewrite map_const, length_seq; reflexivity|].
  split.
  - apply map_ext_in. intros r Hr. apply Htr. apply in_seq in Hr. lia.
  - intros r. split; reflexivity.
Qed.

Lemma fold_left_concat (ls : list (list D)) :
  (forall a b c : D, dadd a (dadd b c) = dadd (dadd a b) c) ->
  (forall a b : D, dadd a b = dadd b a) ->
  (forall a : D, dadd (dlit 0) a = a) ->
  fold_left dadd (concat ls) (dlit 0) = fold_left dadd (map sumar ls) (dlit 0).
Proof.
  intros Ha Hc Hz. induction ls as [|l ls IH]; [reflexivity|].
  cbn [concat map fold_left].
  rewrite (@fold_left_op_app D dadd (dlit 0) Ha Hc Hz), IH.
  rewrite (@fold_left_op D dadd (dlit 0) Ha Hc Hz (map sumar ls) (dadd (dlit 0) (sumar l))), Hz.
  reflexivity.
Qed.

(** C10. In [strongScalingAnalysis], when [P] does not divide [N], every rank
    generates [ceil (N / P)] elements and contributes their left-to-right sum,
    so that the global sum combines the [P * ceil (N / P) > N] elements of all
    the ranks (it is their plain sum when the addition is associative and
    commutative); the average that rank 0 prints is that global sum divided by
    [N]. *)
Theorem strong_scaling_average (P : nat) (N maxProcs : Z) clk os input :
  1 <= N <= CInt.INT_MAX -> 1 <= Z.of_nat P <= CInt.INT_MAX ->
  N mod Z.of_nat P <> 0 ->
  let k := analysis_cpp.elementsPerProc N (Z.of_nat P) in
  let o := run 2 (spmd P (analysis_cpp.strongScalingAnalysis N maxProcs)
                     (world P clk os input)) in
  let todos := concat (map (strong_data N P) (seq 0 P)) in
  is_ceiling N (Z.of_nat P) k /\
  N < Z.of_nat P * k /\
  (forall r, length (strong_data N P r) = Z.to_nat k) /\
  Z.of_nat (length todos) = Z.of_nat P * k /\
  (forall l : list D, sumar l = fold_left dadd l (dlit 0)) /\
  returned o = Some (repeat tt P) /\
  traces o = map (fun r => [CReduceDouble 0 (sumar (strong_data N P r))
                              (if Z.of_nat r =? 0 then strong_total N P else dlit 0)])
                 (seq 0 P) /\
  strong_total N P
  = reduce_tree dadd (dlit 0) (schedule P) (map (fun r => sumar (strong_data N P r)) (seq 0 P)) /\
  (schedule_valid ->
   (forall a b c : D, dadd a (dadd b c) = dadd (dadd a b) c) ->
   (forall a b : D, dadd a b = dadd b a) ->
   (forall a : D, dadd (dlit 0) a = a) ->
   strong_total N P = fold_left dadd todos (dlit 0)) /\
  exists pre,
    nth_error (outputs o) 0
    = Some (pre ++ [Str "Promedio: "; Fixed; SetPrecision 4;
                    Dbl (ddiv (strong_total N P) (dofint N)); Endl]).
Proof.
  intros HN HP Hmod k o todos.
  pose proof (elementsPerProc_ceiling HN HP) as Hceil.
  split; [exact Hceil|].
  split.
  { unfold is_ceiling in Hceil. fold k in Hceil.
    destruct (Z.eq_dec N (k * Z.of_nat P)) as [E|E]; [|lia].
    exfalso. apply Hmod. rewrite E. apply Z.mod_mul. lia. }
  split; [intros r; apply length_generar|].
  split.
  { assert (Hk : 0 <= k).
    { unfold is_ceiling in Hceil. fold k in Hceil.
      destruct (Z.le_gt_cases 0 k) as [H|H]; [exact H|].
      assert (k * Z.of_nat P <= 0) by nia. lia. }
    assert (Hlen : forall l : list nat,
               length (concat (map (strong_data N P) l)) = (length l * Z.to_nat k)%nat).
    { induction l as [|r l IH]; [reflexivity|].
      cbn [map concat length]. rewrite length_app, IH.
      unfold strong_data at 1. rewrite length_generar. fold k. lia. }
    unfold todos. rewrite Hlen, length_seq. lia. }
  split; [reflexivity|].
  destruct (strongScalingAnalysis_run N maxProcs clk os input (P:=P) ltac:(lia))
    as (envs & Hrun & Htr & Hout).
  unfold o. rewrite Hrun. cbn [returned traces outputs]. rewrite !map_map. cbn [fst snd].
  split; [rewrite map_const, length_seq; reflexivity|].
  split; [apply map_ext_in; intros r Hr; apply Htr; apply in_seq in Hr; lia|].
  split; [reflexivity|].
  split.
  { intros Hv Ha Hc Hz. unfold strong_total, todos.
    assert (HP' : (1 <= P)%nat) by lia.
    rewrite (reduce_tree_valid dadd (dlit 0) (dlit 0) _ Ha Hc Hz Hv HP').
    rewrite (fold_left_concat _ Ha Hc Hz), map_map. reflexivity. }
  rewrite nth_error_map_seq by lia. rewrite Hout. unfold strong_output.
  exists (firstn 18 (strong_output N P (clk 0%nat) (os 0%nat))).
  reflexivity.
Qed.

End Specification.

(** The draws of the distribution [(0.0, 100.0)] in binary64, as libstdc++
    computes them, lie in [[0, 100)]. *)
Lemma binary64_distribucion_range :
  distribucion_range (dops := Binary64.ops) (rnd := Binary64.random).
Proof. intros g. exact (Draw64.binary64_draw_range g). Qed.

(** C4. [generarValoresAleatorios N rank] is a vector of [N] values and a
    function of [N] and [rank] alone: in any two runs of [main] in which the
    [int] [N] is read, whatever their group sizes, clocks, operating systems and
    remaining input, rank [r] holds the same vector. This holds for every
    arithmetic, every generator and every MPI library. With the binary64
    doubles and the [mt19937] and [uniform_real_distribution] of libstdc++,
    each of the [N] values lies in [[0, 100)]; with another arithmetic it does
    as soon as the draws of the distribution [(0.0, 100.0)] do. *)
Theorem generarValoresAleatorios_reproducible (N rank : Z) :
  0 < N <= CInt.INT_MAX ->
  (forall (D : Type) (dops : DoubleOps D) (rnd : RandomLib D) (mpi : MPILib),
      length (main_cpp.generarValoresAleatorios N rank) = Z.to_nat N /\
      (forall (P1 P2 : nat) clk1 clk2 os1 os2 rest1 rest2 (fuel1 fuel2 r : nat),
          (r < P1)%nat -> (r < P2)%nat ->
          (main_fuel P1 <= fuel1)%nat -> (main_fuel P2 <= fuel2)%nat ->
          valores_of (run fuel1 (mpirun P1 main_cpp.main (world P1 clk1 os1 (N :: rest1)))) r
          = Some (main_cpp.generarValoresAleatorios N (Z.of_nat r)) /\
          valores_of (run fuel2 (mpirun P2 main_cpp.main (world P2 clk2 os2 (N :: rest2)))) r
          = Some (main_cpp.generarValoresAleatorios N (Z.of_nat r))) /\
      (distribucion_range ->
       Forall (fun x => dleb (dlit 0) x = true /\ dltb x (dlit 100) = true)
              (main_cpp.generarValoresAleatorios N rank))) /\
  Forall (fun x : float => PrimFloat.leb 0 x = true /\ PrimFloat.ltb x 100 = true)
         (main_cpp.generarValoresAleatorios (dops := Binary64.ops) (rnd := Binary64.random)
            N rank).
Proof.
  intros HN. split.
  - intros D dops rnd mpi. split; [apply length_generar|]. split.
    + intros P1 P2 clk1 clk2 os1 os2 rest1 rest2 fuel1 fuel2 r Hr1 Hr2 Hf1 Hf2.
      split; apply valores_in_runs; assumption.
    + intros Hrange. apply generar_in_range. exact Hrange.
  - exact (generar_in_range (Z.to_nat N) _ binary64_distribucion_range).
Qed.

(** C9. For one measured round whose compute and communication times are
    measured durations (no time at all, or between [2 ^ -500] and [2 ^ 500]
    microseconds) and whose total time is positive, the two percentages that
    [communicationVsComputationAnalysis] reports are
    [(compTime / totalTime) * 100] and [(commTime / totalTime) * 100] as the
    binary64 operations compute them, and their binary64 sum is 100 up to
    rounding: it lies between [100 - 2 ^ -44] and [100 + 2 ^ -44], four units
    in the last place of 100 on either side. *)
Theorem ratios_sum_to_100 (compTime commTime : float) :
  Timing.measured compTime = true -> Timing.measured commTime = true ->
  PrimFloat.ltb 0 (compTime + commTime) = true ->
  let totalTime := (compTime + commTime)%float in
  let r := analysis_cpp.ratios (dops := Binary64.ops) compTime commTime in
  fst r = (compTime / totalTime * 100)%float /\
  snd r = (commTime / totalTime * 100)%float /\
  PrimFloat.leb Timing.below_100 (fst r + snd r) = true /\
  PrimFloat.leb (fst r + snd r) Timing.above_100 = true.
Proof.
  intros Hc Hm Ht. cbv zeta.
  split; [reflexivity|]. split; [reflexivity|].
  unfold analysis_cpp.ratios. cbn [fst snd dadd ddiv dmul Binary64.ops].
  set (t := (compTime + commTime)%float) in *.
  set (h := dofint (DoubleOps := Binary64.ops) 100).
  set (q1 := (compTime / t)%float). set (q2 := (commTime / t)%float).
  set (r1 := (q1 * h)%float). set (r2 := (q2 * h)%float).
  set (s := (r1 + r2)%float).
  pose proof (Ratios64.measured_fl compTime Hc) as Fc.
  pose proof (Ratios64.measured_fl commTime Hm) as Fm.
  destruct (Error64.SFadd_fl (-552) 448 _ _ Fc Fm ltac:(lia) ltac:(lia)) as [Ft At].
  change (SFadd prec emax) with SF64add in Ft, At.
  rewrite <- FloatAxioms.add_spec in Ft, At. fold t in Ft, At.
  pose proof (Ratios64.positive_pfl (-552) (448 + 2) t Ht Ft) as Pt.
  destruct (Error64.SFdiv_fl (-552) 448 (-552) (448 + 2) _ _ Fc Pt
              ltac:(lia) ltac:(lia) ltac:(lia) ltac:(lia)) as [Fq1 D1].
  destruct (Error64.SFdiv_fl (-552) 448 (-552) (448 + 2) _ _ Fm Pt
              ltac:(lia) ltac:(lia) ltac:(lia) ltac:(lia)) as [Fq2 D2].
  change (SFdiv prec emax) with SF64div in Fq1, D1, Fq2, D2.
  rewrite <- FloatAxioms.div_spec in Fq1, D1, Fq2, D2. fold q1 in Fq1, D1. fold q2 in Fq2, D2.
  assert (Fh : Error64.fl (-46) (-46) (Prim2SF h)).
  { right. exists Round64.c100, (-46). split; [apply Ratios64.Prim2SF_dofint_100|].
    split; [split; [discriminate | reflexivity] | lia]. }
  destruct (Error64.SFmul_fl _ _ _ _ _ _ Fq1 Fh ltac:(lia) ltac:(lia) ltac:(lia) ltac:(lia))
    as [Fr1 M1].
  destruct (Error64.SFmul_fl _ _ _ _ _ _ Fq2 Fh ltac:(lia) ltac:(lia) ltac:(lia) ltac:(lia))
    as [Fr2 M2].
  change (SFmul prec emax) with SF64mul in Fr1, M1, Fr2, M2.
  rewrite <- FloatAxioms.mul_spec in Fr1, M1, Fr2, M2. fold r1 in Fr1, M1. fold r2 in Fr2, M2.
  destruct (Error64.SFadd_fl _ _ _ _ Fr1 Fr2 ltac:(lia) ltac:(lia)) as [Fs As].
  change (SFadd prec emax) with SF64add in Fs, As.
  rewrite <- FloatAxioms.add_spec in Fs, As. fold s in Fs, As.
  unfold h in M1, M2. rewrite Ratios64.Prim2SF_dofint_100, Ratios64.sval_100 in M1, M2.
  pose proof (Ratios64.pfl_sval_pos (-552) (448 + 2) _ ltac:(lia) Pt) as Htpos.
  assert (HS : 0 < 2 ^ 1074) by reflexivity.
  change (2 ^ 53 - 1) with 9007199254740991 in *.
  change (2 ^ 53 + 1) with 9007199254740993 in *.
  change (2 ^ 53) with 9007199254740992 in *.
  pose proof (Ratios64.ratio_algebra _ _ _ _ _ _ _ _ _ HS Htpos At D1 D2 M1 M2 As) as [L U].
  split; [apply (Ratios64.leb_below_100 _ _ s Fs L) | apply (Ratios64.leb_above_100 _ _ s Fs U)].
Qed.

(** * The theorems at concrete inputs *)

Module Samples.

(** A clock that advances by one second per reading. *)
Definition clock64 : nat -> nat -> float := fun _ n => Binary64.of_Z (Z.of_nat n).

Definition os : nat -> Sys := fun _ => mkSys (Some 2048) 4 4096.

End Samples.

#[local] Existing Instance Binary64.ops.
#[local] Existing Instance Binary64.random.

Lemma global_sum_at_coordinator_witness :
  let partial := fun r : nat =>
    main_cpp.calcularSumaParcial (dops := Binary64.ops)
      (main_cpp.generarValoresAleatorios (rnd := Binary64.random) 3 (Z.of_nat r)) in
  sumaTotal_of
    (run (mpi := linear) 11
       (mpirun 2 (main_cpp.main (dops := Binary64.ops) (rnd := Binary64.random))
          (world 2 Samples.clock64 Samples.os [3]))) 0
  = Some (dadd (partial 0%nat) (partial 1%nat)).
Proof.
  intros partial.
  exact (proj1 (@global_sum_at_coordinator float Binary64.ops Binary64.random linear
                  2 3 [] Samples.clock64 Samples.os 11
                  linear_valid ltac:(lia) ltac:(unfold CInt.INT_MAX; lia)
                  ltac:(unfold main_fuel; lia))).
Defined.

Lemma abort_on_bad_input_witness :
  hd 0 [-5] <= 0 /\
  aborted_with
    (run (mpi := linear) 2
       (mpirun 3 (main_cpp.main (dops := Binary64.ops) (rnd := Binary64.random))
          (world 3 Samples.clock64 Samples.os [-5])))
  = Some 1.
Proof.
  split; [simpl; lia|].
  exact (proj1 (@abort_on_bad_input float Binary64.ops Binary64.random linear
                  3 [-5] Samples.clock64 Samples.os 2
                  ltac:(lia) ltac:(simpl; lia) ltac:(lia))).
Defined.

(** C2 at [mpirun -np 2] with input 0: when [MPI_Abort] ends the run, both
    participants have completed a barrier, so a collective call does come
    before the abort. *)
Lemma barrier_precedes_abort :
  let o := run (mpi := linear) 2
             (mpirun 2 (main_cpp.main (dops := Binary64.ops) (rnd := Binary64.random))
                (world 2 Samples.clock64 Samples.os [0])) in
  aborted_with o = Some 1 /\ traces o = [[CBarrier]; [CBarrier]].
Proof. vm_compute. split; reflexivity. Qed.

Lemma exit_codes_when_all_pass_witness :
  returned
    (run (mpi := linear) 4
       (map (fun r => (test_cpp.resultadosGlobales (D := float) (Z.of_nat r) (Z.of_nat 3) true,
                       world 3 Samples.clock64 Samples.os [] r)) (seq 0 3)))
  = Some [0; 1; 1].
Proof.
  exact (@exit_codes_when_all_pass float Binary64.ops linear 3 (fun _ => true) Samples.clock64 Samples.os []
           linear_valid ltac:(lia) ltac:(unfold CInt.INT_MAX; lia) (fun _ _ => eq_refl)).
Defined.

(** C3 at [mpirun -np 2] of the whole test program, in double precision: all
    the checks pass, rank 0 exits with 0 and rank 1 with 1. *)
Lemma test_exit_codes_np2 :
  returned
    (run (mpi := linear) 20
       (mpirun 2 (test_cpp.main (dops := Binary64.ops) (rnd := Binary64.random))
          (world 2 Samples.clock64 Samples.os [])))
  = Some [0; 1].
Proof. vm_compute. reflexivity. Qed.

Lemma generarValoresAleatorios_reproducible_witness :
  length (main_cpp.generarValoresAleatorios (rnd := Binary64.random) 5 1) = 5%nat /\
  Forall (fun x : float => PrimFloat.leb 0 x = true /\ PrimFloat.ltb x 100 = true)
         (main_cpp.generarValoresAleatorios (rnd := Binary64.random) 5 1).
Proof.
  pose proof (@generarValoresAleatorios_reproducible 5 1
                ltac:(unfold CInt.INT_MAX; lia)) as H.
  exact (conj (proj1 (proj1 H float Binary64.ops Binary64.random linear)) (proj2 H)).
Defined.



Lemma broadcast_round_trip_witness :
  N_of (run (mpi := linear) 13
          (mpirun 3 (main_cpp.main (dops := Binary64.ops) (rnd := Binary64.random))
             (world 3 Samples.clock64 Samples.os [7]))) 2
  = Some 7.
Proof.
  pose proof (@broadcast_round_trip float Binary64.ops Binary64.random linear
                3 7 [] [] Samples.clock64 Samples.os 13
                ltac:(lia) ltac:(unfold CInt.INT_MAX; lia) ltac:(unfold main_fuel; lia)) as H.
  destruct (proj2 (proj2 (proj2 (proj2 H)))) as (sumaTotal & _ & Hall).
  exact (proj1 (Hall 2%nat ltac:(lia))).
Defined.

Lemma repeated_rounds_same_sum_witness :
  returned (run (mpi := linear) 23
              (spmd 2 (analysis_cpp.robustnessTest (dops := Binary64.ops) (rnd := Binary64.random))
                 (world 2 Samples.clock64 Samples.os [])))
  = Some [tt; tt].
Proof.
  exact (proj1 (@repeated_rounds_same_sum float Binary64.ops Binary64.random linear
                  2 Samples.clock64 Samples.os [] ltac:(lia))).
Defined.

Lemma ratios_sum_to_100_witness :
  let r := analysis_cpp.ratios (dops := Binary64.ops) 1%float 2%float in
  fst r = (1 / (1 + 2) * 100)%float /\
  snd r = (2 / (1 + 2) * 100)%float /\
  PrimFloat.leb Timing.below_100 (fst r + snd r) = true /\
  PrimFloat.leb (fst r + snd r) Timing.above_100 = true.
Proof.
  exact (@ratios_sum_to_100 1%float 2%float eq_refl eq_refl eq_refl).
Defined.

Lemma strong_scaling_average_witness :
  10 mod 3 <> 0 /\
  is_ceiling 10 3 (analysis_cpp.elementsPerProc 10 3) /\
  10 < 3 * analysis_cpp.elementsPerProc 10 3.
Proof.
  assert (Hmod : 10 mod Z.of_nat 3 <> 0) by (intros H; discriminate H).
  pose proof (@strong_scaling_average float Binary64.ops Binary64.random linear
                3 10 16 Samples.clock64 Samples.os []
                ltac:(unfold CInt.INT_MAX; lia) ltac:(unfold CInt.INT_MAX; lia) Hmod) as H.
  exact (conj Hmod (conj (proj1 H) (proj1 (proj2 H)))).
Defined.

(** * [src/test.cpp]: the run of the whole test program *)

Section TestMain.

Context {D : Type} {dops : DoubleOps D} {rnd : RandomLib D} {mpi : MPILib}.
Import test_cpp.

(** What the reductions of [testReduce], [testPromedio] and
    [testProgramaCompleto] deliver at rank 0. *)
Definition testReduce_total (P : nat) : D :=
  reduce_tree dadd (dlit 0) (schedule P)
    (map (fun r => dofint (CInt.add (Z.of_nat r) 1)) (seq 0 P)).

Definition testPromedio_valores : list D := [dlit 1; dlit 2; dlit 3; dlit 4; dlit 5].

Definition testPromedio_total (P : nat) : D :=
  reduce_tree dadd (dlit 0) (schedule P)
    (map (fun r => dadd (sumar testPromedio_valores)
                        (dmul (dofint (CInt.mul (Z.of_nat r) 5)) (dlit 10))) (seq 0 P)).

Definition testProgramaCompleto_total (P : nat) : D :=
  reduce_tree dadd (dlit 0) (schedule P)
    (map (fun r => sumar (generar 100 (mt19937 (CInt.add (Z.of_nat r) 42)))) (seq 0 P)).

(** The checks that rank 0 makes. *)
Definition testReduce_check (P : nat) : bool :=
  dltb (dabs (dsub (testReduce_total P) (sumaEsperada_desde P 0 (dlit 0)))) (dlit 1e-10).

Definition testPromedio_check (P : nat) : bool :=
  dltb (dabs (dsub (ddiv (testPromedio_total P) (dofint (CInt.mul 5 (Z.of_nat P))))
                   (ddiv (promedio_sumaEsperada P 0 testPromedio_valores 5 (dlit 0))
                         (dofint (CInt.mul 5 (Z.of_nat P))))))
       (dlit 1e-10).

Definition testProgramaCompleto_check (P : nat) : bool :=
  let promedioFinal :=
    ddiv (testProgramaCompleto_total P) (dofint (CInt.mul 100 (Z.of_nat P))) in
  dleb (dlit 0) promedioFinal && dleb promedioFinal (dlit 100).

(** The verdicts of the five tests at rank [r]: only rank 0 checks anything
    but the broadcast value. *)
Definition testReduce_of (P r : nat) : bool :=
  if Z.of_nat r =? 0 then testReduce_check P else true.

Definition testPromedio_of (P r : nat) : bool :=
  if Z.of_nat r =? 0 then testPromedio_check P else true.

Definition testProgramaCompleto_of (P r : nat) : bool :=
  if Z.of_nat r =? 0 then testProgramaCompleto_check P else true.

(** [todasLasPruebasPasan] of rank [r] after the five tests. *)
Definition todasLasPruebasPasan_of (P r : nat) : bool :=
  true && (42 =? 42) && testReduce_of P r && testPromedio_of P r && true
  && testProgramaCompleto_of P r.

Definition test_trace (P r : nat) : list (Call D) :=
  [CBarrier; CBcastInt 0 42; CBarrier;
   CReduceDouble 0 (dofint (CInt.add (Z.of_nat r) 1))
     (if Z.of_nat r =? 0 then testReduce_total P else dlit 0);
   CBarrier;
   CReduceDouble 0 (dadd (sumar testPromedio_valores)
                         (dmul (dofint (CInt.mul (Z.of_nat r) 5)) (dlit 10)))
     (if Z.of_nat r =? 0 then testPromedio_total P else dlit 0);
   CBarrier; CBarrier; CBarrier;
   CReduceDouble 0 (sumar (generar 100 (mt19937 (CInt.add (Z.of_nat r) 42))))
     (if Z.of_nat r =? 0 then testProgramaCompleto_total P else dlit 0);
   CBarrier;
   CReduceInt 0 (if todasLasPruebasPasan_of P r then 1 else 0)
     (if Z.of_nat r =? 0 then verdict_total P (todasLasPruebasPasan_of P) else 0);
   CBarrier; CBarrier].

Lemma test_main_run (P : nat) clk os input :
  (1 <= P)%nat ->
  exists envs,
  run 15 (mpirun P main (world P clk os input))
  = Finished (map (fun r => (exit_code P (todasLasPruebasPasan_of P) r, envs r)) (seq 0 P)) /\
  (forall r, (r < P)%nat -> trace (envs r) = test_trace P r).
Proof.
  intros HP.
  eexists (fun r => if Z.of_nat r =? 0 then _ else _). unfold mpirun. split.
  - unfold main, ejecutarPruebas, testBroadcast, testReduce, testPromedio,
      testSincronizacion, testProgramaCompleto, resultadosGlobales.
    step_barrier HP.
    step_bcast_int HP.
    step_barrier HP.
    step_reduce_double HP. rewrite ?Nat2Z.id. fold (testReduce_total P).
    step_barrier HP.
    step_reduce_double HP.
    change (reduce_tree dadd (dlit 0) (schedule P) (map _ (seq 0 P)))
      with (testPromedio_total P).
    step_barrier HP.
    step_barrier HP.
    step_barrier HP.
    step_reduce_double HP.
    change (reduce_tree dadd (dlit 0) (schedule P) (map _ (seq 0 P)))
      with (testProgramaCompleto_total P).
    step_barrier HP.
    erewrite run_continue.
    2:{ eapply round_reduce_int with
          (send := fun r => if todasLasPruebasPasan_of P r then 1 else 0)
          (st' := fun r => if Z.of_nat r =? 0 then _ else _); [exact HP | |];
        intros r Hr;
        unfold todasLasPruebasPasan_of, testReduce_of, testPromedio_of,
          testProgramaCompleto_of;
        rank0 r; rewrite ?Z.eqb_refl; reflexivity. }
    step_barrier HP.
    step_barrier HP.
    erewrite run_halt; [reflexivity|].
    eapply round_finished; [exact HP|].
    intros r Hr.
    unfold exit_code, verdict_total, todasLasPruebasPasan_of, testReduce_of,
      testPromedio_of, testProgramaCompleto_of.
    rank0 r; reflexivity.
  - intros r Hr.
    unfold test_trace, todasLasPruebasPasan_of, testReduce_of, testPromedio_of,
      testProgramaCompleto_of.
    destruct (Z.of_nat r =? 0); reflexivity.
Qed.

End TestMain.

(** * [src/analysis.cpp]: the other analyses and the whole program *)

Section AnalysisMain.

Context {D : Type} {dops : DoubleOps D} {rnd : RandomLib D} {mpi : MPILib}.
Import analysis_cpp.

(** The [n] values that rank [r] generates, and what the reduction of their
    sums delivers at rank 0. *)
Definition datos (n : Z) (r : nat) : list D :=
  generar (Z.to_nat n) (mt19937 (CInt.add (Z.of_nat r) 42)).

Definition total_de (n : Z) (P : nat) : D :=
  reduce_tree dadd (dlit 0) (schedule P) (map (fun r => sumar (datos n r)) (seq 0 P)).

Definition reduce_call (n : Z) (P r : nat) : Call D :=
  CReduceDouble 0 (sumar (datos n r)) (if Z.of_nat r =? 0 then total_de n P else dlit 0).

(** What rank 0 prints in [weakScalingAnalysis]. *)
Definition weak_output (NPerProc : Z) (P : nat) (clk0 : nat -> D) (os0 : Sys) : list (Item D) :=
  [Str "=== ANÁLISIS DE ESCALABILIDAD DÉBIL ==="; Endl;
   Str "Elementos por proceso: "; Int NPerProc; Endl; Endl;
   Str "Procesos: "; Int (Z.of_nat P); Str " | ";
   Str "Total elementos: "; Int (CInt.mul NPerProc (Z.of_nat P)); Str " | ";
   Str "Tiempo: "; Fixed; SetPrecision 2;
   Dbl (dmul (dsub (clk0 1%nat) (clk0 0%nat)) (dlit 1e6)); Str " μs | ";
   Str "Memoria: "; Int (memory_of os0); Str " KB | ";
   Str "Promedio: "; Fixed; SetPrecision 4;
   Dbl (ddiv (total_de NPerProc P) (dofint (CInt.mul NPerProc (Z.of_nat P)))); Endl].

Lemma weakScalingAnalysis_run (P : nat) (NPerProc : Z) clk os input :
  (1 <= P)%nat ->
  exists envs,
  run 2 (spmd P (weakScalingAnalysis NPerProc) (world P clk os input))
  = Finished (map (fun r => (tt, envs r)) (seq 0 P)) /\
  (forall r, (r < P)%nat -> trace (envs r) = [reduce_call NPerProc P r]) /\
  (forall r, (1 <= r < P)%nat -> stdout (envs r) = []) /\
  stdout (envs 0%nat) = weak_output NPerProc P (clk 0%nat) (os 0%nat).
Proof.
  intros HP.
  eexists (fun r => if Z.of_nat r =? 0 then _ else _). unfold spmd. split; [|split; [|split]].
  - unfold weakScalingAnalysis.
    step_reduce_double HP.
    step_finished HP.
  - intros r Hr. unfold reduce_call, total_de, datos. destruct (Z.of_nat r =? 0); reflexivity.
  - intros r Hr. destruct (Z.eqb_spec (Z.of_nat r) 0) as [E|E]; [lia | reflexivity].
  - reflexivity.
Qed.

(** The four problem sizes of [communicationVsComputationAnalysis]. *)
Definition problemSizes : list Z := [100; 1000; 10000; 100000].

(** The line that rank 0 prints for one problem size, the clock of rank 0
    having been read [t] times before. *)
Definition comm_line (N : Z) (P : nat) (clk0 : nat -> D) (t : nat) : list (Item D) :=
  let compTime := dmul (dsub (clk0 (S t)) (clk0 t)) (dlit 1e6) in
  let commTime := dmul (dsub (clk0 (S (S (S t)))) (clk0 (S (S t)))) (dlit 1e6) in
  [Str "N="; Int N; Str " | ";
   Str "Cómputo: "; Fixed; SetPrecision 2; Dbl compTime; Str " μs (";
   Fixed; SetPrecision 1; Dbl (fst (ratios compTime commTime)); Str "%) | ";
   Str "Comunicación: "; Fixed; SetPrecision 2; Dbl commTime; Str " μs (";
   Fixed; SetPrecision 1; Dbl (snd (ratios compTime commTime)); Str "%)"; Endl].

Lemma communicationVsComputationAnalysis_run (P : nat) clk os input :
  (1 <= P)%nat ->
  exists envs,
  run 5 (spmd P communicationVsComputationAnalysis (world P clk os input))
  = Finished (map (fun r => (tt, envs r)) (seq 0 P)) /\
  (forall r, (r < P)%nat ->
     trace (envs r) = map (fun N => reduce_call N P r) problemSizes) /\
  stdout (envs 0%nat)
  = [Str "=== ANÁLISIS COMUNICACIÓN VS CÓMPUTO ==="; Endl]
    ++ comm_line 100 P (clk 0%nat) 0 ++ comm_line 1000 P (clk 0%nat) 4
    ++ comm_line 10000 P (clk 0%nat) 8 ++ comm_line 100000 P (clk 0%nat) 12.
Proof.
  intros HP.
  eexists (fun r => if Z.of_nat r =? 0 then _ else _). unfold spmd. split; [|split].
  - unfold communicationVsComputationAnalysis.
    do 4 step_reduce_double HP.
    step_finished HP.
  - intros r Hr. unfold reduce_call, total_de, datos. destruct (Z.of_nat r =? 0); reflexivity.
  - reflexivity.
Qed.

Lemma advance_getMemoryUsage_then {A B : Type} (k1 : Z -> Proc D A) (k2 : A -> Proc D B)
      (e : Env D) :
  advance (bind (bind getMemoryUsage k1) k2) e
  = advance (bind (k1 (memory_of (sys e))) k2) e.
Proof.
  rewrite advance_bind, advance_getMemoryUsage, <- advance_bind. reflexivity.
Qed.

Ltac local_calls ::=
  rewrite ?advance_getMemoryUsage, ?advance_getMemoryUsage_then, ?advance_if_cout;
  rewrite ?advance_if_prints_then by prints_only_solver;
  rewrite ?advance_if_prints by prints_only_solver;
  cbn [output_of blank];
  cbn [advanced advance bind handle call fst snd my_rank group_size clock ticks sys
       stdin stdout stderr trace tick consume print eprint record app].

(** The collective calls of rank [r] in the whole analysis program. *)
Definition analysis_trace (P r : nat) : list (Call D) :=
  [reduce_call (elementsPerProc 10000 (Z.of_nat P)) P r; reduce_call 1000 P r]
  ++ robustness_trace P r
  ++ map (fun N => reduce_call N P r) problemSizes.

Lemma analysis_main_run (P : nat) clk os input :
  (1 <= P)%nat ->
  exists envs,
  run 29 (mpirun P main (world P clk os input))
  = Finished (map (fun r => (0, envs r)) (seq 0 P)) /\
  (forall r, (r < P)%nat -> trace (envs r) = analysis_trace P r) /\
  (forall r, (1 <= r < P)%nat -> stdout (envs r) = [] /\ stderr (envs r) = []).
Proof.
  intros HP.
  eexists (fun r => if Z.of_nat r =? 0 then _ else _). unfold mpirun. split; [|split].
  - unfold main, printSystemInfo, strongScalingAnalysis, weakScalingAnalysis,
      robustnessTest, robustnessTest_1, robustnessTest_2, robustnessTest_3,
      communicationVsComputationAnalysis.
    step_reduce_double HP.
    step_reduce_double HP.
    step_reduce_double HP.
    do 10 (step_reduce_double HP; step_bcast_double HP).
    step_reduce_int HP.
    do 4 step_reduce_double HP.
    step_finished HP.
  - intros r Hr.
    unfold analysis_trace, robustness_trace, test2_round, reduce_call, total_de, datos,
      test1_total, test2_total, test3_total, largeData, test2_data.
    destruct (Z.of_nat r =? 0); reflexivity.
  - intros r Hr. destruct (Z.eqb_spec (Z.of_nat r) 0) as [E|E]; [lia | split; reflexivity].
Qed.

End AnalysisMain.

(** * [src/test.cpp]: what the checks of rank 0 come to *)

Section TestChecks.

Context {D : Type} {dops : DoubleOps D} {rnd : RandomLib D} {mpi : MPILib}.
Import test_cpp.

(** The number of passing processes that rank 0 obtains: every other rank
    counts as passed, whatever happened. *)
Lemma verdict_total_count (P : nat) :
  schedule_valid -> (1 <= P)%nat -> Z.of_nat P <= CInt.INT_MAX ->
  verdict_total P (todasLasPruebasPasan_of P)
  = Z.of_nat (P - 1) + (if todasLasPruebasPasan_of P 0 then 1 else 0).
Proof.
  intros Hv HP Hmax. unfold verdict_total.
  assert (Hrest : Zsum (map (fun r => if todasLasPruebasPasan_of P r then 1 else 0)
                            (seq 1 (P - 1))) = Z.of_nat (P - 1)).
  { pose proof (proj2 (Zsum_verdicts_all (todasLasPruebasPasan_of P) (seq 1 (P - 1)))) as H.
    rewrite length_seq in H. apply H.
    intros r Hr. apply in_seq in Hr.
    unfold todasLasPruebasPasan_of, testReduce_of, testPromedio_of, testProgramaCompleto_of.
    destruct (Z.eqb_spec (Z.of_nat r) 0) as [E|E]; [lia | reflexivity]. }
  rewrite reduce_int_valid; [|exact Hv|exact HP|].
  - destruct P as [|P]; [lia|]. cbn [seq map Zsum fold_right].
    replace (S P - 1)%nat with P in * by lia.
    fold (Zsum (map (fun r => if todasLasPruebasPasan_of (S P) r then 1 else 0) (seq 1 P))).
    rewrite Hrest, Z.add_comm. apply wrap_in_range.
    unfold CInt.in_range, CInt.INT_MIN, CInt.INT_MAX in *.
    destruct (todasLasPruebasPasan_of (S P) 0); lia.
  - intros r _. unfold CInt.in_range, CInt.INT_MIN, CInt.INT_MAX.
    destruct (todasLasPruebasPasan_of P r); lia.
Qed.

End TestChecks.

(** * [src/main.cpp]: the run that is aborted *)

Section MainAbort.

Context {D : Type} {dops : DoubleOps D} {rnd : RandomLib D} {mpi : MPILib}.
Import main_cpp.

(** What each process wrote to [std::cerr], by rank. *)
Definition errors {A : Type} (o : Outcome D A) : list (list (Item D)) :=
  match o with
  | Finished results => map (fun x => stderr (snd x)) results
  | Aborted _ g => map (fun x => stderr (snd x)) g
  | Deadlock g => map (fun x => stderr (snd x)) g
  | OutOfFuel g => map (fun x => stderr (snd x)) g
  end.

(** What rank 0 has written when it reads [N]. *)
Definition main_prompt (P : nat) : list (Item D) :=
  [Str "=== PROGRAMA MPI: CÁLCULO DE PROMEDIO CON COMUNICACIONES COLECTIVAS ==="; Endl;
   Str "Número total de procesos: "; Int (Z.of_nat P); Endl;
   Str "Ingrese el número de valores por proceso (N): "].

Lemma main_abort_run (P : nat) (input : list Z) clk os :
  (1 <= P)%nat -> hd 0 input <= 0 ->
  exists g,
  run 2 (mpirun P main (world P clk os input)) = Aborted 1 g /\
  map (fun x => stderr (snd x)) g
  = map (fun r => if Z.of_nat r =? 0
                  then [Str "Error: N debe ser un número positivo."; Endl] else [])
        (seq 0 P) /\
  map (fun x => stdout (snd x)) g
  = map (fun r => if Z.of_nat r =? 0 then main_prompt P else []) (seq 0 P).
Proof.
  intros HP HN.
  assert (HN' : (CInt.clamp (hd 0 input) <=? 0) = true)
    by (apply Z.leb_le, clamp_nonpositive; exact HN).
  eexists. split; [|split].
  - unfold mpirun.
    erewrite run_continue.
    2:{ eapply round_barrier with (st' := fun r => if Z.of_nat r =? 0 then _ else _);
          [exact HP|]. intros r Hr. unfold main. rank0 r; reflexivity. }
    erewrite run_halt; [reflexivity|].
    eapply round_aborted; [exact HP|].
    at_rank0. rewrite HN'. simp_state. reflexivity.
  - rewrite map_map. apply map_ext_in. intros r Hr.
    rank0 r; rewrite ?HN'; reflexivity.
  - rewrite map_map. apply map_ext_in. intros r Hr.
    rank0 r; rewrite ?HN'; reflexivity.
Qed.

End MainAbort.

(** * [src/analysis.cpp]: the check of Test 3 *)

Section RobustnessCheck.

Context {D : Type} {dops : DoubleOps D} {rnd : RandomLib D} {mpi : MPILib}.
Import analysis_cpp.

(** [expectedSum] of Test 3. *)
Definition expectedSum (P : nat) : Z :=
  CInt.div (CInt.mul (Z.of_nat P) (CInt.add (Z.of_nat P) 1)) 2.

Lemma robustnessTest_3_run (P : nat) clk os input :
  (1 <= P)%nat ->
  exists envs,
  run 2 (spmd P (robustnessTest_3 (D := D)) (world P clk os input))
  = Finished (map (fun r => (tt, envs r)) (seq 0 P)) /\
  (forall r, (1 <= r < P)%nat -> stdout (envs r) = []) /\
  stdout (envs 0%nat)
  = [Str "Test 3: Verificación de sincronización..."; Endl]
    ++ (if test3_total P =? expectedSum P
        then [Str "  ✅ Test 3 completado exitosamente"; Endl]
        else [Str "  ❌ Test 3 falló: suma esperada "; Int (expectedSum P);
              Str ", obtenida "; Int (test3_total P); Endl]).
Proof.
  intros HP.
  eexists (fun r => if Z.of_nat r =? 0 then _ else _). unfold spmd. split; [|split].
  - unfold robustnessTest_3.
    step_reduce_int HP. fold (test3_total P).
    step_finished HP.
  - intros r Hr. destruct (Z.eqb_spec (Z.of_nat r) 0) as [E|E]; [lia | reflexivity].
  - reflexivity.
Qed.

Lemma expectedSum_exact (P : nat) :
  Z.of_nat P * (Z.of_nat P + 1) <= CInt.INT_MAX ->
  expectedSum P = Z.of_nat P * (Z.of_nat P + 1) / 2.
Proof.
  intros Hmax. unfold expectedSum, CInt.div, CInt.mul, CInt.add.
  assert (H1 : Z.of_nat P + 1 <= CInt.INT_MAX) by (unfold CInt.INT_MAX in *; nia).
  rewrite (wrap_in_range (z := Z.of_nat P + 1))
    by (unfold CInt.in_range, CInt.INT_MIN, CInt.INT_MAX in *; lia).
  rewrite (wrap_in_range (z := Z.of_nat P * (Z.of_nat P + 1)))
    by (unfold CInt.in_range, CInt.INT_MIN, CInt.INT_MAX in *; nia).
  rewrite Z.quot_div_nonneg by nia.
  apply wrap_in_range.
  assert (0 <= Z.of_nat P * (Z.of_nat P + 1) / 2 <= Z.of_nat P * (Z.of_nat P + 1)).
  { split; [apply Z.div_pos; nia | apply Z.div_le_upper_bound; nia]. }
  unfold CInt.in_range, CInt.INT_MIN, CInt.INT_MAX in *. lia.
Qed.

End RobustnessCheck.

(** * Further properties of the three programs *)

Section Programs.

Context {D : Type} {dops : DoubleOps D} {rnd : RandomLib D} {mpi : MPILib}.

Lemma test3_total_triangular (P : nat) :
  schedule_valid -> (1 <= P)%nat ->
  Z.of_nat P * (Z.of_nat P + 1) / 2 <= CInt.INT_MAX ->
  test3_total P = Z.of_nat P * (Z.of_nat P + 1) / 2.
Proof.
  intros Hv HP Hmax.
  assert (H0 : 0 <= Z.of_nat P * (Z.of_nat P + 1) / 2) by (apply Z.div_pos; nia).
  assert (HP' : Z.of_nat P <= Z.of_nat P * (Z.of_nat P + 1) / 2)
    by (apply Z.div_le_lower_bound; nia).
  unfold test3_total. rewrite reduce_int_valid; [|exact Hv|exact HP|].
  - rewrite (map_ext_in _ (fun r => Z.of_nat r + 1)).
    + pose proof (Zsum_ranks_plus_1 P) as H2.
      replace (Zsum (map (fun r => Z.of_nat r + 1) (seq 0 P)))
        with (Z.of_nat P * (Z.of_nat P + 1) / 2)
        by (rewrite <- H2, Z.mul_comm, Z.div_mul by lia; reflexivity).
      apply wrap_in_range. unfold CInt.in_range, CInt.INT_MIN. lia.
    + intros r Hr. apply in_seq in Hr. apply wrap_in_range.
      unfold CInt.in_range, CInt.INT_MIN, CInt.INT_MAX in *. lia.
  - intros r _. apply wrap_range.
Qed.

Lemma root_verdict (P : nat) :
  todasLasPruebasPasan_of P 0
  = testReduce_check P && testPromedio_check P && testProgramaCompleto_check P.
Proof.
  unfold todasLasPruebasPasan_of, testReduce_of, testPromedio_of, testProgramaCompleto_of.
  change (Z.of_nat 0 =? 0) with true. change (42 =? 42) with true. cbv iota.
  destruct (testReduce_check P), (testPromedio_check P), (testProgramaCompleto_check P);
    reflexivity.
Qed.

Lemma exit_code_root (P : nat) :
  schedule_valid -> (1 <= P)%nat -> Z.of_nat P <= CInt.INT_MAX ->
  exit_code P (todasLasPruebasPasan_of P) 0
  = if todasLasPruebasPasan_of P 0 then 0 else 1.
Proof.
  intros Hv HP Hmax. unfold exit_code. change (Z.of_nat 0 =? 0) with true. cbv iota.
  rewrite verdict_total_count by assumption.
  destruct (todasLasPruebasPasan_of P 0).
  - replace (Z.of_nat (P - 1) + 1) with (Z.of_nat P) by lia. rewrite Z.eqb_refl. reflexivity.
  - destruct (Z.eqb_spec (Z.of_nat (P - 1) + 0) (Z.of_nat P)) as [E|E]; [lia | reflexivity].
Qed.

Lemma exit_code_others (P : nat) (verdict : nat -> bool) (r : nat) :
  (1 <= r < P)%nat -> exit_code P verdict r = 1.
Proof.
  intros Hr. unfold exit_code.
  destruct (Z.eqb_spec (Z.of_nat r) 0) as [E|E]; [lia|].
  destruct (Z.eqb_spec 0 (Z.of_nat P)) as [E'|E']; [lia | reflexivity].
Qed.

Lemma test_main_run_fuel (P : nat) clk os input (fuel : nat) :
  (1 <= P)%nat -> (15 <= fuel)%nat ->
  exists envs,
  run fuel (mpirun P test_cpp.main (world P clk os input))
  = Finished (map (fun r => (exit_code P (todasLasPruebasPasan_of P) r, envs r)) (seq 0 P)) /\
  (forall r, (r < P)%nat -> trace (envs r) = test_trace P r).
Proof.
  intros HP Hf. destruct (test_main_run clk os input HP) as (envs & Hrun & Htr).
  exists envs. split; [|exact Htr].
  replace fuel with (15 + (fuel - 15))%nat by lia.
  rewrite run_more_fuel; [exact Hrun | rewrite Hrun; exact I].
Qed.

(** X1. For a positive [int] [N], the main program runs to completion at every
    rank with exit code 0, whatever the group size: nobody is left waiting.
    Each rank makes the same [2 P + 6] collective calls, in this order: a
    barrier, the broadcast of [N], [P + 1] barriers, the reduction of the
    partial sums, the broadcast of the average, and [P + 1] barriers. *)
Theorem main_completes (P : nat) (N : Z) (rest : list Z) clk os (fuel : nat) :
  (1 <= P)%nat -> 0 < N <= CInt.INT_MAX -> (main_fuel P <= fuel)%nat ->
  let o := run fuel (mpirun P main_cpp.main (world P clk os (N :: rest))) in
  option_map (map fst) (returned o) = Some (repeat 0 P) /\
  traces o = map (main_trace P N) (seq 0 P) /\
  (forall r, length (main_trace P N r) = (2 * P + 6)%nat) /\
  (forall r, main_trace P N r
             = [CBarrier; CBcastInt 0 N] ++ repeat CBarrier (P + 1)
               ++ [CReduceDouble 0 (main_cpp.mv_sumaParcial (main_vars P N r))
                     (main_cpp.mv_sumaTotal (main_vars P N r));
                   CBcastDouble 0 (main_cpp.mv_promedioFinal (main_vars P N r))]
               ++ repeat CBarrier (P + 1)).
Proof.
  intros HP HN Hf o.
  destruct (main_run rest clk os HP HN Hf) as (envs & Hrun & Htr).
  unfold o. rewrite Hrun. cbn [returned traces option_map]. rewrite !map_map. cbn [fst snd].
  split; [rewrite map_const, length_seq; reflexivity|].
  split; [apply map_ext_in; intros r Hr; apply Htr; apply in_seq in Hr; lia|].
  split; intros r; unfold main_trace.
  - rewrite !length_app, !repeat_length. cbn [length]. lia.
  - rewrite !repeat_app. cbn [repeat app]. rewrite <- !app_assoc. reflexivity.
Qed.

(** X2. When the number read at rank 0 is not positive, rank 0 has written
    the three lines of the prompt to [std::cout] and the error message to
    [std::cerr], and no other rank has written anything, when the run is
    aborted with code 1. *)
Theorem abort_reports_error (P : nat) (input : list Z) clk os (fuel : nat) :
  (1 <= P)%nat -> hd 0 input <= 0 -> (2 <= fuel)%nat ->
  let o := run fuel (mpirun P main_cpp.main (world P clk os input)) in
  aborted_with o = Some 1 /\
  errors o = [Str "Error: N debe ser un número positivo."; Endl] :: repeat [] (P - 1) /\
  outputs o = main_prompt P :: repeat [] (P - 1).
Proof.
  intros HP HN Hf o.
  destruct (main_abort_run input clk os HP HN) as (g & Hrun & Herr & Hout).
  assert (Ho : o = Aborted 1 g).
  { unfold o. replace fuel with (2 + (fuel - 2))%nat by lia.
    rewrite run_more_fuel; [exact Hrun | rewrite Hrun; exact I]. }
  assert (Hlist : forall (X : Type) (a b : X),
             map (fun r => if Z.of_nat r =? 0 then a else b) (seq 0 P)
             = a :: repeat b (P - 1)).
  { intros X a b. destruct P as [|P']; [lia|]. cbn [seq map].
    change (Z.of_nat 0 =? 0) with true. cbv iota. f_equal.
    replace (S P' - 1)%nat with P' by lia.
    rewrite (map_ext_in _ (fun _ => b)).
    - rewrite map_const, length_seq. reflexivity.
    - intros r Hr. apply in_seq in Hr.
      destruct (Z.eqb_spec (Z.of_nat r) 0) as [E|E]; [lia | reflexivity]. }
  rewrite Ho. cbn [aborted_with errors outputs]. rewrite Herr, Hout, !Hlist.
  repeat split; reflexivity.
Qed.

(** X3. The test program runs to completion for every group size: each
    rank makes the same fourteen collective calls, and the exit code of rank
    [r] is computed from the number of passing processes that rank [r] holds,
    which is the reduced sum at rank 0 and 0 elsewhere. *)
Theorem test_main_completes (P : nat) clk os input (fuel : nat) :
  (1 <= P)%nat -> (15 <= fuel)%nat ->
  let o := run fuel (mpirun P test_cpp.main (world P clk os input)) in
  returned o = Some (map (exit_code P (todasLasPruebasPasan_of P)) (seq 0 P)) /\
  traces o = map (test_trace P) (seq 0 P) /\
  (forall r, length (test_trace P r) = 14%nat).
Proof.
  intros HP Hf o.
  destruct (test_main_run_fuel clk os input HP Hf) as (envs & Hrun & Htr).
  unfold o. rewrite Hrun. cbn [returned traces]. rewrite !map_map. cbn [fst snd].
  split; [reflexivity|].
  split; [apply map_ext_in; intros r Hr; apply Htr; apply in_seq in Hr; lia|].
  intros r. reflexivity.
Qed.

(** X4. In a run of the test program every rank other than 0 contributes 1
    to the reduction of the verdicts, whatever happened: it checks nothing
    but the broadcast value. So the number of passing processes that rank 0
    receives is [P - 1] plus one if the three checks of rank 0 pass. *)
Theorem test_main_pass_count (P : nat) clk os input (fuel : nat) :
  schedule_valid -> (1 <= P)%nat -> Z.of_nat P <= CInt.INT_MAX -> (15 <= fuel)%nat ->
  let o := run fuel (mpirun P test_cpp.main (world P clk os input)) in
  let pasa := testReduce_check P && testPromedio_check P && testProgramaCompleto_check P in
  let v := if pasa then 1 else 0 in
  (exists tr, nth_error (traces o) 0 = Some tr /\
              nth 11 tr CBarrier = CReduceInt 0 v (Z.of_nat (P - 1) + v)) /\
  (forall r, (1 <= r < P)%nat ->
     exists tr, nth_error (traces o) r = Some tr /\
                nth 11 tr CBarrier = CReduceInt 0 1 0).
Proof.
  intros Hv HP Hmax Hf o pasa v.
  destruct (test_main_run_fuel clk os input HP Hf) as (envs & Hrun & Htr).
  unfold o. rewrite Hrun. cbn [traces]. rewrite map_map. cbn [snd]. split.
  - rewrite nth_error_map_seq by lia. eexists. split; [reflexivity|].
    rewrite (Htr 0%nat) by lia. unfold test_trace. cbn [nth].
    change (Z.of_nat 0 =? 0) with true. cbv iota.
    rewrite verdict_total_count by assumption. rewrite root_verdict. reflexivity.
  - intros r Hr. rewrite nth_error_map_seq by lia. eexists. split; [reflexivity|].
    rewrite (Htr r) by lia. unfold test_trace. cbn [nth].
    unfold todasLasPruebasPasan_of, testReduce_of, testPromedio_of, testProgramaCompleto_of.
    destruct (Z.eqb_spec (Z.of_nat r) 0) as [E|E]; [lia | reflexivity].
Qed.

(** X5. In a run of the test program, rank 0 exits with 0 exactly when its
    three checks pass, and every other rank exits with 1 whatever the checks
    gave. *)
Theorem test_main_exit_codes (P : nat) clk os input (fuel : nat) :
  schedule_valid -> (1 <= P)%nat -> Z.of_nat P <= CInt.INT_MAX -> (15 <= fuel)%nat ->
  let o := run fuel (mpirun P test_cpp.main (world P clk os input)) in
  let pasa := testReduce_check P && testPromedio_check P && testProgramaCompleto_check P in
  returned o = Some ((if pasa then 0 else 1) :: repeat 1 (P - 1)).
Proof.
  intros Hv HP Hmax Hf o pasa.
  destruct (test_main_run_fuel clk os input HP Hf) as (envs & Hrun & _).
  unfold o. rewrite Hrun. cbn [returned]. rewrite map_map. cbn [fst]. f_equal.
  destruct P as [|P']; [lia|]. cbn [seq map]. f_equal.
  - rewrite exit_code_root by assumption. rewrite root_verdict. reflexivity.
  - replace (S P' - 1)%nat with P' by lia.
    rewrite (map_ext_in _ (fun _ => 1)).
    + rewrite map_const, length_seq. reflexivity.
    + intros r Hr. apply in_seq in Hr. apply exit_code_others. lia.
Qed.

(** X8. In [weakScalingAnalysis] every rank generates exactly [NPerProc]
    values ([NPerProc] is not negative), whatever the group size; only rank 0 prints, and the average it
    prints is the reduced sum divided by the [int] product [NPerProc * P]. *)
Theorem weak_scaling_average (P : nat) (NPerProc : Z) clk os input :
  (1 <= P)%nat -> 0 <= NPerProc ->
  let o := run 2 (spmd P (analysis_cpp.weakScalingAnalysis NPerProc) (world P clk os input)) in
  returned o = Some (repeat tt P) /\
  traces o = map (fun r => [reduce_call NPerProc P r]) (seq 0 P) /\
  (forall r, length (datos NPerProc r) = Z.to_nat NPerProc) /\
  outputs o = weak_output NPerProc P (clk 0%nat) (os 0%nat) :: repeat [] (P - 1) /\
  last (weak_output NPerProc P (clk 0%nat) (os 0%nat)) Endl = Endl /\
  nth 23 (weak_output NPerProc P (clk 0%nat) (os 0%nat)) Endl
  = Dbl (ddiv (total_de NPerProc P) (dofint (CInt.mul NPerProc (Z.of_nat P)))).
Proof.
  intros HP _ o.
  destruct (weakScalingAnalysis_run NPerProc clk os input HP) as (envs & Hrun & Htr & Hsil & Hout).
  unfold o. rewrite Hrun. cbn [returned traces outputs]. rewrite !map_map. cbn [fst snd].
  split; [rewrite map_const, length_seq; reflexivity|].
  split; [apply map_ext_in; intros r Hr; apply Htr; apply in_seq in Hr; lia|].
  split; [intros r; apply length_generar|].
  split; [|split; reflexivity].
  destruct P as [|P']; [lia|]. cbn [seq map]. rewrite Hout. f_equal.
  replace (S P' - 1)%nat with P' by lia.
  rewrite (map_ext_in _ (fun _ => [])).
  - rewrite map_const, length_seq. reflexivity.
  - intros r Hr. apply in_seq in Hr. apply Hsil. lia.
Qed.

(** X9. [communicationVsComputationAnalysis] makes one reduction for each of
    the four problem sizes, in the order 100, 1000, 10000, 100000, and rank 0
    prints one line for each, with the two percentages computed from the two
    times it measured around the summation and around the reduction. *)
Theorem comm_vs_comp_rounds (P : nat) clk os input :
  (1 <= P)%nat ->
  let o := run 5 (spmd P analysis_cpp.communicationVsComputationAnalysis
                    (world P clk os input)) in
  returned o = Some (repeat tt P) /\
  traces o = map (fun r => [reduce_call 100 P r; reduce_call 1000 P r;
                            reduce_call 10000 P r; reduce_call 100000 P r]) (seq 0 P) /\
  nth_error (outputs o) 0
  = Some ([Str "=== ANÁLISIS COMUNICACIÓN VS CÓMPUTO ==="; Endl]
          ++ comm_line 100 P (clk 0%nat) 0 ++ comm_line 1000 P (clk 0%nat) 4
          ++ comm_line 10000 P (clk 0%nat) 8 ++ comm_line 100000 P (clk 0%nat) 12).
Proof.
  intros HP o.
  destruct (communicationVsComputationAnalysis_run clk os input HP) as (envs & Hrun & Htr & Hout).
  unfold o. rewrite Hrun. cbn [returned traces outputs]. rewrite !map_map. cbn [fst snd].
  split; [rewrite map_const, length_seq; reflexivity|].
  split; [apply map_ext_in; intros r Hr; apply Htr; apply in_seq in Hr; lia|].
  rewrite nth_error_map_seq by lia. rewrite Hout. reflexivity.
Qed.

(** X10. The analysis program runs to completion at every rank with exit
    code 0, for every group size: each rank makes the same 28 collective
    calls (the reductions of the two scaling analyses, the 22 calls of the
    robustness test, the four reductions of the last analysis), and no rank
    but rank 0 writes anything. *)
Theorem analysis_main_completes (P : nat) clk os input (fuel : nat) :
  (1 <= P)%nat -> (29 <= fuel)%nat ->
  let o := run fuel (mpirun P analysis_cpp.main (world P clk os input)) in
  returned o = Some (repeat 0 P) /\
  traces o = map (analysis_trace P) (seq 0 P) /\
  (forall r, length (analysis_trace P r) = 28%nat) /\
  (forall r, (1 <= r < P)%nat -> nth_error (outputs o) r = Some []).
Proof.
  intros HP Hf o.
  destruct (analysis_main_run clk os input HP) as (envs & Hrun & Htr & Hsil).
  assert (Ho : o = Finished (map (fun r => (0, envs r)) (seq 0 P))).
  { unfold o. replace fuel with (29 + (fuel - 29))%nat by lia.
    rewrite run_more_fuel; [exact Hrun | rewrite Hrun; exact I]. }
  rewrite Ho. cbn [returned traces outputs]. rewrite !map_map. cbn [fst snd].
  split; [rewrite map_const, length_seq; reflexivity|].
  split; [apply map_ext_in; intros r Hr; apply Htr; apply in_seq in Hr; lia|].
  split; [intros r; reflexivity|].
  intros r Hr. rewrite nth_error_map_seq by lia. f_equal. apply Hsil. exact Hr.
Qed.

(** X11. When [getrusage] fails at rank 0, [getMemoryUsage] returns -1 and
    the scaling analysis prints it as the memory in KB, unchecked. *)
Theorem getrusage_failure_is_printed (P : nat) (NPerProc : Z) clk os input :
  (1 <= P)%nat -> 0 <= NPerProc -> ru_maxrss (os 0%nat) = None ->
  let o := run 2 (spmd P (analysis_cpp.weakScalingAnalysis NPerProc) (world P clk os input)) in
  exists pre post,
    nth_error (outputs o) 0
    = Some (pre ++ [Str "Memoria: "; Int (-1); Str " KB | "] ++ post).
Proof.
  intros HP _ Hfail o.
  destruct (weakScalingAnalysis_run NPerProc clk os input HP) as (envs & Hrun & _ & _ & Hout).
  unfold o. rewrite Hrun. cbn [outputs]. rewrite map_map. cbn [snd].
  rewrite nth_error_map_seq by lia. rewrite Hout.
  exists (firstn 17 (weak_output NPerProc P (clk 0%nat) (os 0%nat))),
         (skipn 20 (weak_output NPerProc P (clk 0%nat) (os 0%nat))).
  unfold weak_output, memory_of. rewrite Hfail. reflexivity.
Qed.

(** X12. The self-check of Test 3 passes, and rank 0 prints so, for every
    group size whose product [P (P + 1)] is an [int]: the reduced sum of the
    values [rank + 1] equals the [expectedSum] that the code computes. *)
Theorem test3_check_passes (P : nat) clk os input :
  schedule_valid -> (1 <= P)%nat -> Z.of_nat P * (Z.of_nat P + 1) <= CInt.INT_MAX ->
  let o := run 2 (spmd P (analysis_cpp.robustnessTest_3 (D := D)) (world P clk os input)) in
  test3_total P = expectedSum P /\
  outputs o
  = [Str "Test 3: Verificación de sincronización..."; Endl;
     Str "  ✅ Test 3 completado exitosamente"; Endl] :: repeat [] (P - 1).
Proof.
  intros Hv HP Hmax o.
  assert (Hhalf : Z.of_nat P * (Z.of_nat P + 1) / 2 <= CInt.INT_MAX).
  { assert (Z.of_nat P * (Z.of_nat P + 1) / 2 <= Z.of_nat P * (Z.of_nat P + 1))
      by (apply Z.div_le_upper_bound; nia). lia. }
  assert (Heq : test3_total P = expectedSum P).
  { rewrite test3_total_triangular, expectedSum_exact by assumption. reflexivity. }
  split; [exact Heq|].
  destruct (robustnessTest_3_run clk os input HP) as (envs & Hrun & Hsil & Hout).
  unfold o. rewrite Hrun. cbn [outputs]. rewrite map_map. cbn [snd].
  destruct P as [|P']; [lia|]. cbn [seq map]. rewrite Hout, Heq, Z.eqb_refl. f_equal.
  replace (S P' - 1)%nat with P' by lia.
  rewrite (map_ext_in _ (fun _ => [])).
  - rewrite map_const, length_seq. reflexivity.
  - intros r Hr. apply in_seq in Hr. apply Hsil. lia.
Qed.

End Programs.


(** * [src/main.cpp]: what [imprimirInfoProceso] shows, and the shared seed *)

Section Shown.

Context {D : Type} {dops : DoubleOps D} {rnd : RandomLib D}.
Import main_cpp.

(** The [double]s of an output, in the order they were written. *)
Fixpoint dbls (out : list (Item D)) : list D :=
  match out with
  | [] => []
  | Dbl d :: out' => d :: dbls out'
  | _ :: out' => dbls out'
  end.

Lemma dbls_app (l1 l2 : list (Item D)) : dbls (l1 ++ l2) = dbls l1 ++ dbls l2.
Proof.
  induction l1 as [|x l1 IH]; [reflexivity|].
  destruct x; cbn [app dbls]; rewrite IH; reflexivity.
Qed.

Lemma output_of_bind (p : Proc D unit) (k : unit -> Proc D unit) :
  prints_only p -> prints_only (k tt) ->
  output_of (bind p k) = output_of p ++ output_of (k tt).
Proof.
  intros Hp Hk. unfold output_of at 1. rewrite advance_bind, (Hp blank), Hk.
  reflexivity.
Qed.

Lemma output_of_when (b : bool) (p : Proc D unit) :
  output_of (when b p) = if b then output_of p else [].
Proof. destruct b; reflexivity. Qed.

(** The loop of [imprimirInfoProceso] over the first values. *)
Definition mostrar (valores : list D) (maxMostrar : Z) (i : Z) : Proc D unit :=
  cout [Fixed; SetPrecision 2; Dbl (nth (Z.to_nat i) valores (dlit 0))] ;;
  when (i <? maxMostrar - 1) (cout [Str ", "]).

Lemma prints_only_mostrar valores maxMostrar i : prints_only (mostrar valores maxMostrar i).
Proof. unfold mostrar. prints_only_solver. Qed.

Lemma dbls_mostrar (valores : list D) (maxMostrar : Z) (n k : nat) :
  dbls (output_of (for_loop n (Z.of_nat k) (mostrar valores maxMostrar)))
  = map (fun j => nth j valores (dlit 0)) (seq k n).
Proof.
  revert k. induction n as [|n IH]; intros k; [reflexivity|].
  cbn [for_loop seq map].
  rewrite output_of_bind;
    [|apply prints_only_mostrar
     |apply prints_only_for_loop; intros j; apply prints_only_mostrar].
  rewrite dbls_app. replace (Z.of_nat k + 1) with (Z.of_nat (S k)) by lia. rewrite IH.
  f_equal. unfold mostrar.
  rewrite output_of_bind; [|prints_only_solver|prints_only_solver].
  rewrite dbls_app, output_of_when.
  change (output_of (call (cout [Fixed; SetPrecision 2;
                                 Dbl (nth (Z.to_nat (Z.of_nat k)) valores (dlit 0))])))
    with [Fixed; SetPrecision 2; Dbl (nth (Z.to_nat (Z.of_nat k)) valores (dlit 0))].
  rewrite Nat2Z.id. destruct (Z.of_nat k <? maxMostrar - 1); reflexivity.
Qed.

Lemma map_nth_seq (l : list D) (d : D) (n : nat) :
  (n <= length l)%nat -> map (fun j => nth j l d) (seq 0 n) = firstn n l.
Proof.
  revert l. induction n as [|n IH]; intros l Hn; [reflexivity|].
  destruct l as [|x l]; [simpl in Hn; lia|].
  cbn [seq map nth firstn]. f_equal.
  rewrite <- seq_shift, map_map. cbn [nth]. apply IH. simpl in Hn. lia.
Qed.

(** X15. [imprimirInfoProceso] only writes to [std::cout], and the numbers
    it writes are the first five values (all of them when there are fewer)
    in their order, followed by the partial sum; the size of the vector is
    an [int]. *)
Theorem imprimirInfoProceso_shows (rank : Z) (valores : list D) (sumaParcial : D) (e : Env D) :
  Z.of_nat (length valores) <= CInt.INT_MAX ->
  advance (imprimirInfoProceso rank valores sumaParcial) e
  = (Ret tt, print (output_of (imprimirInfoProceso rank valores sumaParcial)) e) /\
  dbls (output_of (imprimirInfoProceso rank valores sumaParcial))
  = firstn 5 valores ++ [sumaParcial].
Proof.
  intros _. split; [apply prints_only_imprimirInfoProceso|].
  unfold imprimirInfoProceso.
  fold (mostrar valores (Z.min 5 (Z.of_nat (length valores)))).
  repeat (rewrite output_of_bind;
          [|solve [prints_only_solver; apply prints_only_mostrar]
           |solve [prints_only_solver; apply prints_only_mostrar]]).
  rewrite !dbls_app, output_of_when.
  pose proof (dbls_mostrar valores (Z.min 5 (Z.of_nat (length valores)))
                (Z.to_nat (Z.min 5 (Z.of_nat (length valores)))) 0) as Hloop.
  change (Z.of_nat 0) with 0 in Hloop. rewrite Hloop.
  rewrite map_nth_seq by lia.
  replace (Z.to_nat (Z.min 5 (Z.of_nat (length valores)))) with (Nat.min 5 (length valores))
    by lia.
  assert (Hf : firstn (Nat.min 5 (length valores)) valores = firstn 5 valores).
  { destruct (Nat.le_ge_cases 5 (length valores)) as [H|H].
    - rewrite Nat.min_l by exact H. reflexivity.
    - rewrite Nat.min_r by exact H. rewrite !firstn_all2 by lia. reflexivity. }
  rewrite Hf.
  destruct (Z.min 5 (Z.of_nat (length valores)) <? Z.of_nat (length valores)); reflexivity.
Qed.

(** Every program seeds the generator of rank [r] with [r + 42]: a shorter
    vector is the beginning of a longer one. *)
Lemma generar_prefix (n m : nat) (g : Engine) :
  generar n g = firstn n (generar (n + m) g).
Proof.
  revert g. induction n as [|n IH]; intros g; [reflexivity|].
  cbn [generar Nat.add].
  destruct (uniform_real_distribution (dlit 0) (dlit 100) g) as [x g'].
  cbn [firstn]. f_equal. apply IH.
Qed.

(** X16. [src/main.cpp] and [src/analysis.cpp] seed the generator of rank
    [r] with [r + 42] and draw from the same distribution. So what rank [r]
    contributes to the reduction of [weakScalingAnalysis] is the partial sum
    of the first [NPerProc] values that [generarValoresAleatorios] gives at
    that rank for any [N >= NPerProc]. *)
Theorem shared_seed_prefix {mpi : MPILib} (P : nat) (NPerProc N : Z) clk os input :
  (1 <= P)%nat -> 0 <= NPerProc <= N ->
  traces (run 2 (spmd P (analysis_cpp.weakScalingAnalysis NPerProc) (world P clk os input)))
  = map (fun r =>
           [CReduceDouble 0
              (calcularSumaParcial
                 (firstn (Z.to_nat NPerProc) (generarValoresAleatorios N (Z.of_nat r))))
              (if Z.of_nat r =? 0 then total_de NPerProc P else dlit 0)])
        (seq 0 P).
Proof.
  intros HP Hn.
  destruct (weakScalingAnalysis_run NPerProc clk os input HP) as (envs & Hrun & Htr & _).
  rewrite Hrun. cbn [traces]. rewrite map_map. cbn [snd].
  apply map_ext_in. intros r Hr. apply in_seq in Hr. rewrite Htr by lia.
  unfold reduce_call, datos, generarValoresAleatorios.
  replace (Z.to_nat N) with (Z.to_nat NPerProc + Z.to_nat (N - NPerProc))%nat by lia.
  rewrite <- generar_prefix. reflexivity.
Qed.

End Shown.
Unset Implicit Arguments.

(** * Sums of doubles that stay between two integers *)

Module Sums64.
Import Round64 Error64 Between64.

#[local] Existing Instance Binary64.ops.
#[local] Existing Instance Binary64.random.

(** The double [x] is a number between the integers [lo] and [hi]
    (and not negative). *)
Definition holds (lo hi : Z) (x : float) : Prop :=
  fn (Prim2SF x) /\ lo * 2 ^ 1074 <= sval (Prim2SF x) <= hi * 2 ^ 1074.

Lemma add_holds (a1 b1 a2 b2 : Z) (x y : float) :
  holds a1 b1 x -> holds a2 b2 y -> 0 <= a1 <= b1 -> 0 <= a2 <= b2 -> b1 + b2 <= 2 ^ 52 ->
  holds (a1 + a2) (b1 + b2) (x + y).
Proof.
  intros [Fx Bx] [Fy By] H1 H2 Hb. unfold holds.
  rewrite FloatAxioms.add_spec.
  apply SFadd_between; try assumption; try apply FloatAxioms.Prim2SF_valid; lia.
Qed.

Lemma mul_holds (a1 b1 a2 b2 : Z) (x y : float) :
  holds a1 b1 x -> holds a2 b2 y -> 0 <= a1 <= b1 -> 0 <= a2 <= b2 -> b1 * b2 <= 2 ^ 52 ->
  holds (a1 * a2) (b1 * b2) (x * y).
Proof.
  assert (HS : 0 < 2 ^ 1074) by reflexivity.
  intros [Fx Bx] [Fy By] H1 H2 Hb. unfold holds.
  rewrite FloatAxioms.mul_spec.
  apply SFmul_between; try assumption; try apply FloatAxioms.Prim2SF_valid; [nia |].
  set (S := 2 ^ 1074) in *. clearbody S.
  set (u := sval (Prim2SF x)) in *. set (v := sval (Prim2SF y)) in *. clearbody u v.
  split.
  - replace (a1 * a2 * (S * S)) with ((a1 * S) * (a2 * S)) by ring.
    apply Z.mul_le_mono_nonneg; nia.
  - replace (b1 * b2 * (S * S)) with ((b1 * S) * (b2 * S)) by ring.
    apply Z.mul_le_mono_nonneg; nia.
Qed.

Lemma div_holds (a b k lo hi : Z) (x y : float) :
  holds a b x -> holds k k y -> 0 < k ->
  0 <= lo <= hi -> hi <= 2 ^ 52 -> lo * k <= a -> b <= hi * k ->
  holds lo hi (x / y).
Proof.
  assert (HS : 0 < 2 ^ 1074) by reflexivity.
  intros [Fx Bx] [Fy By] Hk Hlh Hhi Hl Hh. unfold holds.
  rewrite FloatAxioms.div_spec.
  assert (Ey : sval (Prim2SF y) = k * 2 ^ 1074) by lia.
  apply SFdiv_between; try assumption; try apply FloatAxioms.Prim2SF_valid.
  - rewrite Ey. nia.
  - rewrite Ey. set (S := 2 ^ 1074) in *. clearbody S. nia.
Qed.

Lemma of_Z_holds (k : Z) : 0 <= k <= 2 ^ 52 -> holds k k (Binary64.of_Z k).
Proof.
  intros Hk. unfold holds, Binary64.of_Z.
  destruct (Z.ltb_spec k 0) as [H|_]; [lia|].
  rewrite FloatAxioms.of_uint63_spec, Uint63.of_Z_spec.
  rewrite Z.mod_small
    by (change Uint63.wB with (2 ^ 63); assert (2 ^ 52 < 2 ^ 63) by reflexivity; lia).
  destruct k as [|p|p]; [| |lia].
  - cbn [binary_normalize]. split; [left; exists false; reflexivity | cbn [sval]; lia].
  - cbn [binary_normalize]. apply binary_round_between; lia.
Qed.

(** Two valid positive floats of the same value are the same float. *)
Lemma val_inj (m1 m2 : positive) (e1 e2 : Z) :
  valid_binary (S754_finite false m1 e1) = true ->
  valid_binary (S754_finite false m2 e2) = true ->
  val m1 e1 = val m2 e2 -> m1 = m2 /\ e1 = e2.
Proof.
  intros V1 V2 E.
  destruct (valid_val _ _ _ V1) as (He1 & Hu1 & Hn1).
  destruct (valid_val _ _ _ V2) as (He2 & Hu2 & Hn2).
  unfold val in E.
  assert (Hlt : forall ma mb ea eb,
             -1074 <= ea -> ea < eb -> Zpos ma < 2 ^ 53 -> 2 ^ 52 <= Zpos mb ->
             Zpos ma * 2 ^ (ea + 1074) = Zpos mb * 2 ^ (eb + 1074) -> False).
  { intros ma mb ea eb Ha Hab Hma Hmb Eab.
    replace (eb + 1074) with (eb - ea + (ea + 1074)) in Eab by lia.
    rewrite (Z.pow_add_r 2 (eb - ea) (ea + 1074)) in Eab by lia.
    assert (0 < 2 ^ (ea + 1074)) by (apply pow2_pos; lia).
    assert (2 ^ 1 <= 2 ^ (eb - ea)) by (apply Z.pow_le_mono_r; lia).
    change (2 ^ 1) with 2 in *. change (2 ^ 52) with 4503599627370496 in *.
    change (2 ^ 53) with 9007199254740992 in *.
    assert (Zpos ma = Zpos mb * 2 ^ (eb - ea)) by nia. nia. }
  destruct (Z.lt_trichotomy e1 e2) as [L|[Eq|G]].
  - exfalso. apply (Hlt m1 m2 e1 e2); lia.
  - subst e2. split; [|reflexivity].
    assert (0 < 2 ^ (e1 + 1074)) by (apply pow2_pos; lia).
    assert (Zpos m1 = Zpos m2) by nia. congruence.
  - exfalso. apply (Hlt m2 m1 e2 e1); lia.
Qed.

Lemma holds_eq (k : Z) (x y : float) :
  holds k k x -> holds k k y -> 0 < k -> x = y.
Proof.
  assert (HS : 0 < 2 ^ 1074) by reflexivity.
  intros [Fx Bx] [Fy By] Hk. apply FloatAxioms.Prim2SF_inj.
  pose proof (FloatAxioms.Prim2SF_valid x) as Vx.
  pose proof (FloatAxioms.Prim2SF_valid y) as Vy.
  destruct Fx as [[sx Ex]|(mx & ex & Ex)]; rewrite Ex in *; [cbn [sval] in Bx; nia|].
  destruct Fy as [[sy Ey]|(my & ey & Ey)]; rewrite Ey in *; [cbn [sval] in By; nia|].
  cbn [sval] in Bx, By.
  destruct (val_inj mx my ex ey Vx Vy ltac:(lia)) as [-> ->]. reflexivity.
Qed.

Lemma tolerance_positive :
  SFltb (S754_zero false) (Prim2SF (dlit (DoubleOps := Binary64.ops) 1e-10)) = true.
Proof. vm_compute. reflexivity. Qed.

(** Comparing a number with itself, as the tests do. *)
Lemma same_within_tolerance (lo hi : Z) (x : float) :
  holds lo hi x ->
  dltb (DoubleOps := Binary64.ops) (dabs (dsub x x)) (dlit 1e-10) = true.
Proof.
  intros [Fx _]. cbn [dltb dabs dsub Binary64.ops].
  rewrite FloatAxioms.ltb_spec, FloatAxioms.abs_spec, FloatAxioms.sub_spec.
  destruct Fx as [[sx Ex]|(mx & ex & Ex)]; rewrite Ex.
  - destruct sx; exact tolerance_positive.
  - unfold SF64sub. cbn [SFsub cond_Zopp]. rewrite Z.sub_diag. cbn [binary_normalize SFabs].
    exact tolerance_positive.
Qed.

Lemma holds_leb_0 (lo hi : Z) (x : float) :
  holds lo hi x -> dleb (DoubleOps := Binary64.ops) (dlit 0) x = true.
Proof.
  intros [Fx _]. cbn [dleb Binary64.ops]. rewrite FloatAxioms.leb_spec.
  replace (Prim2SF (dlit (DoubleOps := Binary64.ops) 0)) with (S754_zero false)
    by (symmetry; apply Draw64.Prim2SF_0).
  destruct Fx as [[sx ->]|(mx & ex & ->)]; reflexivity.
Qed.

Lemma holds_leb_100 (lo : Z) (x : float) :
  holds lo 100 x -> dleb (DoubleOps := Binary64.ops) x (dlit 100) = true.
Proof.
  intros [Fx Bx]. cbn [dleb Binary64.ops]. rewrite FloatAxioms.leb_spec, Draw64.Prim2SF_100.
  pose proof (FloatAxioms.Prim2SF_valid x) as Vx.
  destruct Fx as [[sx ->]|(mx & ex & Ex)]; [reflexivity|]. rewrite Ex in *.
  unfold SFleb. rewrite SFcompare_finite by (exact Vx || reflexivity).
  cbn [sval] in Bx. rewrite <- Ratios64.sval_100 in Bx. cbn [sval] in Bx.
  destruct (Z.compare_spec (val mx ex) (val c100 (-46))); try reflexivity. lia.
Qed.

(** A draw from [[0, 100)]. *)
Lemma in_range_holds (x : float) :
  PrimFloat.leb (dlit (DoubleOps := Binary64.ops) 0) x = true ->
  PrimFloat.ltb x (dlit (DoubleOps := Binary64.ops) 100) = true ->
  holds 0 100 x.
Proof.
  rewrite FloatAxioms.leb_spec, FloatAxioms.ltb_spec, Draw64.Prim2SF_0, Draw64.Prim2SF_100.
  pose proof (FloatAxioms.Prim2SF_valid x) as Vx.
  unfold holds. destruct (Prim2SF x) as [s|s| |s m e]; intros H0 H1.
  - split; [left; exists s; reflexivity | cbn [sval]; lia].
  - destruct s; discriminate.
  - discriminate.
  - destruct s; [discriminate H0|].
    split; [right; exists m, e; reflexivity|]. cbn [sval].
    unfold SFltb in H1. rewrite SFcompare_finite in H1 by (exact Vx || reflexivity).
    destruct (valid_val _ _ _ Vx) as (He & _).
    pose proof (val_pos m e ltac:(lia)).
    rewrite <- Ratios64.sval_100. cbn [sval].
    destruct (Z.compare_spec (val m e) (val c100 (-46))); try discriminate. lia.
Qed.

(** ** Reductions and loops *)

Lemma Zsum_nonneg (f : nat -> Z) (l : list nat) :
  (forall r, In r l -> 0 <= f r) -> 0 <= Zsum (map f l).
Proof.
  induction l as [|r l IH]; intros H; cbn [map Zsum fold_right]; [lia|].
  assert (0 <= f r) by (apply H; left; reflexivity).
  assert (0 <= Zsum (map f l)) by (apply IH; intros r' Hr'; apply H; right; exact Hr').
  unfold Zsum in *. lia.
Qed.

Lemma Zsum_le (f g : nat -> Z) (l : list nat) :
  (forall r, In r l -> f r <= g r) -> Zsum (map f l) <= Zsum (map g l).
Proof.
  induction l as [|r l IH]; intros H; cbn [map Zsum fold_right]; [lia|].
  assert (f r <= g r) by (apply H; left; reflexivity).
  assert (Zsum (map f l) <= Zsum (map g l)) by (apply IH; intros r' Hr'; apply H; right; exact Hr').
  unfold Zsum in *. lia.
Qed.

Lemma reduce_tree_holds (t : RTree) (contrib : list float) (dflt : float) (lo hi : nat -> Z) :
  (forall r, In r (leaves t) -> holds (lo r) (hi r) (nth r contrib dflt) /\ 0 <= lo r <= hi r) ->
  Zsum (map hi (leaves t)) <= 2 ^ 52 ->
  holds (Zsum (map lo (leaves t))) (Zsum (map hi (leaves t)))
        (reduce_tree PrimFloat.add dflt t contrib).
Proof.
  induction t as [r|l IHl r IHr]; intros H Hb; cbn [leaves reduce_tree] in *.
  - destruct (H r (or_introl eq_refl)) as [Hh _].
    cbn [map Zsum fold_right]. rewrite !Z.add_0_r. exact Hh.
  - rewrite !map_app, !Zsum_app in *.
    assert (Hl : forall r0, In r0 (leaves l) ->
               holds (lo r0) (hi r0) (nth r0 contrib dflt) /\ 0 <= lo r0 <= hi r0)
      by (intros r0 Hr0; apply H, in_or_app; left; exact Hr0).
    assert (Hr : forall r0, In r0 (leaves r) ->
               holds (lo r0) (hi r0) (nth r0 contrib dflt) /\ 0 <= lo r0 <= hi r0)
      by (intros r0 Hr0; apply H, in_or_app; right; exact Hr0).
    pose proof (Zsum_nonneg lo (leaves l) (fun r0 Hr0 => proj1 (proj2 (Hl r0 Hr0)))).
    pose proof (Zsum_nonneg lo (leaves r) (fun r0 Hr0 => proj1 (proj2 (Hr r0 Hr0)))).
    pose proof (Zsum_le lo hi (leaves l) (fun r0 Hr0 => proj2 (proj2 (Hl r0 Hr0)))).
    pose proof (Zsum_le lo hi (leaves r) (fun r0 Hr0 => proj2 (proj2 (Hr r0 Hr0)))).
    apply add_holds; [apply IHl | apply IHr | | |]; try assumption; lia.
Qed.

Lemma reduce_schedule_holds {mpi : MPILib} (P : nat) (f : nat -> float) (dflt : float)
      (lo hi : nat -> Z) :
  schedule_valid -> (1 <= P)%nat ->
  (forall r, (r < P)%nat -> holds (lo r) (hi r) (f r) /\ 0 <= lo r <= hi r) ->
  Zsum (map hi (seq 0 P)) <= 2 ^ 52 ->
  holds (Zsum (map lo (seq 0 P))) (Zsum (map hi (seq 0 P)))
        (reduce_tree PrimFloat.add dflt (schedule P) (map f (seq 0 P))).
Proof.
  intros Hv HP H Hb. pose proof (Hv P HP) as Hperm.
  rewrite <- (Zsum_perm (Permutation_map lo Hperm)).
  rewrite <- (Zsum_perm (Permutation_map hi Hperm)) in *.
  apply reduce_tree_holds; [|exact Hb].
  intros r Hr. apply (Permutation_in _ Hperm), in_seq in Hr.
  rewrite nth_map_seq by lia. apply H. lia.
Qed.

Lemma fold_left_holds (l : list float) (acc : float) (a b c : Z) :
  Forall (holds 0 c) l -> holds a b acc -> 0 <= a <= b -> 0 <= c ->
  b + c * Z.of_nat (length l) <= 2 ^ 52 ->
  holds a (b + c * Z.of_nat (length l)) (fold_left PrimFloat.add l acc).
Proof.
  revert acc a b. induction l as [|x l IH]; intros acc a b Hl Hacc Hab Hc Hb.
  - cbn [fold_left length]. replace (b + c * Z.of_nat 0) with b by lia. exact Hacc.
  - inversion Hl as [|x' l' Hx Hl']; subst.
    cbn [fold_left]. cbn [length] in *. rewrite Nat2Z.inj_succ in *.
    replace (b + c * Z.succ (Z.of_nat (length l)))
      with ((b + c) + c * Z.of_nat (length l)) in * by lia.
    assert (0 <= c * Z.of_nat (length l)) by nia.
    replace a with (a + 0) by lia.
    apply IH; [exact Hl' | | lia | exact Hc | lia].
    apply add_holds; [exact Hacc | exact Hx | lia | lia | lia].
Qed.

End Sums64.

(** * The test program in binary64 *)

Section TestSuite64.

Context {mpi : MPILib}.
Import Round64 Error64 Between64 Sums64.

#[local] Existing Instance Binary64.ops.
#[local] Existing Instance Binary64.random.

Lemma dlit_0_holds : holds 0 0 (dlit 0).
Proof.
  unfold holds. rewrite Draw64.Prim2SF_0. split; [left; exists false; reflexivity|].
  cbn [sval]. lia.
Qed.

Lemma dlit_10_holds : holds 10 10 (dlit 10).
Proof.
  unfold holds.
  replace (Prim2SF (dlit 10)) with (S754_finite false 5629499534213120 (-49))
    by (vm_compute; reflexivity).
  split; [right; eexists _, _; reflexivity|]. cbn [sval].
  replace (val 5629499534213120 (-49)) with (10 * 2 ^ 1074) by (vm_compute; reflexivity). lia.
Qed.

Lemma sumar_valores_holds : holds 15 15 (sumar testPromedio_valores).
Proof.
  unfold holds.
  replace (Prim2SF (sumar testPromedio_valores))
    with (S754_finite false 8444249301319680 (-49)) by (vm_compute; reflexivity).
  split; [right; eexists _, _; reflexivity|]. cbn [sval].
  replace (val 8444249301319680 (-49)) with (15 * 2 ^ 1074) by (vm_compute; reflexivity). lia.
Qed.

Lemma dofint_holds (k : Z) : 0 <= k <= 2 ^ 52 -> holds k k (dofint k).
Proof. apply of_Z_holds. Qed.

Lemma Zsum_const (c : Z) (l : list nat) : Zsum (map (fun _ => c) l) = c * Z.of_nat (length l).
Proof.
  induction l as [|r l IH]; cbn [map length]; [cbn; lia|].
  change (Zsum (c :: map (fun _ => c) l)) with (c + Zsum (map (fun _ => c) l)).
  rewrite IH. lia.
Qed.

Lemma Zsum_cons (x : Z) (l : list Z) : Zsum (x :: l) = x + Zsum l.
Proof. reflexivity. Qed.

Lemma Zsum_promedio (P : nat) :
  Zsum (map (fun r => 15 + 50 * Z.of_nat r) (seq 0 P))
  = 15 * Z.of_nat P + 25 * Z.of_nat P * (Z.of_nat P - 1).
Proof.
  induction P as [|P IH]; [reflexivity|].
  rewrite seq_S, map_app, Zsum_app, IH. cbn [map]. rewrite Zsum_cons. cbn [Zsum fold_right].
  cbn [Nat.add]. lia.
Qed.

Lemma Zsum_triangular (P : nat) :
  Zsum (map (fun r => Z.of_nat r + 1) (seq 0 P)) = Z.of_nat P * (Z.of_nat P + 1) / 2.
Proof.
  pose proof (Zsum_ranks_plus_1 P) as H. rewrite <- H, Z.mul_comm, Z.div_mul by lia.
  reflexivity.
Qed.

(** *** [testReduce] *)

Lemma sumaEsperada_holds (n k : nat) (acc : float) (A : Z) :
  holds A A acc -> 0 <= A ->
  A + Zsum (map (fun j => Z.of_nat j + 1) (seq k n)) <= 2 ^ 52 ->
  Z.of_nat (k + n) <= 1000000 ->
  holds (A + Zsum (map (fun j => Z.of_nat j + 1) (seq k n)))
        (A + Zsum (map (fun j => Z.of_nat j + 1) (seq k n)))
        (test_cpp.sumaEsperada_desde n (Z.of_nat k) acc).
Proof.
  revert k acc A. induction n as [|n IH]; intros k acc A Hacc HA Hb Hk.
  - cbn [seq map test_cpp.sumaEsperada_desde]. cbn [Zsum fold_right]. rewrite Z.add_0_r.
    exact Hacc.
  - cbn [seq map test_cpp.sumaEsperada_desde]. cbn [seq map] in Hb. rewrite Zsum_cons in *.
    assert (H0 : 0 <= Zsum (map (fun j => Z.of_nat j + 1) (seq (S k) n)))
      by (apply Zsum_nonneg; intros; lia).
    replace (Z.of_nat k + 1) with (Z.of_nat (S k)) at 3 by lia.
    replace (A + (Z.of_nat k + 1 + Zsum (map (fun j => Z.of_nat j + 1) (seq (S k) n))))
      with ((A + (Z.of_nat k + 1)) + Zsum (map (fun j => Z.of_nat j + 1) (seq (S k) n)))
      by lia.
    apply IH; [| lia | lia | lia].
    unfold CInt.add. rewrite wrap_in_range
      by (unfold CInt.in_range, CInt.INT_MIN, CInt.INT_MAX; lia).
    apply add_holds; [exact Hacc | apply dofint_holds | lia | lia | lia].
    assert (2 ^ 52 = 4503599627370496) by reflexivity. lia.
Qed.

Lemma testReduce_total_exact (P : nat) :
  schedule_valid -> (1 <= P)%nat -> Z.of_nat P <= 1000000 ->
  testReduce_total P = Binary64.of_Z (Z.of_nat P * (Z.of_nat P + 1) / 2) /\
  test_cpp.sumaEsperada_desde P 0 (dlit 0) = Binary64.of_Z (Z.of_nat P * (Z.of_nat P + 1) / 2).
Proof.
  intros Hv HP HPmax.
  assert (E52 : 2 ^ 52 = 4503599627370496) by reflexivity.
  pose proof (Zsum_triangular P) as HK.
  pose proof (Zsum_ranks_plus_1 P) as H2.
  set (K := Z.of_nat P * (Z.of_nat P + 1) / 2) in *.
  assert (HKb : 0 < K <= 2 ^ 52) by (rewrite <- HK in *; nia).
  pose proof (of_Z_holds K ltac:(lia)) as HofZ.
  split.
  - apply (holds_eq K); [| exact HofZ | lia].
    unfold testReduce_total. rewrite <- HK.
    apply (reduce_schedule_holds P (fun r => dofint (CInt.add (Z.of_nat r) 1)) (dlit 0)
             (fun r => Z.of_nat r + 1) (fun r => Z.of_nat r + 1) Hv); [lia | | rewrite HK; lia].
    intros r Hr. split; [|lia].
    unfold CInt.add. rewrite wrap_in_range
      by (unfold CInt.in_range, CInt.INT_MIN, CInt.INT_MAX; lia).
    apply dofint_holds. lia.
  - apply (holds_eq K); [| exact HofZ | lia].
    pose proof (sumaEsperada_holds P 0 (dlit 0) 0 dlit_0_holds ltac:(lia)) as H.
    rewrite HK in H. cbn [Z.of_nat] in H. rewrite Z.add_0_l in H.
    apply H; lia.
Qed.

(** *** [testPromedio] *)

Lemma promedio_local_holds (r : nat) :
  Z.of_nat r <= 1000000 ->
  holds (15 + 50 * Z.of_nat r) (15 + 50 * Z.of_nat r)
        (dadd (sumar testPromedio_valores)
              (dmul (dofint (CInt.mul (Z.of_nat r) 5)) (dlit 10))).
Proof.
  intros Hr. assert (E52 : 2 ^ 52 = 4503599627370496) by reflexivity.
  unfold CInt.mul. rewrite wrap_in_range
    by (unfold CInt.in_range, CInt.INT_MIN, CInt.INT_MAX; lia).
  replace (50 * Z.of_nat r) with (Z.of_nat r * 5 * 10) by lia.
  apply add_holds; [exact sumar_valores_holds | | lia | lia | lia].
  apply mul_holds; [apply dofint_holds; lia | exact dlit_10_holds | lia | lia | lia].
Qed.

Lemma promedio_sumaEsperada_holds (n k : nat) (acc : float) (A : Z) :
  holds A A acc -> 0 <= A ->
  A + Zsum (map (fun j => 15 + 50 * Z.of_nat j) (seq k n)) <= 2 ^ 52 ->
  Z.of_nat (k + n) <= 1000000 ->
  holds (A + Zsum (map (fun j => 15 + 50 * Z.of_nat j) (seq k n)))
        (A + Zsum (map (fun j => 15 + 50 * Z.of_nat j) (seq k n)))
        (test_cpp.promedio_sumaEsperada n (Z.of_nat k) testPromedio_valores 5 acc).
Proof.
  revert k acc A. induction n as [|n IH]; intros k acc A Hacc HA Hb Hk.
  - cbn [seq map test_cpp.promedio_sumaEsperada]. cbn [Zsum fold_right]. rewrite Z.add_0_r.
    exact Hacc.
  - cbn [seq map test_cpp.promedio_sumaEsperada]. cbn [seq map] in Hb.
    rewrite Zsum_cons in *.
    assert (H0 : 0 <= Zsum (map (fun j => 15 + 50 * Z.of_nat j) (seq (S k) n)))
      by (apply Zsum_nonneg; intros; lia).
    replace (Z.of_nat k + 1) with (Z.of_nat (S k)) by lia.
    replace (A + (15 + 50 * Z.of_nat k
                  + Zsum (map (fun j => 15 + 50 * Z.of_nat j) (seq (S k) n))))
      with ((A + (15 + 50 * Z.of_nat k))
            + Zsum (map (fun j => 15 + 50 * Z.of_nat j) (seq (S k) n))) by lia.
    apply IH; [| lia | lia | lia].
    apply add_holds; [exact Hacc | apply promedio_local_holds | lia | lia | lia]. lia.
Qed.

Lemma testPromedio_total_exact (P : nat) :
  schedule_valid -> (1 <= P)%nat -> Z.of_nat P <= 1000000 ->
  let T := 15 * Z.of_nat P + 25 * Z.of_nat P * (Z.of_nat P - 1) in
  testPromedio_total P = Binary64.of_Z T /\
  test_cpp.promedio_sumaEsperada P 0 testPromedio_valores 5 (dlit 0) = Binary64.of_Z T /\
  holds T T (Binary64.of_Z T) /\ 0 < T.
Proof.
  intros Hv HP HPmax T.
  assert (E52 : 2 ^ 52 = 4503599627370496) by reflexivity.
  pose proof (Zsum_promedio P) as HT. fold T in HT.
  assert (HTb : 0 < T <= 2 ^ 52) by (unfold T; nia).
  pose proof (of_Z_holds T ltac:(lia)) as HofZ.
  split; [|split; [|split; [exact HofZ | lia]]].
  - apply (holds_eq T); [| exact HofZ | lia].
    unfold testPromedio_total. rewrite <- HT.
    apply (reduce_schedule_holds P
             (fun r => dadd (sumar testPromedio_valores)
                            (dmul (dofint (CInt.mul (Z.of_nat r) 5)) (dlit 10)))
             (dlit 0)
             (fun r => 15 + 50 * Z.of_nat r) (fun r => 15 + 50 * Z.of_nat r) Hv);
      [lia | | rewrite HT; lia].
    intros r Hr. split; [apply promedio_local_holds; lia | lia].
  - apply (holds_eq T); [| exact HofZ | lia].
    pose proof (promedio_sumaEsperada_holds P 0 (dlit 0) 0 dlit_0_holds ltac:(lia)) as H.
    rewrite HT in H. cbn [Z.of_nat] in H. rewrite Z.add_0_l in H.
    apply H; lia.
Qed.

Lemma testReduce_check_binary64 (P : nat) :
  schedule_valid -> (1 <= P)%nat -> Z.of_nat P <= 1000000 -> testReduce_check P = true.
Proof.
  intros Hv HP HPmax. unfold testReduce_check.
  destruct (testReduce_total_exact P Hv HP HPmax) as [-> ->].
  assert (E52 : 2 ^ 52 = 4503599627370496) by reflexivity.
  pose proof (Zsum_triangular P) as HK. pose proof (Zsum_ranks_plus_1 P) as H2.
  apply (same_within_tolerance (Z.of_nat P * (Z.of_nat P + 1) / 2)
                               (Z.of_nat P * (Z.of_nat P + 1) / 2)).
  apply of_Z_holds. rewrite <- HK. nia.
Qed.

Lemma testPromedio_check_binary64 (P : nat) :
  schedule_valid -> (1 <= P)%nat -> Z.of_nat P <= 1000000 -> testPromedio_check P = true.
Proof.
  intros Hv HP HPmax. unfold testPromedio_check.
  destruct (testPromedio_total_exact P Hv HP HPmax) as (-> & -> & HT & HT0).
  assert (E52 : 2 ^ 52 = 4503599627370496) by reflexivity.
  apply (same_within_tolerance 0 (2 ^ 52)).
  unfold CInt.mul. rewrite wrap_in_range
    by (unfold CInt.in_range, CInt.INT_MIN, CInt.INT_MAX; lia).
  apply (div_holds _ _ (5 * Z.of_nat P) 0 (2 ^ 52) _ _ HT); try lia.
  - apply dofint_holds. lia.
  - nia.
Qed.

(** *** [testProgramaCompleto] *)

Lemma generar_holds (n : nat) (g : Engine) : Forall (holds 0 100) (generar n g).
Proof.
  apply (Forall_impl _ (P := fun x => dleb (dlit 0) x = true /\ dltb x (dlit 100) = true)).
  - intros x [H0 H1]. apply in_range_holds; assumption.
  - apply generar_in_range, binary64_distribucion_range.
Qed.

Lemma sumar_generar_holds (g : Engine) : holds 0 10000 (sumar (generar 100 g)).
Proof.
  assert (E52 : 2 ^ 52 = 4503599627370496) by reflexivity.
  unfold sumar.
  pose proof (fold_left_holds (generar 100 g) (dlit 0) 0 0 100 (generar_holds 100 g)
                dlit_0_holds ltac:(lia) ltac:(lia)) as H.
  rewrite length_generar in H. apply H. cbn. lia.
Qed.

Lemma testProgramaCompleto_total_holds (P : nat) :
  schedule_valid -> (1 <= P)%nat -> Z.of_nat P <= 1000000 ->
  holds 0 (10000 * Z.of_nat P) (testProgramaCompleto_total P).
Proof.
  intros Hv HP HPmax.
  assert (E52 : 2 ^ 52 = 4503599627370496) by reflexivity.
  pose proof (reduce_schedule_holds P
             (fun r => sumar (generar 100 (mt19937 (CInt.add (Z.of_nat r) 42)))) (dlit 0)
             (fun _ => 0) (fun _ => 10000) Hv HP) as H.
  rewrite !Zsum_const, length_seq in H. unfold testProgramaCompleto_total.
  replace (0 * Z.of_nat P) with 0 in H by lia. apply H; [|lia].
  intros r Hr. split; [apply sumar_generar_holds | lia].
Qed.

Lemma testProgramaCompleto_check_binary64 (P : nat) :
  schedule_valid -> (1 <= P)%nat -> Z.of_nat P <= 1000000 ->
  testProgramaCompleto_check P = true.
Proof.
  intros Hv HP HPmax. unfold testProgramaCompleto_check. cbv zeta.
  assert (E52 : 2 ^ 52 = 4503599627370496) by reflexivity.
  unfold CInt.mul. rewrite wrap_in_range
    by (unfold CInt.in_range, CInt.INT_MIN, CInt.INT_MAX; lia).
  assert (Hq : holds 0 100 (ddiv (testProgramaCompleto_total P) (dofint (100 * Z.of_nat P)))).
  { apply (div_holds _ _ (100 * Z.of_nat P) 0 100 _ _
             (testProgramaCompleto_total_holds P Hv HP HPmax)); try lia.
    apply dofint_holds. lia. }
  rewrite (holds_leb_0 _ _ _ Hq), (holds_leb_100 _ _ Hq). reflexivity.
Qed.

Lemma root_passes_binary64 (P : nat) :
  schedule_valid -> (1 <= P)%nat -> Z.of_nat P <= 1000000 ->
  todasLasPruebasPasan_of P 0 = true.
Proof.
  intros Hv HP HPmax.
  rewrite root_verdict, testReduce_check_binary64, testPromedio_check_binary64,
    testProgramaCompleto_check_binary64 by assumption.
  reflexivity.
Qed.

(** X17. The test program in binary64, [testReduce]: whatever the order in
    which the MPI library combines the contributions, in a group of up to a
    million processes the sum that the reduction delivers at rank 0 is
    exactly the double [P (P + 1) / 2], the same double as the [sumaEsperada]
    of the loop, so the check of rank 0 passes: no rounding takes place. *)
Theorem testReduce_sum_binary64 (P : nat) clk os input (fuel : nat) :
  schedule_valid -> (1 <= P)%nat -> Z.of_nat P <= 1000000 -> (15 <= fuel)%nat ->
  let o := run fuel (mpirun P test_cpp.main (world P clk os input)) in
  let esperada := Binary64.of_Z (Z.of_nat P * (Z.of_nat P + 1) / 2) in
  (exists tr, nth_error (traces o) 0 = Some tr /\
              nth 3 tr CBarrier = CReduceDouble 0 (Binary64.of_Z 1) esperada) /\
  test_cpp.sumaEsperada_desde (Z.to_nat (Z.of_nat P)) 0 (dlit 0) = esperada /\
  testReduce_check P = true.
Proof.
  intros Hv HP HPmax Hf o esperada.
  destruct (test_main_run_fuel clk os input HP Hf) as (envs & Hrun & Htr).
  destruct (testReduce_total_exact P Hv HP HPmax) as [Et Ee].
  split; [|split; [rewrite Nat2Z.id; exact Ee | apply testReduce_check_binary64; assumption]].
  unfold o. rewrite Hrun. cbn [traces]. rewrite map_map. cbn [snd].
  rewrite nth_error_map_seq by lia. eexists. split; [reflexivity|].
  rewrite (Htr 0%nat) by lia. unfold test_trace. cbn [nth].
  change (Z.of_nat 0 =? 0) with true. cbv iota. rewrite Et. reflexivity.
Qed.

(** X18. The test program in binary64, [testPromedio]: in a group of up to
    a million processes rank 0 contributes 15 and receives exactly the
    double [15 P + 25 P (P - 1)], the same double as the [sumaEsperada] of the
    nested loops; the two averages are the same quotient and the check
    passes. *)
Theorem testPromedio_sum_binary64 (P : nat) clk os input (fuel : nat) :
  schedule_valid -> (1 <= P)%nat -> Z.of_nat P <= 1000000 -> (15 <= fuel)%nat ->
  let o := run fuel (mpirun P test_cpp.main (world P clk os input)) in
  let esperada :=
    Binary64.of_Z (15 * Z.of_nat P + 25 * Z.of_nat P * (Z.of_nat P - 1)) in
  (exists tr, nth_error (traces o) 0 = Some tr /\
              nth 5 tr CBarrier = CReduceDouble 0 (Binary64.of_Z 15) esperada) /\
  test_cpp.promedio_sumaEsperada (Z.to_nat (Z.of_nat P)) 0 testPromedio_valores 5 (dlit 0)
  = esperada /\
  testPromedio_check P = true.
Proof.
  intros Hv HP HPmax Hf o esperada.
  destruct (test_main_run_fuel clk os input HP Hf) as (envs & Hrun & Htr).
  destruct (testPromedio_total_exact P Hv HP HPmax) as (Et & Ee & _).
  split; [|split; [rewrite Nat2Z.id; exact Ee | apply testPromedio_check_binary64; assumption]].
  unfold o. rewrite Hrun. cbn [traces]. rewrite map_map. cbn [snd].
  rewrite nth_error_map_seq by lia. eexists. split; [reflexivity|].
  rewrite (Htr 0%nat) by lia. unfold test_trace. cbn [nth].
  change (Z.of_nat 0 =? 0) with true. cbv iota. rewrite Et. reflexivity.
Qed.

(** X19. The test program in binary64, the whole suite: in a group of up to
    a million processes, whatever the order of combination, the average of
    [testProgramaCompleto] lies in [[0, 100]], the three checks of rank 0
    pass, rank 0 receives [P] as the number of passing processes and exits
    with 0, and every other rank exits with 1. *)
Theorem test_suite_binary64 (P : nat) clk os input (fuel : nat) :
  schedule_valid -> (1 <= P)%nat -> Z.of_nat P <= 1000000 -> (15 <= fuel)%nat ->
  let o := run fuel (mpirun P test_cpp.main (world P clk os input)) in
  returned o = Some (0 :: repeat 1 (P - 1)) /\
  (exists tr, nth_error (traces o) 0 = Some tr /\
              nth 11 tr CBarrier = CReduceInt 0 1 (Z.of_nat P)) /\
  testProgramaCompleto_check P = true.
Proof.
  intros Hv HP HPmax Hf o.
  destruct (test_main_run_fuel clk os input HP Hf) as (envs & Hrun & Htr).
  pose proof (root_passes_binary64 P Hv HP HPmax) as Hroot.
  assert (Hmax : Z.of_nat P <= CInt.INT_MAX) by (unfold CInt.INT_MAX; lia).
  split; [|split; [|apply testProgramaCompleto_check_binary64; assumption]].
  - unfold o. rewrite Hrun. cbn [returned]. rewrite map_map. cbn [fst]. f_equal.
    destruct P as [|P']; [lia|]. cbn [seq map]. f_equal.
    + rewrite (exit_code_root Hv HP Hmax), Hroot. reflexivity.
    + replace (S P' - 1)%nat with P' by lia.
      rewrite (map_ext_in _ (fun _ => 1)).
      * rewrite map_const, length_seq. reflexivity.
      * intros r Hr. apply in_seq in Hr. apply exit_code_others. lia.
  - unfold o. rewrite Hrun. cbn [traces]. rewrite map_map. cbn [snd].
    rewrite nth_error_map_seq by lia. eexists. split; [reflexivity|].
    rewrite (Htr 0%nat) by lia. unfold test_trace. cbn [nth].
    change (Z.of_nat 0 =? 0) with true. cbv iota.
    rewrite (verdict_total_count Hv HP Hmax), Hroot.
    replace (Z.of_nat (P - 1) + 1) with (Z.of_nat P) by lia. reflexivity.
Qed.

End TestSuite64.

(** * The main program in binary64 *)

Section MainAverage64.

Context {mpi : MPILib}.
Import Sums64.

#[local] Existing Instance Binary64.ops.
#[local] Existing Instance Binary64.random.

Lemma calcularSumaParcial_holds (N rank : Z) :
  0 <= N <= CInt.INT_MAX ->
  holds 0 (100 * N)
        (main_cpp.calcularSumaParcial (main_cpp.generarValoresAleatorios N rank)).
Proof.
  intros HN. assert (E52 : 2 ^ 52 = 4503599627370496) by reflexivity.
  unfold main_cpp.calcularSumaParcial, main_cpp.generarValoresAleatorios.
  pose proof (fold_left_holds (generar (Z.to_nat N) (mt19937 (CInt.add rank 42))) (dlit 0)
                0 0 100 (generar_holds _ _) dlit_0_holds ltac:(lia) ltac:(lia)) as H.
  rewrite length_generar, Z2Nat.id in H by lia. apply H.
  unfold CInt.INT_MAX in HN. lia.
Qed.

Lemma main_total_holds (P : nat) (N : Z) :
  schedule_valid -> (1 <= P)%nat -> 0 < N -> N * Z.of_nat P <= CInt.INT_MAX ->
  holds 0 (100 * N * Z.of_nat P) (main_total P N).
Proof.
  intros Hv HP HN HNP. assert (E52 : 2 ^ 52 = 4503599627370496) by reflexivity.
  assert (HN' : 0 <= N <= CInt.INT_MAX) by nia.
  unfold CInt.INT_MAX in *.
  pose proof (reduce_schedule_holds P
             (fun r => main_cpp.calcularSumaParcial
                         (main_cpp.generarValoresAleatorios N (Z.of_nat r))) (dlit 0)
             (fun _ => 0) (fun _ => 100 * N) Hv HP) as H.
  rewrite !Zsum_const, length_seq in H. unfold main_total.
  replace (0 * Z.of_nat P) with 0 in H by lia. apply H; [|nia].
  intros r Hr. split; [apply calcularSumaParcial_holds; exact HN' | lia].
Qed.

(** X20. The main program in binary64: for a positive [N] with [N * P] an
    [int], whatever the order in which the MPI library combines the partial
    sums, the [promedioFinal] that every rank holds at the end is a number
    of [[0, 100]]: the rounding of the [N P] additions and of the division
    does not take the average of numbers of [[0, 100)] out of the range. *)
Theorem main_average_binary64 (P : nat) (N : Z) (rest : list Z) clk os (fuel : nat) :
  schedule_valid -> (1 <= P)%nat -> 0 < N -> N * Z.of_nat P <= CInt.INT_MAX ->
  (main_fuel P <= fuel)%nat ->
  let o := run fuel (mpirun P main_cpp.main (world P clk os (N :: rest))) in
  forall r, (r < P)%nat ->
    exists promedioFinal,
      promedio_of o r = Some promedioFinal /\
      PrimFloat.leb 0 promedioFinal = true /\ PrimFloat.leb promedioFinal 100 = true.
Proof.
  intros Hv HP HN HNP Hf o r Hr.
  assert (HN' : 0 < N <= CInt.INT_MAX) by nia.
  destruct (main_run rest clk os HP HN' Hf) as (envs & Hrun & _).
  unfold o. rewrite Hrun. cbn [promedio_of]. rewrite nth_error_map_seq by exact Hr.
  cbn [option_map fst snd main_vars main_cpp.mv_promedioFinal].
  eexists. split; [reflexivity|].
  assert (Hq : holds 0 100 (ddiv (main_total P N) (dofint (CInt.mul N (Z.of_nat P))))).
  { unfold CInt.mul. rewrite wrap_in_range
      by (unfold CInt.in_range, CInt.INT_MIN, CInt.INT_MAX in *; nia).
    unfold CInt.INT_MAX in *.
    apply (div_holds _ _ (N * Z.of_nat P) 0 100 _ _ (main_total_holds P N Hv HP HN HNP));
      try nia.
    apply of_Z_holds. assert (E52 : 2 ^ 52 = 4503599627370496) by reflexivity. nia. }
  split; [exact (holds_leb_0 _ _ _ Hq) | exact (holds_leb_100 _ _ Hq)].
Qed.

End MainAverage64.

Set Implicit Arguments.


(** * The further properties at concrete inputs *)

Section MoreSamples.


Lemma main_completes_witness :
  option_map (map fst)
    (returned (run (mpi := linear) 11
                 (mpirun 2 main_cpp.main (world 2 Samples.clock64 Samples.os [3]))))
  = Some [0; 0].
Proof.
  exact (proj1 (@main_completes float Binary64.ops Binary64.random linear 2 3 []
                  Samples.clock64 Samples.os 11
                  ltac:(lia) ltac:(unfold CInt.INT_MAX; lia) ltac:(unfold main_fuel; lia))).
Defined.

Lemma abort_reports_error_witness :
  errors (run (mpi := linear) 2
            (mpirun 2 main_cpp.main (world 2 Samples.clock64 Samples.os [0])))
  = [[Str "Error: N debe ser un número positivo."; Endl]; []].
Proof.
  exact (proj1 (proj2 (@abort_reports_error float Binary64.ops Binary64.random linear 2 [0]
                         Samples.clock64 Samples.os 2
                         ltac:(lia) ltac:(simpl; lia) ltac:(lia)))).
Defined.

Lemma test_main_completes_witness :
  traces (run (mpi := linear) 15
            (mpirun 2 test_cpp.main (world 2 Samples.clock64 Samples.os [])))
  = [test_trace (mpi := linear) 2 0; test_trace (mpi := linear) 2 1].
Proof.
  exact (proj1 (proj2 (@test_main_completes float Binary64.ops Binary64.random linear 2
                         Samples.clock64 Samples.os [] 15 ltac:(lia) ltac:(lia)))).
Defined.

Lemma test_main_pass_count_witness :
  exists tr,
    nth_error (traces (run (mpi := linear) 15
                         (mpirun 3 test_cpp.main (world 3 Samples.clock64 Samples.os [])))) 2
    = Some tr /\
    nth 11 tr CBarrier = CReduceInt 0 1 0.
Proof.
  exact (proj2 (@test_main_pass_count float Binary64.ops Binary64.random linear 3
                  Samples.clock64 Samples.os [] 15
                  linear_valid ltac:(lia) ltac:(unfold CInt.INT_MAX; lia) ltac:(lia))
               2%nat ltac:(lia)).
Defined.

Lemma test_main_exit_codes_witness :
  returned (run (mpi := linear) 15
              (mpirun 3 test_cpp.main (world 3 Samples.clock64 Samples.os [])))
  = Some ((if testReduce_check (mpi := linear) 3 && testPromedio_check (mpi := linear) 3
              && testProgramaCompleto_check (mpi := linear) 3 then 0 else 1) :: [1; 1]).
Proof.
  exact (@test_main_exit_codes float Binary64.ops Binary64.random linear 3
           Samples.clock64 Samples.os [] 15
           linear_valid ltac:(lia) ltac:(unfold CInt.INT_MAX; lia) ltac:(lia)).
Defined.

Lemma weak_scaling_average_witness :
  returned (run (mpi := linear) 2
              (spmd 2 (analysis_cpp.weakScalingAnalysis 4)
                 (world 2 Samples.clock64 Samples.os [])))
  = Some [tt; tt].
Proof.
  exact (proj1 (@weak_scaling_average float Binary64.ops Binary64.random linear 2 4
                  Samples.clock64 Samples.os [] ltac:(lia) ltac:(lia))).
Defined.

Lemma comm_vs_comp_rounds_witness :
  returned (run (mpi := linear) 5
              (spmd 2 analysis_cpp.communicationVsComputationAnalysis
                 (world 2 Samples.clock64 Samples.os [])))
  = Some [tt; tt].
Proof.
  exact (proj1 (@comm_vs_comp_rounds float Binary64.ops Binary64.random linear 2
                  Samples.clock64 Samples.os [] ltac:(lia))).
Defined.

Lemma analysis_main_completes_witness :
  returned (run (mpi := linear) 29
              (mpirun 2 analysis_cpp.main (world 2 Samples.clock64 Samples.os [])))
  = Some [0; 0].
Proof.
  exact (proj1 (@analysis_main_completes float Binary64.ops Binary64.random linear 2
                  Samples.clock64 Samples.os [] 29 ltac:(lia) ltac:(lia))).
Defined.

Lemma getrusage_failure_is_printed_witness :
  exists pre post,
    nth_error
      (outputs (run (mpi := linear) 2
                  (spmd 2 (analysis_cpp.weakScalingAnalysis 4)
                     (world 2 Samples.clock64 (fun _ => mkSys None 4 4096) []))))
      0
    = Some (pre ++ [Str "Memoria: "; Int (-1); Str " KB | "] ++ post).
Proof.
  exact (@getrusage_failure_is_printed float Binary64.ops Binary64.random linear 2 4
           Samples.clock64 (fun _ => mkSys None 4 4096) [] ltac:(lia) ltac:(lia) eq_refl).
Defined.

Lemma test3_check_passes_witness :
  test3_total (mpi := linear) 3 = expectedSum 3.
Proof.
  exact (proj1 (@test3_check_passes float Binary64.ops linear 3 Samples.clock64 Samples.os []
                  linear_valid ltac:(lia) ltac:(unfold CInt.INT_MAX; lia))).
Defined.

Lemma imprimirInfoProceso_shows_witness :
  dbls (output_of (main_cpp.imprimirInfoProceso 0
                     [1; 2; 3; 4; 5; 6; 7]%float 28%float))
  = [1; 2; 3; 4; 5; 28]%float.
Proof.
  exact (proj2 (@imprimirInfoProceso_shows float Binary64.ops 0
                  [1; 2; 3; 4; 5; 6; 7]%float 28%float
                  (blank (dops := Binary64.ops))
                  ltac:(unfold CInt.INT_MAX; simpl; lia))).
Defined.

Lemma shared_seed_prefix_witness :
  traces (run (mpi := linear) 2
            (spmd 2 (analysis_cpp.weakScalingAnalysis 2)
               (world 2 Samples.clock64 Samples.os [])))
  = map (fun r =>
           [CReduceDouble 0
              (main_cpp.calcularSumaParcial
                 (firstn 2 (main_cpp.generarValoresAleatorios 5 (Z.of_nat r))))
              (if Z.of_nat r =? 0 then total_de (mpi := linear) 2 2 else dlit 0)])
        (seq 0 2).
Proof.
  exact (@shared_seed_prefix float Binary64.ops Binary64.random linear 2 2 5
           Samples.clock64 Samples.os [] ltac:(lia) ltac:(lia)).
Defined.

End MoreSamples.

Section Samples64.

#[local] Existing Instance Binary64.ops.
#[local] Existing Instance Binary64.random.

Lemma testReduce_sum_binary64_witness :
  test_cpp.sumaEsperada_desde 3 0 (dlit 0) = Binary64.of_Z 6 /\
  testReduce_check (mpi := linear) 3 = true.
Proof.
  exact (proj2 (@testReduce_sum_binary64 linear 3 Samples.clock64 Samples.os [] 15
                  linear_valid ltac:(lia) ltac:(lia) ltac:(lia))).
Defined.

Lemma testPromedio_sum_binary64_witness :
  test_cpp.promedio_sumaEsperada 3 0 testPromedio_valores 5 (dlit 0) = Binary64.of_Z 195 /\
  testPromedio_check (mpi := linear) 3 = true.
Proof.
  exact (proj2 (@testPromedio_sum_binary64 linear 3 Samples.clock64 Samples.os [] 15
                  linear_valid ltac:(lia) ltac:(lia) ltac:(lia))).
Defined.

Lemma test_suite_binary64_witness :
  returned (run (mpi := linear) 15
              (mpirun 3 test_cpp.main (world 3 Samples.clock64 Samples.os [])))
  = Some [0; 1; 1].
Proof.
  exact (proj1 (@test_suite_binary64 linear 3 Samples.clock64 Samples.os [] 15
                  linear_valid ltac:(lia) ltac:(lia) ltac:(lia))).
Defined.

Lemma main_average_binary64_witness :
  exists promedioFinal,
    promedio_of (run (mpi := linear) 11
                   (mpirun 2 main_cpp.main (world 2 Samples.clock64 Samples.os [3]))) 1
    = Some promedioFinal /\
    PrimFloat.leb 0 promedioFinal = true /\ PrimFloat.leb promedioFinal 100 = true.
Proof.
  exact (@main_average_binary64 linear 2 3 [] Samples.clock64 Samples.os 11
           linear_valid ltac:(lia) ltac:(lia) ltac:(unfold CInt.INT_MAX; simpl; lia)
           ltac:(unfold main_fuel; lia) 1%nat ltac:(lia)).
Defined.

End Samples64.
